(** * fi-description-enhancer: sanitizer, compliance scanner, disclaimer manager

    A shallow embedding of [services/sanitizer.js] and [services/compliance.js]
    together with the properties stated about them, and of the two request
    handlers of [server.js] and the confidence score and the extraction of
    [services/pdf-extractor.js], which use them.

    Modelling choices.
    - A JavaScript string is a [string]: a sequence of 8-bit characters, read
      as the code units 0..255 (ASCII and Latin-1).
    - A JavaScript regular expression literal is a [regex] syntax tree, run by
      a backtracking matcher that follows the priorities of the ECMAScript
      matcher (greedy and lazy quantifiers, captures, back-references, the
      [i] flag).  No pattern of the two services has a capture group under a
      quantifier, so captures are never reset.
    - A JavaScript argument is a [value]; calling a string method on a value
      that is not a string raises [TypeError].
    - A JavaScript number that is computed with is a binary64 [float]. *)

From Stdlib Require Import Bool Arith Lia List Ascii String.
From Stdlib Require PrimFloat.
Import ListNotations.

Open Scope list_scope.
Open Scope string_scope.
Open Scope nat_scope.

(* ================================================================= *)
(** ** Characters *)

Module Chars.

Definition code (c : ascii) : nat := nat_of_ascii c.

Definition between (lo hi : nat) (c : ascii) : bool :=
  (lo <=? code c) && (code c <=? hi).

(** Upper-case letters: A-Z and the Latin-1 capitals (all of 0xC0-0xDE but
    the multiplication sign 0xD7). *)
Definition is_upper (c : ascii) : bool :=
  between 65 90 c || (between 192 222 c && negb (code c =? 215)).

(** Lower-case letters with a one-character capital in the same range:
    a-z and 0xE0-0xFE but the division sign 0xF7. *)
Definition is_lower (c : ascii) : bool :=
  between 97 122 c || (between 224 254 c && negb (code c =? 247)).

(** One character of [String.prototype.toLowerCase]. *)
Definition toLower (c : ascii) : ascii :=
  if is_upper c then ascii_of_nat (code c + 32) else c.

(** The [Canonicalize] operation of a regular expression with the [i] flag. *)
Definition toUpper (c : ascii) : ascii :=
  if is_lower c then ascii_of_nat (code c - 32) else c.

(** White space and line terminators: what [\s] matches and [trim] removes. *)
Definition is_space (c : ascii) : bool :=
  between 9 13 c || (code c =? 32) || (code c =? 160).

(** [\w]: letters, digits and the underscore. *)
Definition is_word (c : ascii) : bool :=
  between 97 122 c || between 65 90 c || between 48 57 c || (code c =? 95).

(** Line terminators, which [.] does not match. *)
Definition is_newline (c : ascii) : bool :=
  (code c =? 10) || (code c =? 13).

Definition dquote : ascii := "034"%char.
Definition newline : ascii := "010"%char.

End Chars.
Import Chars.

(* ================================================================= *)
(** ** Strings *)

Module Str.

Fixpoint take (n : nat) (s : string) : string :=
  match n, s with
  | S n', String c s' => String c (take n' s')
  | _, _ => ""
  end.

Fixpoint drop (n : nat) (s : string) : string :=
  match n, s with
  | S n', String c s' => drop n' s'
  | _, _ => s
  end.

Fixpoint map (f : ascii -> ascii) (s : string) : string :=
  match s with
  | "" => ""
  | String c s' => String (f c) (map f s')
  end.

(** [s.toLowerCase()] *)
Definition toLowerCase (s : string) : string := map toLower s.

Fixpoint starts_with (p s : string) : bool :=
  match p, s with
  | "", _ => true
  | String a p', String b s' => Ascii.eqb a b && starts_with p' s'
  | _, _ => false
  end.

(** [s.includes(sub)] *)
Fixpoint includes (s sub : string) : bool :=
  starts_with sub s ||
  match s with
  | "" => false
  | String _ s' => includes s' sub
  end.

Fixpoint mem (c : ascii) (s : string) : bool :=
  match s with
  | "" => false
  | String a s' => Ascii.eqb a c || mem c s'
  end.

(** [s.indexOf(c)] for a one-character needle; [None] stands for -1. *)
Fixpoint indexOf (c : ascii) (s : string) : option nat :=
  match s with
  | "" => None
  | String a s' =>
      if Ascii.eqb a c then Some 0
      else match indexOf c s' with Some i => Some (S i) | None => None end
  end.

(** [s.split(sep)] for a one-character separator. *)
Fixpoint split (sep : ascii) (s : string) : list string :=
  match s with
  | "" => [""]
  | String c s' =>
      if Ascii.eqb c sep then "" :: split sep s'
      else match split sep s' with
           | p :: ps => String c p :: ps
           | [] => [String c ""]
           end
  end.

(** [parts.join(sep)] *)
Fixpoint join (sep : string) (parts : list string) : string :=
  match parts with
  | [] => ""
  | [p] => p
  | p :: ps => p ++ sep ++ join sep ps
  end.

Fixpoint trimStart (s : string) : string :=
  match s with
  | String c s' => if is_space c then trimStart s' else s
  | "" => ""
  end.

Fixpoint trimEnd (s : string) : string :=
  match s with
  | "" => ""
  | String c s' =>
      match trimEnd s' with
      | "" => if is_space c then "" else String c ""
      | t => String c t
      end
  end.

(** [s.trim()] *)
Definition trim (s : string) : string := trimEnd (trimStart s).

Definition is_empty (s : string) : bool :=
  match s with "" => true | _ => false end.

(** Number of positions of [s] at which [sub] starts. *)
Fixpoint count (sub s : string) : nat :=
  (if starts_with sub s then 1 else 0) +
  match s with
  | "" => 0
  | String _ s' => count sub s'
  end.

End Str.

(* ================================================================= *)
(** ** Regular expressions *)

Module Regex.

(** The members of a character class [[...]]. *)
Inductive citem : Type :=
| CChar (c : ascii)
| CRange (lo hi : ascii)
| CWord          (* \w *)
| CSpace         (* \s *)
| CNotSpace.     (* \S *)

Inductive regex : Type :=
| Eps
| Chr (c : ascii)
| Dot
| Cls (neg : bool) (items : list citem)
| WordB                                   (* \b *)
| Seq (r1 r2 : regex)
| Alt (r1 r2 : regex)
| Star (greedy : bool) (r : regex)        (* r* and r*? *)
| Group (n : nat) (r : regex)             (* the n-th capturing group *)
| Backref (n : nat).                      (* \n *)

(** [r?], [r+] and a literal run of characters. *)
Definition Opt (r : regex) : regex := Alt r Eps.
Definition Plus (r : regex) : regex := Seq r (Star true r).

Fixpoint lit (s : string) : regex :=
  match s with
  | "" => Eps
  | String c "" => Chr c
  | String c s' => Seq (Chr c) (lit s')
  end.

(** Sequence of several pieces. *)
Fixpoint seqs (rs : list regex) : regex :=
  match rs with
  | [] => Eps
  | [r] => r
  | r :: rs' => Seq r (seqs rs')
  end.

Definition in_item (it : citem) (c : ascii) : bool :=
  match it with
  | CChar a => Ascii.eqb a c
  | CRange lo hi => between (code lo) (code hi) c
  | CWord => is_word c
  | CSpace => is_space c
  | CNotSpace => negb (is_space c)
  end.

(** Two characters are the same for the matcher. With the [i] flag both are
    canonicalised first. *)
Definition char_eq (ic : bool) (a b : ascii) : bool :=
  if ic then Ascii.eqb (toUpper a) (toUpper b) else Ascii.eqb a b.

(** Membership in the set of a class: with the [i] flag a character belongs
    to it when some member has the same canonical form. *)
Definition in_class (ic : bool) (items : list citem) (c : ascii) : bool :=
  existsb (fun it =>
             in_item it c ||
             (ic && (in_item it (toUpper c) || in_item it (toLower c))))
          items.

(** The matcher walks a string and remembers the character before the
    current position (for [\b]) and the captures made so far. *)
Record mstate : Type := MState {
  prev : option ascii;
  rest : string;
  caps : list (nat * string)
}.

Definition is_word_opt (o : option ascii) : bool :=
  match o with Some c => is_word c | None => false end.

Definition next_char (s : string) : option ascii :=
  match s with String c _ => Some c | "" => None end.

Fixpoint get_cap (n : nat) (cs : list (nat * string)) : option string :=
  match cs with
  | [] => None
  | (i, s) :: cs' => if i =? n then Some s else get_cap n cs'
  end.

(** Consume [p] at the front of [s], comparing characters with [char_eq];
    returns the last character consumed and what is left. *)
Fixpoint eat (ic : bool) (p : string) (last : option ascii) (s : string)
  : option (option ascii * string) :=
  match p with
  | "" => Some (last, s)
  | String a p' =>
      match s with
      | String b s' => if char_eq ic a b then eat ic p' (Some b) s' else None
      | "" => None
      end
  end.

Definition orelse {A} (x y : option A) : option A :=
  match x with Some _ => x | None => y end.

(** The loop of a quantifier [r*] or [r*?].  [body] matches one iteration
    and [k] what follows the quantifier.  An iteration that consumes nothing
    is rejected, as in ECMAScript, so the loop runs at most once per
    remaining character; [fuel] is set above that. *)
Fixpoint star_loop (greedy : bool)
  (body : (mstate -> option mstate) -> mstate -> option mstate)
  (k : mstate -> option mstate) (fuel : nat) (st0 : mstate)
  {struct fuel} : option mstate :=
  match fuel with
  | 0 => k st0
  | S fuel' =>
      let again :=
        body (fun st1 =>
                if String.length (rest st1) <? String.length (rest st0)
                then star_loop greedy body k fuel' st1 else None)
             st0 in
      if greedy then orelse again (k st0) else orelse (k st0) again
  end.

(** The backtracking matcher in continuation-passing style: [m ic r k st]
    matches [r] at [st] and hands every way of doing so, in priority order,
    to [k] until [k] accepts one. *)
Fixpoint m (ic : bool) (r : regex) (k : mstate -> option mstate)
  (st : mstate) {struct r} : option mstate :=
  match r with
  | Eps => k st
  | Chr c =>
      match rest st with
      | String b s' =>
          if char_eq ic c b then k (MState (Some b) s' (caps st)) else None
      | "" => None
      end
  | Dot =>
      match rest st with
      | String b s' =>
          if is_newline b then None else k (MState (Some b) s' (caps st))
      | "" => None
      end
  | Cls neg items =>
      match rest st with
      | String b s' =>
          if xorb neg (in_class ic items b)
          then k (MState (Some b) s' (caps st)) else None
      | "" => None
      end
  | WordB =>
      if xorb (is_word_opt (prev st)) (is_word_opt (next_char (rest st)))
      then k st else None
  | Seq r1 r2 => m ic r1 (m ic r2 k) st
  | Alt r1 r2 => orelse (m ic r1 k st) (m ic r2 k st)
  | Star greedy r' =>
      star_loop greedy (m ic r') k (S (String.length (rest st))) st
  | Group n r' =>
      m ic r'
        (fun st1 =>
           let txt :=
             Str.take (String.length (rest st) - String.length (rest st1))
                      (rest st) in
           k (MState (prev st1) (rest st1) ((n, txt) :: caps st1)))
        st
  | Backref n =>
      match get_cap n (caps st) with
      | None => k st
      | Some txt =>
          match eat ic txt (prev st) (rest st) with
          | Some (p, s') => k (MState p s' (caps st))
          | None => None
          end
      end
  end.

(** A match found at some position: the matched text and the captures. *)
Record found : Type := Found {
  matched : string;
  groups : list (nat * string)
}.

(** The text of group [n], or the empty string. *)
Definition group (n : nat) (f : found) : string :=
  match get_cap n (groups f) with Some s => s | None => "" end.

(** Try to match [r] exactly at the front of [s]. *)
Definition match_at (ic : bool) (r : regex) (p : option ascii) (s : string)
  : option found :=
  match m ic r Some (MState p s []) with
  | Some st =>
      Some (Found (Str.take (String.length s - String.length (rest st)) s)
                  (caps st))
  | None => None
  end.

(** The left-most match, as [RegExp.prototype.exec] finds it. *)
Fixpoint search (ic : bool) (r : regex) (p : option ascii) (s : string)
  : option found :=
  match match_at ic r p s with
  | Some f => Some f
  | None =>
      match s with
      | "" => None
      | String c s' => search ic r (Some c) s'
      end
  end.

(** [re.test(s)] and [s.match(re)] for a pattern without the [g] flag. *)
Definition test (ic : bool) (r : regex) (s : string) : bool :=
  match search ic r None s with Some _ => true | None => false end.

Definition exec (ic : bool) (r : regex) (s : string) : option found :=
  search ic r None s.

(** [s.replace(re, f)] for a pattern with the [g] flag: every match, from
    left to right and without overlap, is replaced by what [f] returns for
    it.  [skip] counts the characters of the current match still to drop;
    after an empty match the scan moves one character on. *)
Fixpoint replace_go (ic : bool) (r : regex) (f : found -> string)
  (p : option ascii) (skip : nat) (s : string) {struct s} : string :=
  match skip with
  | S n =>
      match s with
      | "" => ""
      | String c s' => replace_go ic r f (Some c) n s'
      end
  | 0 =>
      match match_at ic r p s with
      | Some fd =>
          f fd ++
          match s with
          | "" => ""
          | String c s' =>
              match String.length (matched fd) with
              | 0 => String c (replace_go ic r f (Some c) 0 s')
              | S n => replace_go ic r f (Some c) n s'
              end
          end
      | None =>
          match s with
          | "" => ""
          | String c s' => String c (replace_go ic r f (Some c) 0 s')
          end
      end
  end.

Definition replace_all (ic : bool) (r : regex) (f : found -> string)
  (s : string) : string :=
  replace_go ic r f None 0 s.

(** All matches of a pattern with the [g] flag, as [s.matchAll(re)]. *)
Fixpoint matchAll_go (ic : bool) (r : regex) (p : option ascii) (skip : nat)
  (s : string) {struct s} : list found :=
  match skip with
  | S n =>
      match s with
      | "" => []
      | String c s' => matchAll_go ic r (Some c) n s'
      end
  | 0 =>
      match match_at ic r p s with
      | Some fd =>
          fd ::
          match s with
          | "" => []
          | String c s' =>
              matchAll_go ic r (Some c) (String.length (matched fd) - 1) s'
          end
      | None =>
          match s with
          | "" => []
          | String c s' => matchAll_go ic r (Some c) 0 s'
          end
      end
  end.

Definition matchAll (ic : bool) (r : regex) (s : string) : list found :=
  matchAll_go ic r None 0 s.

End Regex.
Import Regex.

(* ================================================================= *)
(** ** JavaScript values and exceptions *)

Module Js.

(** What a caller can pass: [undefined], [null], a string, or any other
    value (a number, a boolean, an array, a plain object), of which only its
    truthiness and the outcome of converting it to a string matter here
    ([None]: the conversion throws).  A [String] object, which has the string
    methods without being a string, is not among the values modelled. *)
Inductive value : Type :=
| VUndefined
| VNull
| VString (s : string)
| VOther (truthy : bool) (str : option string).

Inductive result (A : Type) : Type :=
| Ok (a : A)
| TypeError.
Arguments Ok {A} a.
Arguments TypeError {A}.

Definition bind {A B} (x : result A) (f : A -> result B) : result B :=
  match x with
  | Ok a => f a
  | TypeError => TypeError
  end.

Notation "x <- e ;; k" := (bind e (fun x => k))
  (at level 61, e at next level, right associativity).

(** [!!v] *)
Definition truthy (v : value) : bool :=
  match v with
  | VUndefined | VNull => false
  | VString s => negb (Str.is_empty s)
  | VOther t _ => t
  end.

(** [typeof v === 'string'] *)
Definition is_string (v : value) : bool :=
  match v with VString _ => true | _ => false end.

(** The receiver of a string method such as [v.replace(...)]: anything but a
    string has no such method. *)
Definition receiver (v : value) : result string :=
  match v with
  | VString s => Ok s
  | _ => TypeError
  end.

(** [`${v}`] *)
Definition interpolate (v : value) : result string :=
  match v with
  | VUndefined => Ok "undefined"
  | VNull => Ok "null"
  | VString s => Ok s
  | VOther _ (Some s) => Ok s
  | VOther _ None => TypeError
  end.

(** [v || ''] *)
Definition or_empty (v : value) : value :=
  if truthy v then v else VString "".

(** The arguments the specification speaks of: a string, [null] or
    [undefined]. *)
Definition is_text (v : value) : bool :=
  match v with
  | VUndefined | VNull | VString _ => true
  | VOther _ _ => false
  end.

End Js.
Import Js.

(* ================================================================= *)
(** ** services/sanitizer.js *)

Module Sanitizer.

Definition ALLOWED_TAGS : list string :=
  ["p"; "strong"; "em"; "ul"; "li"; "br"; "span"].

Definition ALLOWED_STYLE_PROPERTIES : list string :=
  ["font-size"; "font-style"].

(** [set.has(x)] *)
Definition has (set : list string) (x : string) : bool :=
  existsb (String.eqb x) set.

Definition word_char : regex := Cls false [CWord].
Definition space_char : regex := Cls false [CSpace].
Definition any_char : regex := Cls false [CSpace; CNotSpace].

(** [<name[\s\S]*?>] *)
Definition open_tag_re (name : string) : regex :=
  seqs [lit ("<" ++ name); Star false any_char; Chr ">"].

(** [<name[\s\S]*?<\/name>] *)
Definition element_re (name : string) : regex :=
  seqs [lit ("<" ++ name); Star false any_char; lit ("</" ++ name ++ ">")].

(** [/on\w+\s*=/] *)
Definition handler_re : regex :=
  seqs [lit "on"; Plus word_char; Star true space_char; Chr "="].

(** All of them carry the flags [gi]. *)
Definition DANGEROUS_PATTERNS : list regex :=
  [ lit "javascript:";
    lit "vbscript:";
    lit "data:";
    handler_re;
    element_re "script";
    open_tag_re "script";
    lit "</script>";
    open_tag_re "iframe";
    open_tag_re "object";
    open_tag_re "embed";
    open_tag_re "link";
    open_tag_re "meta";
    element_re "style";
    open_tag_re "style" ].

(** The pattern of [sanitizeAttributes], with the flag [i]: the word style,
    an equals sign with optional white space on both sides, a single or
    double quote, a captured run of characters that are not quotes, and a
    quote again. *)
Definition style_attr_re : regex :=
  seqs [lit "style"; Star true space_char; Chr "="; Star true space_char;
        Cls false [CChar dquote; CChar "'"];
        Group 1 (Star true (Cls true [CChar dquote; CChar "'"]));
        Cls false [CChar dquote; CChar "'"]].

(** The tag pattern of the second pass, with the flags [gi]: an opening angle
    bracket, an optional slash, the captured tag name (a letter, then letters
    and digits), optional white space, the captured run of characters up to
    the closing angle bracket. *)
Definition tag_re : regex :=
  seqs [Chr "<"; Opt (Chr "/");
        Group 1 (Seq (Cls false [CRange "a" "z"; CRange "A" "Z"])
                     (Star true (Cls false [CRange "a" "z"; CRange "A" "Z";
                                            CRange "0" "9"])));
        Star true space_char;
        Group 2 (Star true (Cls true [CChar ">"]));
        Chr ">"].

(** [/on\w+=/gi] *)
Definition handler_strict_re : regex :=
  seqs [lit "on"; Plus word_char; Chr "="].

(** The pattern of the empty-pair clean-up, with the flags [gi]: an opening
    tag with a captured [\w+] name and any attributes, optional white space,
    and the closing tag of the same name (a back-reference). *)
Definition empty_pair_re : regex :=
  seqs [Chr "<"; Group 1 (Plus word_char); Star true (Cls true [CChar ">"]);
        Chr ">"; Star true space_char; lit "</"; Backref 1; Chr ">"].

(** One turn of the loop over the [;]-separated parts of a style value. *)
Definition style_step (sanitizedParts : list string) (part : string)
  : list string :=
  let trimmed := Str.trim part in
  if Str.is_empty trimmed then sanitizedParts
  else
    match Str.indexOf ":" trimmed with
    | None => sanitizedParts
    | Some colonIndex =>
        let property :=
          Str.toLowerCase (Str.trim (Str.take colonIndex trimmed)) in
        let value := Str.trim (Str.drop (colonIndex + 1) trimmed) in
        if has ALLOWED_STYLE_PROPERTIES property then
          if negb (Str.includes value "expression") &&
             negb (Str.includes value "javascript") &&
             negb (Str.includes value "url(")
          then (sanitizedParts ++ [(property ++ ": " ++ value)%string])%list
          else sanitizedParts
        else sanitizedParts
    end.

Definition sanitizeStyle (styleValue : string) : string :=
  if Str.is_empty styleValue then ""
  else
    let parts := Str.split ";" styleValue in
    Str.join "; " (fold_left style_step parts []).

Definition sanitizeAttributes (attributeString : string) : string :=
  if Str.is_empty attributeString then ""
  else
    match exec true style_attr_re attributeString with
    | Some styleMatch =>
        let sanitizedStyle := sanitizeStyle (group 1 styleMatch) in
        if negb (Str.is_empty sanitizedStyle)
        then " style=" ++ String dquote sanitizedStyle ++ String dquote ""
        else ""
    | None => ""
    end.

(** The callback of the second pass. *)
Definition rewrite_tag (fd : found) : string :=
  let lowerTag := Str.toLowerCase (group 1 fd) in
  if negb (has ALLOWED_TAGS lowerTag) then ""
  else if Str.starts_with "</" (matched fd) then "</" ++ lowerTag ++ ">"
  else if String.eqb lowerTag "br" then "<br>"
  else "<" ++ lowerTag ++ sanitizeAttributes (group 2 fd) ++ ">".

(** The callback of the clean-up of empty pairs. *)
Definition keep_empty_p (fd : found) : string :=
  if String.eqb (Str.toLowerCase (group 1 fd)) "p" then matched fd else "".

Definition remove (r : regex) (sanitized : string) : string :=
  replace_all true r (fun _ => "") sanitized.

Definition first_pass (sanitized : string) : string :=
  fold_left (fun acc pattern => remove pattern acc) DANGEROUS_PATTERNS
            sanitized.

Definition second_pass (sanitized : string) : string :=
  replace_all true tag_re rewrite_tag sanitized.

Definition third_pass (sanitized : string) : string :=
  remove handler_strict_re (remove (lit "javascript:") sanitized).

Definition cleanup (sanitized : string) : string :=
  replace_all true empty_pair_re keep_empty_p sanitized.

(** The body of [sanitizeHTML] once the argument is known to be a non-empty
    string. *)
Definition sanitize_text (html : string) : string :=
  Str.trim (cleanup (third_pass (second_pass (first_pass html)))).

Definition sanitizeHTML (html : value) : result string :=
  if negb (truthy html) || negb (is_string html) then Ok ""
  else
    sanitized <- receiver html ;;
    Ok (sanitize_text sanitized).

(** The pattern of [validateHTML], with the flags [gi]: the start of a tag
    up to the end of its captured name. *)
Definition tag_name_re : regex :=
  seqs [Chr "<"; Opt (Chr "/");
        Group 1 (Seq (Cls false [CRange "a" "z"; CRange "A" "Z"])
                     (Star true (Cls false [CRange "a" "z"; CRange "A" "Z";
                                            CRange "0" "9"])))].

Record validation : Type := Validation {
  valid : bool;
  issues : list string
}.

Definition push_if (b : bool) (x : string) (l : list string) : list string :=
  if b then (l ++ [x])%list else l.

Definition validateHTML (html : value) : result validation :=
  if negb (truthy html) || negb (is_string html) then Ok (Validation true [])
  else
    h <- receiver html ;;
    let issues0 :=
      fold_left
        (fun acc fd =>
           let tag := Str.toLowerCase (group 1 fd) in
           push_if (negb (has ALLOWED_TAGS tag))
                   ("Disallowed tag: <" ++ tag ++ ">") acc)
        (matchAll true tag_name_re h) [] in
    let issues1 :=
      push_if (test true (lit "javascript:") h) "Contains javascript: URL"
              issues0 in
    let issues2 :=
      push_if (test true handler_re h) "Contains event handler" issues1 in
    let issues3 :=
      push_if (test true (lit "<script") h) "Contains script tag" issues2 in
    Ok (Validation (List.length issues3 =? 0) issues3).

End Sanitizer.

(* ================================================================= *)
(** ** services/compliance.js *)

Module Compliance.

(** A regular expression literal with its [i] flag. *)
Record pattern : Type := Pattern {
  ignoreCase : bool;
  re : regex
}.

(** [pattern.test(text)]; no pattern of this service has the [g] flag, so the
    test keeps no position between calls. *)
Definition test_pattern (p : pattern) (text : string) : bool :=
  test (ignoreCase p) (re p) text.

Record keyword_rule : Type := KeywordRule {
  keyword : string;
  kpattern : pattern
}.

Record manipulative_rule : Type := ManipulativeRule {
  mpattern : pattern;
  message : string
}.

(** [/\bphrase\b/i] *)
Definition whole (phrase : string) : pattern :=
  Pattern true (seqs [WordB; lit phrase; WordB]).

Definition PROHIBITED_KEYWORDS : list keyword_rule :=
  [ KeywordRule "guarantee"
      (Pattern true
         (seqs [WordB; lit "guarantee"; Opt (Cls false [CChar "d"; CChar "s"]);
                WordB]));
    KeywordRule "never" (whole "never");
    KeywordRule "always" (whole "always");
    KeywordRule "required by law" (whole "required by law");
    KeywordRule "mandatory" (whole "mandatory");
    KeywordRule "best" (whole "best");
    KeywordRule "ultimate" (whole "ultimate");
    KeywordRule "act now" (whole "act now");
    KeywordRule "limited time" (whole "limited time");
    KeywordRule "don't miss"
      (Pattern true
         (seqs [WordB; lit "don"; Opt (Chr "'"); lit "t miss"; WordB])) ].

Definition MANIPULATIVE_PATTERNS : list manipulative_rule :=
  [ ManipulativeRule
      (Pattern false (seqs [Chr "!"; Chr "!"; Star true (Chr "!")]))
      "Multiple exclamation points may appear unprofessional";
    ManipulativeRule (whole "will save you thousands")
      "Unverified savings claims";
    ManipulativeRule (whole "bankrupt") "Fear-based language detected";
    ManipulativeRule (whole "devastating") "Fear-based language detected";
    ManipulativeRule (whole "you need this") "Pressure tactics detected";
    ManipulativeRule (whole "everyone who says no regrets")
      "Pressure tactics detected" ].

Definition STANDARD_DISCLAIMER : string :=
  "This coverage has limitations and exclusions. Please review the full contract terms for complete details on covered components, service requirements, and exclusions.".

(** [/first.*second/i] *)
Definition apart (first second : string) : pattern :=
  Pattern true (seqs [lit first; Star true Dot; lit second]).

Definition DISCLAIMER_INDICATORS : list pattern :=
  [ Pattern true (lit "limitations and exclusions");
    apart "please review" "contract";
    apart "see contract for" "details";
    Pattern true (lit "terms and conditions apply");
    apart "coverage" "limitations";
    Pattern true (lit "exclusions apply") ].

(** [/<[^>]*>/g], every match replaced by one space. *)
Definition any_tag_re : regex :=
  seqs [Chr "<"; Star true (Cls true [CChar ">"]); Chr ">"].

Definition stripTags (text : string) : string :=
  replace_all false any_tag_re (fun _ => " ") text.

Record compliance : Type := ComplianceResult {
  hasIssues : bool;
  warnings : list string
}.

Definition keyword_warning (keyword : string) : string :=
  "Contains " ++ String dquote keyword ++ String dquote
  " - this language may require legal review".

(** [warnings.includes(message)] *)
Definition list_includes (l : list string) (x : string) : bool :=
  existsb (String.eqb x) l.

Definition keyword_step (plainText : string) (warnings : list string)
  (rule : keyword_rule) : list string :=
  if test_pattern (kpattern rule) plainText
  then (warnings ++ [keyword_warning (keyword rule)])%list
  else warnings.

Definition manipulative_step (plainText : string) (warnings : list string)
  (rule : manipulative_rule) : list string :=
  if test_pattern (mpattern rule) plainText then
    if negb (list_includes warnings (message rule))
    then (warnings ++ [message rule])%list
    else warnings
  else warnings.

(** The scan of [checkCompliance] once the combined text is built. *)
Definition scan (combinedText : string) : compliance :=
  let plainText := stripTags combinedText in
  let warnings := fold_left (keyword_step plainText) PROHIBITED_KEYWORDS [] in
  let warnings :=
    fold_left (manipulative_step plainText) MANIPULATIVE_PATTERNS warnings in
  ComplianceResult (0 <? List.length warnings) warnings.

Definition checkCompliance (shortDescription longDescription : value)
  : result compliance :=
  short <- interpolate (or_empty shortDescription) ;;
  long <- interpolate (or_empty longDescription) ;;
  Ok (scan (short ++ " " ++ long)).

(** The test of [hasDisclaimer] on a non-empty string. *)
Definition has_indicator (text : string) : bool :=
  let plainText := Str.toLowerCase (stripTags text) in
  existsb (fun pattern => test_pattern pattern plainText)
          DISCLAIMER_INDICATORS.

Definition hasDisclaimer (text : value) : result bool :=
  if negb (truthy text) then Ok false
  else
    t <- receiver text ;;
    Ok (has_indicator t).

Definition disclaimerHTML : string :=
  "<p><em style=" ++ String dquote "font-size: smaller" ++ String dquote ">" ++
  STANDARD_DISCLAIMER ++ "</em></p>".

Definition ensureDisclaimer (longDescription : value) : result value :=
  if negb (truthy longDescription) then Ok (VString disclaimerHTML)
  else
    present <- hasDisclaimer longDescription ;;
    if present then Ok longDescription
    else
      l <- interpolate longDescription ;;
      Ok (VString (l ++ String newline (String newline disclaimerHTML))).

Definition getStandardDisclaimer : string := disclaimerHTML.

End Compliance.

Import Sanitizer Compliance.

(* ================================================================= *)
(** ** Vocabulary of the properties *)

Module Props.

(** A call returns normally. *)
Definition returns {A} (r : result A) : Prop := exists a, r = Ok a.

(** A string without the characters every pattern of the sanitizer needs:
    the angle bracket of a tag, the colon of a URL scheme and the equals sign
    of an attribute. *)
Definition markup_free (s : string) : bool :=
  negb (Str.mem "<" s) && negb (Str.mem ":" s) && negb (Str.mem "=" s).

(** Every pattern the sanitizer replaces with. *)
Definition SANITIZER_PATTERNS : list regex :=
  (DANGEROUS_PATTERNS ++
   [tag_re; lit "javascript:"; handler_strict_re; empty_pair_re])%list.

(** A text in which none of them matches anywhere. *)
Definition quiet (s : string) : bool :=
  forallb (fun r => negb (test true r s)) SANITIZER_PATTERNS.

(** The list without the later copies of an element. *)
Fixpoint dedup (l : list string) : list string :=
  match l with
  | [] => []
  | x :: l' => x :: filter (fun y => negb (String.eqb y x)) (dedup l')
  end.

(** The warnings the rule tables yield for a plain text. *)
Definition keyword_warnings (plainText : string) : list string :=
  List.map (fun rule => keyword_warning (keyword rule))
    (filter (fun rule => test_pattern (kpattern rule) plainText)
            PROHIBITED_KEYWORDS).

Definition manipulative_warnings (plainText : string) : list string :=
  dedup
    (List.map message
       (filter (fun rule => test_pattern (mpattern rule) plainText)
               MANIPULATIVE_PATTERNS)).

(** The text two arguments are scanned as. *)
Definition text_of (v : value) : string :=
  match v with VString s => s | _ => "" end.

Definition plain_text (shortDescription longDescription : value) : string :=
  stripTags (text_of shortDescription ++ " " ++ text_of longDescription).

(** [keyword] put as a word of its own between [before] and [after]. *)
Definition add_word (before keyword after : string) : string :=
  before ++ " " ++ keyword ++ " " ++ after.

(** Whether a text ends inside a tag that is still open: its last angle
    bracket is an opening one. *)
Fixpoint open_from (inside : bool) (s : string) : bool :=
  match s with
  | "" => inside
  | String c s' =>
      if Ascii.eqb c ">" then open_from false s'
      else if Ascii.eqb c "<" then open_from true s'
      else open_from inside s'
  end.

Definition ends_open (s : string) : bool := open_from false s.

(** A position between [before] and [after] lies inside a tag when [before]
    ends in an open tag that [after] closes. *)
Definition inside_tag (before after : string) : bool :=
  ends_open before && Str.mem ">" after.

Definition labels : list string := List.map keyword PROHIBITED_KEYWORDS.

(** What [ensureDisclaimer] appends: a blank-line gap and the disclaimer
    markup. *)
Definition disclaimer_block : string :=
  String newline (String newline disclaimerHTML).

(** A string that does not begin with white space. *)
Definition starts_clean (u : string) : Prop :=
  match u with
  | String c _ => is_space c = false
  | "" => True
  end.

(** The claim that sanitizing twice is sanitizing once. *)
Definition idempotent_on (x : value) : Prop :=
  (y <- sanitizeHTML x ;; sanitizeHTML (VString y)) = sanitizeHTML x.

(** The keyword warning with a full stop at its end. *)
Definition keyword_warning_stop (keyword : string) : string :=
  keyword_warning keyword ++ ".".

Definition keyword_warnings_stop (plainText : string) : list string :=
  List.map (fun rule => keyword_warning_stop (keyword rule))
    (filter (fun rule => test_pattern (kpattern rule) plainText)
            PROHIBITED_KEYWORDS).

(** [hasIssues] of a scan, or the exception it raised. *)
Definition issues (shortDescription longDescription : value) : result bool :=
  c <- checkCompliance shortDescription longDescription ;;
  Ok (hasIssues c).

(** A text wrapped in an italic paragraph with a smaller-font style
    attribute. *)
Definition italic_paragraph (text : string) : string :=
  "<p><em style=" ++ String dquote "font-size: smaller" ++ String dquote ">" ++
  text ++ "</em></p>".

(** Two line breaks: the gap of one blank line. *)
Definition blank_line_gap : string := String newline (String newline "").

(** The phrase of the standard disclaimer that the first indicator pattern
    looks for. *)
Definition distinguishing_phrase : string := "limitations and exclusions".

(** The claim that applying [ensureDisclaimer] twice leaves exactly one
    occurrence of [phrase]. *)
Definition exactly_one (phrase : string) : Prop :=
  forall v, is_text v = true ->
    exists t,
      (r <- ensureDisclaimer v ;; ensureDisclaimer r) = Ok (VString t) /\
      Str.count phrase t = 1.

(** A character that is no letter: only itself has its canonical form. *)
Definition caseless (c : ascii) : bool :=
  negb (is_lower c) && negb (is_upper c).

(** A syntactic check that every match of [r] contains the character [c]. *)
Fixpoint needs (c : ascii) (r : regex) : bool :=
  match r with
  | Chr a => Ascii.eqb a c && caseless c
  | Seq r1 r2 => needs c r1 || needs c r2
  | Alt r1 r2 => needs c r1 && needs c r2
  | Group _ r' => needs c r'
  | _ => false
  end.

(** The last character of a text, or [p] when the text is empty. *)
Fixpoint last_of (p : option ascii) (s : string) : option ascii :=
  match s with
  | "" => p
  | String c s' => last_of (Some c) s'
  end.

Definition last_char (s : string) : option ascii := last_of None s.

(** A keyword put between [before] and [after] stands there as a whole
    word: no letter, digit or underscore touches it on either side. *)
Definition whole_word (before after : string) : bool :=
  negb (is_word_opt (last_char before)) &&
  negb (is_word_opt (next_char after)).

End Props.
Import Props.

(* ================================================================= *)
(** ** What a match is: the matcher read as a relation *)

Module RegexSem.

(** [steps ic r st st']: the pattern [r] can take the matcher from [st] to
    [st'].  The relation forgets the order in which the matcher tries the
    alternatives and keeps what every successful attempt satisfies. *)
Inductive steps (ic : bool) : regex -> mstate -> mstate -> Prop :=
| StepEps st : steps ic Eps st st
| StepChr c b s' st :
    rest st = String b s' -> char_eq ic c b = true ->
    steps ic (Chr c) st (MState (Some b) s' (caps st))
| StepDot b s' st :
    rest st = String b s' -> is_newline b = false ->
    steps ic Dot st (MState (Some b) s' (caps st))
| StepCls neg items b s' st :
    rest st = String b s' -> xorb neg (in_class ic items b) = true ->
    steps ic (Cls neg items) st (MState (Some b) s' (caps st))
| StepWordB st :
    xorb (is_word_opt (prev st)) (is_word_opt (next_char (rest st))) = true ->
    steps ic WordB st st
| StepSeq r1 r2 st st1 st2 :
    steps ic r1 st st1 -> steps ic r2 st1 st2 -> steps ic (Seq r1 r2) st st2
| StepAltL r1 r2 st st1 : steps ic r1 st st1 -> steps ic (Alt r1 r2) st st1
| StepAltR r1 r2 st st1 : steps ic r2 st st1 -> steps ic (Alt r1 r2) st st1
| StepStarStop g r st : steps ic (Star g r) st st
| StepStarMore g r st st1 st2 :
    steps ic r st st1 -> steps ic (Star g r) st1 st2 ->
    steps ic (Star g r) st st2
| StepGroup n r st st1 :
    steps ic r st st1 ->
    steps ic (Group n r) st
      (MState (prev st1) (rest st1)
         ((n, Str.take (String.length (rest st) - String.length (rest st1))
                       (rest st)) :: caps st1))
| StepBackrefNone n st :
    get_cap n (caps st) = None -> steps ic (Backref n) st st
| StepBackrefSome n txt p s' st :
    get_cap n (caps st) = Some txt ->
    eat ic txt (prev st) (rest st) = Some (p, s') ->
    steps ic (Backref n) st (MState p s' (caps st)).

(** A pattern without capturing groups. *)
Fixpoint group_free (r : regex) : bool :=
  match r with
  | Seq r1 r2 | Alt r1 r2 => group_free r1 && group_free r2
  | Star _ r' => group_free r'
  | Group _ _ => false
  | _ => true
  end.

(** Every character of [s] satisfies [f]. *)
Fixpoint all_chars (f : ascii -> bool) (s : string) : bool :=
  match s with
  | "" => true
  | String c s' => f c && all_chars f s'
  end.

End RegexSem.
Import RegexSem.

(* ================================================================= *)
(** ** services/compliance.js: validateForPublishing *)

Module Publishing.

(** [s.split(re)] for a pattern without capturing groups.  The pattern is
    tried at each position in turn; a match that is not empty, or that is
    empty but leaves a piece that is not, closes the current piece.  [skip]
    counts the characters of the separator still to drop. *)
Fixpoint split_go (ic : bool) (r : regex) (piece : string)
  (p : option ascii) (skip : nat) (s : string) {struct s} : list string :=
  match s with
  | "" => [piece]
  | String c s' =>
      match skip with
      | S n => split_go ic r piece (Some c) n s'
      | 0 =>
          match match_at ic r p s with
          | Some fd =>
              match String.length (matched fd) with
              | 0 =>
                  if Str.is_empty piece
                  then split_go ic r (String c "") (Some c) 0 s'
                  else piece :: split_go ic r (String c "") (Some c) 0 s'
              | S n => piece :: split_go ic r "" (Some c) n s'
              end
          | None => split_go ic r (piece ++ String c "") (Some c) 0 s'
          end
      end
  end.

Definition split_re (ic : bool) (r : regex) (s : string) : list string :=
  match s with
  | "" =>
      match match_at ic r None "" with
      | Some _ => []
      | None => [""]
      end
  | _ => split_go ic r "" None 0 s
  end.

(** [/[.!?]+/] *)
Definition sentence_end_re : regex :=
  Plus (Cls false [CChar "."; CChar "!"; CChar "?"]).

(** [/<[^>]+>/] *)
Definition html_tag_re : regex :=
  seqs [Chr "<"; Plus (Cls true [CChar ">"]); Chr ">"].

Record publishing : Type := PublishingResult {
  pvalid : bool;
  perrors : list string;
  pwarnings : list string
}.

Definition too_many_sentences : string :=
  "Short description exceeds 3 sentences".
Definition not_plain_text : string :=
  "Short description should be plain text only".
Definition missing_disclaimer : string :=
  "Long description should include a disclaimer".

(** The sentences of a short description: the pieces between runs of full
    stops, exclamation and question marks that are not blank. *)
Definition sentences (shortDescription : string) : list string :=
  filter (fun x => negb (Str.is_empty (Str.trim x)))
         (split_re false sentence_end_re shortDescription).

Definition validateForPublishing (shortDescription longDescription : value)
  : result publishing :=
  checked_short <-
    (if truthy shortDescription then
       sd <- receiver shortDescription ;;
       Ok (push_if (test false html_tag_re sd) not_plain_text [],
           push_if (3 <? List.length (sentences sd)) too_many_sentences [])
     else Ok ([], [])) ;;
  warnings <-
    (if truthy longDescription then
       present <- hasDisclaimer longDescription ;;
       Ok (push_if (negb present) missing_disclaimer (snd checked_short))
     else Ok (snd checked_short)) ;;
  compliance <- checkCompliance shortDescription longDescription ;;
  Ok (PublishingResult
        (List.length (fst checked_short) =? 0)
        (fst checked_short)
        (warnings ++ Compliance.warnings compliance)%list).

End Publishing.
Import Publishing.

(* ================================================================= *)
(** ** services/pdf-extractor.js: the confidence score and the extraction *)

Module PdfExtractor.

Import PrimFloat.
#[local] Set Warnings "-inexact-float".
#[local] Open Scope float_scope.

(** The number [n], for a length: exact below 2^53. *)
Fixpoint number (n : nat) : float :=
  match n with
  | 0 => 0
  | S n' => number n' + 1
  end.

(** [Math.max] and [Math.min] of two numbers: [NaN] if one of them is, and
    the negative zero below the positive one. *)
Definition Math_max (x y : float) : float :=
  if is_nan x || is_nan y then nan
  else if x <? y then y
  else if y <? x then x
  else if get_sign x then y else x.

Definition Math_min (x y : float) : float :=
  if is_nan x || is_nan y then nan
  else if x <? y then x
  else if y <? x then y
  else if get_sign x then x else y.

(** What [analyzeText] returns.  The three lists that the score reads behind
    a guard may be missing. *)
Record analysis : Type := Sections {
  coverage : list string;
  benefits : option (list string);
  limitations : option (list string);
  disclaimers : option (list string);
  productName : value;
  productType : value
}.

(** A capital, then one or more characters other than a full stop, then a
    full stop. *)
Definition proper_sentence_re : regex :=
  seqs [Cls false [CRange "A" "Z"]; Plus (Cls true [CChar "."]); Chr "."].

(** One character that is neither a word character, nor white space, nor one
    of the usual punctuation marks. *)
Definition garbage_re : regex :=
  Cls true [CWord; CSpace; CChar "."; CChar ","; CChar ";"; CChar ":";
            CChar "'"; CChar dquote; CChar "!"; CChar "?"; CChar "(";
            CChar ")"; CChar "-"].

(** [items && items.length > 0] *)
Definition found_some (items : option (list string)) : bool :=
  match items with
  | Some (_ :: _) => true
  | _ => false
  end.

Definition calculateConfidence (rawText : string) (a : analysis) : float :=
  let score := 0.5 in
  let score :=
    if (1000 <? String.length rawText)%nat then score + 0.1 else score in
  let score :=
    if (5000 <? String.length rawText)%nat then score + 0.1 else score in
  let score := if truthy (productName a) then score + 0.1 else score in
  let score := if truthy (productType a) then score + 0.05 else score in
  let score :=
    if (3 <=? List.length (coverage a))%nat then score + 0.1 else score in
  let score :=
    if (5 <=? List.length (coverage a))%nat then score + 0.05 else score in
  let score := if found_some (benefits a) then score + 0.05 else score in
  let score := if found_some (limitations a) then score + 0.05 else score in
  let score := if found_some (disclaimers a) then score + 0.05 else score in
  let hasProperSentences := test false proper_sentence_re rawText in
  let score := if hasProperSentences then score + 0.05 else score in
  let score :=
    if (String.length rawText <? 500)%nat then score - 0.1 else score in
  let garbageRatio :=
    number (List.length (matchAll false garbage_re rawText)) /
    number (String.length rawText) in
  let score := if 0.1 <? garbageRatio then score - 0.15 else score in
  Math_max 0 (Math_min 1 score).

(** What [extractFromPDF] returns: a failure with its message, or the two
    descriptions with the score, the sections, the length of the text and
    the number of pages. *)
Inductive extraction : Type :=
| Failed (error : string)
| Extracted (shortDescription longDescription : value) (confidence : float)
    (sections : analysis) (rawTextLength : nat) (pageCount : value).

Definition no_text : string :=
  "No text could be extracted from this PDF. The file may be image-based or corrupted.".

Definition failed_to_process : string :=
  "Failed to process PDF. Please try a different file.".

Section Extract.

Context {buffer : Type}.

(** The parser of the PDF library: the text and the number of pages of a
    file, or an exception. *)
Variable pdfParse : buffer -> result (value * value).

(** The search for sections in the text. *)
Variable analyzeText : string -> result analysis.

(** The call to the language model, with its own fall-back: a short and a
    long description. *)
Variable generateDescriptionsWithAI :
  string -> analysis -> result (value * value).

Definition extractFromPDF (pdfBuffer : buffer) : extraction :=
  match
    (data <- pdfParse pdfBuffer ;;
     if negb (truthy (fst data)) then Ok (Failed no_text)
     else
       text <- receiver (fst data) ;;
       if (String.length (Str.trim text) <? 50)%nat then Ok (Failed no_text)
       else
         analysis <- analyzeText text ;;
         let confidence := calculateConfidence text analysis in
         generated <- generateDescriptionsWithAI text analysis ;;
         Ok (Extracted (fst generated) (snd generated) confidence analysis
               (String.length text) (snd data)))
  with
  | Ok extracted => extracted
  | TypeError => Failed failed_to_process
  end.

End Extract.

End PdfExtractor.
Import PdfExtractor.

(* ================================================================= *)
(** ** server.js: the two request handlers *)

Module Server.

Import PrimFloat.
#[local] Set Warnings "-inexact-float".

(** What a handler sends: an error with its status and code, or the body of
    a reply with status 200. *)
Inductive response : Type :=
| ErrorResponse (status : nat) (error code : string)
| EnhanceResponse (shortDescription longDescription : value)
    (complianceWarnings : list string) (hasComplianceIssues : bool)
| ExtractResponse (shortDescription longDescription : value)
    (confidence : float) (lowConfidence : bool)
    (complianceWarnings : list string) (hasComplianceIssues : bool)
    (extractedSections : analysis).

(** [[...new Set([...a, ...b])]] *)
Definition merge_warnings (a b : list string) : list string :=
  dedup (a ++ b)%list.

(** The handler of [POST /api/enhance].  [enhanceDescriptions] is the call
    to the language model: it returns a short and a long description, of
    whatever type, or throws. *)
Definition enhance (shortDescription longDescription : value)
  (enhanceDescriptions : value -> value -> result (value * value))
  : response :=
  if negb (truthy shortDescription) && negb (truthy longDescription)
  then ErrorResponse 400
         "At least one description (short or long) must be provided"
         "EMPTY_INPUT"
  else
    match
      (enhanced <- enhanceDescriptions shortDescription longDescription ;;
       sanitizedLong <- sanitizeHTML (snd enhanced) ;;
       longWithDisclaimer <- ensureDisclaimer (VString sanitizedLong) ;;
       inputCompliance <- checkCompliance shortDescription longDescription ;;
       outputCompliance <-
         checkCompliance (fst enhanced) longWithDisclaimer ;;
       Ok (EnhanceResponse (fst enhanced) longWithDisclaimer
             (merge_warnings (warnings inputCompliance)
                             (warnings outputCompliance))
             (hasIssues inputCompliance || hasIssues outputCompliance)))
    with
    | Ok reply => reply
    | TypeError =>
        ErrorResponse 500
          "Enhancement service temporarily unavailable. Please try again."
          "SERVICE_ERROR"
    end.

(** The score below which a reply is flagged. *)
Definition low_confidence (confidence : float) : bool :=
  (confidence <? 0.8)%float.

(** The handler of [POST /api/extract-pdf].  [file] is the upload, if any.
    An exception raised in the body is not the one of the upload filter, so
    the [catch] answers 500. *)
Definition extractPdf {buffer : Type} (file : option buffer)
  (extractFromPDF : buffer -> extraction) : response :=
  match file with
  | None => ErrorResponse 400 "No PDF file uploaded" "NO_FILE"
  | Some pdf =>
      match extractFromPDF pdf with
      | Failed error =>
          ErrorResponse 400
            (if Str.is_empty error
             then "No text could be extracted from this PDF."
             else error)
            "EXTRACTION_FAILED"
      | Extracted shortDescription longDescription confidence sections _ _ =>
          match
            (sanitizedLong <- sanitizeHTML longDescription ;;
             longWithDisclaimer <- ensureDisclaimer (VString sanitizedLong) ;;
             complianceResult <-
               checkCompliance shortDescription longWithDisclaimer ;;
             Ok (ExtractResponse shortDescription longWithDisclaimer
                   confidence (low_confidence confidence)
                   (warnings complianceResult) (hasIssues complianceResult)
                   sections))
          with
          | Ok reply => reply
          | TypeError =>
              ErrorResponse 500
                "Failed to process PDF. Please try a different file."
                "PROCESSING_ERROR"
          end
      end
  end.

End Server.
Import Server.

(* ================================================================= *)
(** ** Vocabulary of the further properties *)

Module More.

(** A declaration as [sanitizeStyle] writes it. *)
Definition declaration (d : string * string) : string :=
  fst d ++ ": " ++ snd d.

(** The value check of [sanitizeStyle]. *)
Definition safe_value (v : string) : bool :=
  negb (Str.includes v "expression") &&
  negb (Str.includes v "javascript") &&
  negb (Str.includes v "url(").

(** The property and the value [sanitizeStyle] keeps of one part of a style
    value, if it keeps the part. *)
Definition parse_part (part : string) : option (string * string) :=
  let trimmed := Str.trim part in
  if Str.is_empty trimmed then None
  else
    match Str.indexOf ":" trimmed with
    | None => None
    | Some colonIndex =>
        let property :=
          Str.toLowerCase (Str.trim (Str.take colonIndex trimmed)) in
        let value := Str.trim (Str.drop (colonIndex + 1) trimmed) in
        if has ALLOWED_STYLE_PROPERTIES property && safe_value value
        then Some (property, value) else None
    end.

(** The declarations kept of a list of parts. *)
Fixpoint parse_parts (parts : list string) : list (string * string) :=
  match parts with
  | [] => []
  | part :: parts' =>
      match parse_part part with
      | Some d => d :: parse_parts parts'
      | None => parse_parts parts'
      end
  end.

(** A declaration of an allowed property with a trimmed value that passes
    the value check and holds no semicolon. *)
Definition good_declaration (d : string * string) : Prop :=
  In (fst d) ALLOWED_STYLE_PROPERTIES /\
  safe_value (snd d) = true /\
  Str.trim (snd d) = snd d /\
  Str.mem ";" (snd d) = false.

(** The value part of a declaration after trimming: a space and the value,
    or nothing when the value is empty. *)
Definition padded (v : string) : string :=
  match v with "" => "" | _ => String " " v end.

(** The text of a [style] attribute as [sanitizeAttributes] writes it. *)
Definition style_attribute (v : string) : string :=
  " style=" ++ String dquote v ++ String dquote "".

(** A value [sanitizeAttributes] may put between the quotes: what
    [sanitizeStyle] returns unchanged, not empty, without a double quote and
    without a closing angle bracket. *)
Definition sealed_style (v : string) : Prop :=
  Str.is_empty v = false /\ sanitizeStyle v = v /\
  Str.mem dquote v = false /\ Str.mem ">" v = false.

(** The tags the second pass writes. *)
Definition canonical_tag (out : string) : Prop :=
  out = "" \/
  exists t, In t ALLOWED_TAGS /\
    (out = "</" ++ t ++ ">" \/
     out = "<" ++ t ++ ">" \/
     exists v, sealed_style v /\ out = "<" ++ t ++ style_attribute v ++ ">").

Fixpoint concat (l : list string) : string :=
  match l with
  | [] => ""
  | x :: l' => x ++ concat l'
  end.

(** A tag marker: an opening angle bracket, a text without a closing angle
    bracket, and a closing angle bracket. *)
Definition tag_marker (src : string) : Prop :=
  exists body, src = "<" ++ body ++ ">" /\ Str.mem ">" body = false.

(** How the tag pass reads a text, from left to right, as a list of pieces,
    each with the text read and the text written.  A character at which the
    tag pattern does not match is copied; where the pattern matches, the
    matched text is replaced by what the callback returns for the match, and
    the reading goes on after it. *)
Inductive tag_pass : string -> list (string * string) -> Prop :=
| tag_pass_end : tag_pass "" []
| tag_pass_copy (c : ascii) (s : string) (pieces : list (string * string)) :
    (forall p, match_at true tag_re p (String c s) = None) ->
    tag_pass s pieces ->
    tag_pass (String c s) ((String c "", String c "") :: pieces)
| tag_pass_tag (fd : found) (s : string) (pieces : list (string * string)) :
    (forall p, match_at true tag_re p (matched fd ++ s) = Some fd) ->
    tag_pass s pieces ->
    tag_pass (matched fd ++ s) ((matched fd, rewrite_tag fd) :: pieces).

(** A piece that is one character, copied. *)
Definition copied (piece : string * string) : Prop :=
  exists c, piece = (String c "", String c "").

(** A full stop, an exclamation mark or a question mark. *)
Definition is_terminator (c : ascii) : bool :=
  Ascii.eqb c "." || Ascii.eqb c "!" || Ascii.eqb c "?".

(** The text after its leading terminators. *)
Fixpoint skip_terminators (s : string) : string :=
  match s with
  | String c s' => if is_terminator c then skip_terminators s' else s
  | "" => ""
  end.

(** The class of the terminators. *)
Definition ends : regex := Cls false [CChar "."; CChar "!"; CChar "?"].

(** A piece that [validateForPublishing] counts as a sentence. *)
Definition nonblank (x : string) : bool := negb (Str.is_empty (Str.trim x)).

(** A text written as sentences: each body followed by its terminators. *)
Definition written (l : list (string * string)) : string :=
  concat (List.map (fun bt => fst bt ++ snd bt) l).

(** A body holds no terminator, and its terminators are one or more. *)
Definition well_punctuated (bt : string * string) : Prop :=
  all_chars (fun c => negb (is_terminator c)) (fst bt) = true /\
  all_chars is_terminator (snd bt) = true /\
  Str.is_empty (snd bt) = false.

End More.
Import More.

(* ================================================================= *)
(** ** Vocabulary of the properties of the score *)

Module Scoring.

Import PrimFloat.
#[local] Set Warnings "-inexact-float".
#[local] Open Scope float_scope.

(** The outcomes of the twelve tests of [calculateConfidence], in its
    order. *)
Record signals : Type := Signals {
  long_text : bool;
  longer_text : bool;
  named : bool;
  typed : bool;
  covered : bool;
  well_covered : bool;
  with_benefits : bool;
  with_limitations : bool;
  with_disclaimers : bool;
  proper : bool;
  short_text : bool;
  garbled : bool
}.

Definition signals_of (rawText : string) (a : analysis) : signals :=
  Signals
    (1000 <? String.length rawText)%nat
    (5000 <? String.length rawText)%nat
    (truthy (productName a))
    (truthy (productType a))
    (3 <=? List.length (coverage a))%nat
    (5 <=? List.length (coverage a))%nat
    (found_some (benefits a))
    (found_some (limitations a))
    (found_some (disclaimers a))
    (test false proper_sentence_re rawText)
    (String.length rawText <? 500)%nat
    (0.1 <? number (List.length (matchAll false garbage_re rawText)) /
            number (String.length rawText)).

(** The score for given outcomes of the tests. *)
Definition score_of (t : signals) : float :=
  let score := 0.5 in
  let score := if long_text t then score + 0.1 else score in
  let score := if longer_text t then score + 0.1 else score in
  let score := if named t then score + 0.1 else score in
  let score := if typed t then score + 0.05 else score in
  let score := if covered t then score + 0.1 else score in
  let score := if well_covered t then score + 0.05 else score in
  let score := if with_benefits t then score + 0.05 else score in
  let score := if with_limitations t then score + 0.05 else score in
  let score := if with_disclaimers t then score + 0.05 else score in
  let score := if proper t then score + 0.05 else score in
  let score := if short_text t then score - 0.1 else score in
  let score := if garbled t then score - 0.15 else score in
  Math_max 0 (Math_min 1 score).

(** The seven tests on the analysis. *)
Definition findings (a : analysis) : list bool :=
  [truthy (productName a); truthy (productType a);
   (3 <=? List.length (coverage a))%nat;
   (5 <=? List.length (coverage a))%nat;
   found_some (benefits a); found_some (limitations a);
   found_some (disclaimers a)].

(** The second analysis found at least what the first one found. *)
Definition finds_more (a a' : analysis) : Prop :=
  (truthy (productName a) = true -> truthy (productName a') = true) /\
  (truthy (productType a) = true -> truthy (productType a') = true) /\
  (List.length (coverage a) <= List.length (coverage a'))%nat /\
  (found_some (benefits a) = true -> found_some (benefits a') = true) /\
  (found_some (limitations a) = true ->
   found_some (limitations a') = true) /\
  (found_some (disclaimers a) = true -> found_some (disclaimers a') = true).

(** A property of both truth values. *)
Definition every (P : bool -> bool) : bool := P true && P false.

(** A property of every pair of truth values of which the second holds
    when the first does. *)
Definition every_more (P : bool -> bool -> bool) : bool :=
  P false false && P false true && P true true.

(** A property of all outcomes of the twelve tests. *)
Definition every_signals (f : signals -> bool) : bool :=
  every (fun b1 => every (fun b2 => every (fun b3 => every (fun b4 =>
  every (fun b5 => every (fun b6 => every (fun b7 => every (fun b8 =>
  every (fun b9 => every (fun b10 => every (fun b11 => every (fun b12 =>
    f (Signals b1 b2 b3 b4 b5 b6 b7 b8 b9 b10 b11 b12)
  )))))))))))).

(** A property of all outcomes for one text and two analyses, the second
    with at least the findings of the first. *)
Definition every_more_signals (g : signals -> signals -> bool) : bool :=
  every (fun b1 => every (fun b2 => every (fun b10 => every (fun b11 =>
  every (fun b12 =>
  every_more (fun b3 c3 => every_more (fun b4 c4 =>
  every_more (fun b5 c5 => every_more (fun b6 c6 =>
  every_more (fun b7 c7 => every_more (fun b8 c8 =>
  every_more (fun b9 c9 =>
    g (Signals b1 b2 b3 b4 b5 b6 b7 b8 b9 b10 b11 b12)
      (Signals b1 b2 c3 c4 c5 c6 c7 c8 c9 b10 b11 b12)
  )))))))))))).

Definition in_range (x : float) : bool := (0.25 <=? x) && (x <=? 1).

(** The seven tests on the analysis have the same outcomes. *)
Definition same_findings (t t' : signals) : bool :=
  Bool.eqb (named t) (named t') && Bool.eqb (typed t) (typed t') &&
  Bool.eqb (covered t) (covered t') &&
  Bool.eqb (well_covered t) (well_covered t') &&
  Bool.eqb (with_benefits t) (with_benefits t') &&
  Bool.eqb (with_limitations t) (with_limitations t') &&
  Bool.eqb (with_disclaimers t) (with_disclaimers t').

(** Under the score [sc], the second score is not lower, and it is higher
    when the findings differ, unless it is 1. *)
Definition raised_by (sc : signals -> float) (t t' : signals) : bool :=
  (sc t <=? sc t') &&
  (same_findings t t' || (sc t <? sc t') || (1 <=? sc t')).

End Scoring.
Import Scoring.

(* ================================================================= *)
(** ** The documented scenarios, run on the embedding *)

Section Scenarios.

Example script_element_removed :
  sanitizeHTML (VString "<p>Safe</p><script>alert(1)</script>") =
  Ok "<p>Safe</p>".
Proof. vm_compute. reflexivity. Qed.

Example disallowed_tag_unwrapped :
  sanitizeHTML (VString "<div>Text</div>") = Ok "Text".
Proof. vm_compute. reflexivity. Qed.

Example style_filtered :
  sanitizeHTML
    (VString ("<p style=" ++
              String dquote "background:url(evil.js); font-size:12px" ++
              String dquote ">X</p>")) =
  Ok ("<p style=" ++ String dquote "font-size: 12px" ++ String dquote ">X</p>").
Proof. vm_compute. reflexivity. Qed.

Example handlers_removed :
  sanitizeHTML
    (VString "<p onclick='alert(1)' onmouseover='evil()'>Click me</p>") =
  Ok "<p>Click me</p>".
Proof. vm_compute. reflexivity. Qed.

Example mixed_case_scheme_removed :
  sanitizeHTML (VString "<a href='JaVaScRiPt:alert(1)'>Bad</a>") = Ok "Bad".
Proof. vm_compute. reflexivity. Qed.

Example nested_allowed_tags_kept :
  sanitizeHTML (VString "<p><strong>Bold <em>and italic</em></strong></p>") =
  Ok "<p><strong>Bold <em>and italic</em></strong></p>".
Proof. vm_compute. reflexivity. Qed.

Example line_break_canonical :
  sanitizeHTML (VString "Line 1<BR class='x'/>Line 2 ") = Ok "Line 1<br>Line 2".
Proof. vm_compute. reflexivity. Qed.

Example empty_pairs_cleaned :
  sanitizeHTML (VString "<p> </p><strong> </strong><li></li>x") =
  Ok "<p> </p>x".
Proof. vm_compute. reflexivity. Qed.

Example unterminated_tag_is_text :
  sanitizeHTML (VString "a <p b") = Ok "a <p b".
Proof. vm_compute. reflexivity. Qed.

Example validator_reports_tag :
  validateHTML (VString "<div>Not allowed</div>") =
  Ok (Validation false ["Disallowed tag: <div>"; "Disallowed tag: <div>"]).
Proof. vm_compute. reflexivity. Qed.

Example guaranteed_and_act_now :
  checkCompliance (VString "Guaranteed savings! Act now!") (VString "") =
  Ok (ComplianceResult true
        [keyword_warning "guarantee"; keyword_warning "act now"]).
Proof. vm_compute. reflexivity. Qed.

Example whole_words_only :
  checkCompliance (VString "Ultimately the bestseller") VNull =
  Ok (ComplianceResult false []).
Proof. vm_compute. reflexivity. Qed.

Example repeated_message_once :
  checkCompliance VNull
    (VString "<p>It is devastating!!</p> It may bankrupt you.") =
  Ok (ComplianceResult true
        ["Multiple exclamation points may appear unprofessional";
         "Fear-based language detected"]).
Proof. vm_compute. reflexivity. Qed.

Example terms_and_conditions :
  hasDisclaimer (VString "Terms and conditions apply.") = Ok true.
Proof. vm_compute. reflexivity. Qed.

Example disclaimer_appended_once :
  ensureDisclaimer (VString "<p>Coverage info.</p>") =
  Ok (VString ("<p>Coverage info.</p>" ++ disclaimer_block)) /\
  ensureDisclaimer (VString ("<p>Coverage info.</p>" ++ disclaimer_block)) =
  Ok (VString ("<p>Coverage info.</p>" ++ disclaimer_block)).
Proof. split; vm_compute; reflexivity. Qed.

End Scenarios.

(* ================================================================= *)
(** ** Strings: basic facts *)

Section StringFacts.

Lemma str_app_empty_r (s : string) : s ++ "" = s.
Proof. induction s as [|c s IH]; simpl; [reflexivity | now rewrite IH]. Qed.

Lemma str_app_assoc (a b c : string) : (a ++ b) ++ c = a ++ b ++ c.
Proof. induction a as [|x a IH]; simpl; [reflexivity | now rewrite IH]. Qed.

Lemma str_length_app (a b : string) :
  String.length (a ++ b) = String.length a + String.length b.
Proof. induction a as [|x a IH]; simpl; [reflexivity | now rewrite IH]. Qed.

Lemma str_length_drop (n : nat) (s : string) :
  String.length (Str.drop n s) = String.length s - n.
Proof.
  revert s; induction n as [|n IH]; intros [|c s]; simpl; auto with arith.
Qed.

Lemma str_length_take (n : nat) (s : string) :
  n <= String.length s -> String.length (Str.take n s) = n.
Proof.
  revert s; induction n as [|n IH]; intros [|c s]; simpl; intros H;
    try reflexivity; try lia.
  rewrite IH; [reflexivity | lia].
Qed.

Lemma str_drop_app (n : nat) (a b : string) :
  n <= String.length a -> Str.drop n (a ++ b) = Str.drop n a ++ b.
Proof.
  revert a; induction n as [|n IH]; intros [|c a]; simpl; intros H;
    try reflexivity; try lia.
  apply IH; lia.
Qed.

Lemma str_drop_all_app (a b : string) : Str.drop (String.length a) (a ++ b) = b.
Proof. induction a as [|c a IH]; simpl; [now destruct b | exact IH]. Qed.

Lemma str_drop_drop (i j : nat) (s : string) :
  Str.drop i (Str.drop j s) = Str.drop (j + i) s.
Proof.
  revert s; induction j as [|j IH]; intros s; simpl.
  - reflexivity.
  - destruct s as [|c s]; [now destruct i | apply IH].
Qed.

Lemma str_map_app (f : ascii -> ascii) (a b : string) :
  Str.map f (a ++ b) = Str.map f a ++ Str.map f b.
Proof. induction a as [|x a IH]; simpl; [reflexivity | now rewrite IH]. Qed.

Lemma str_mem_app (c : ascii) (a b : string) :
  Str.mem c (a ++ b) = Str.mem c a || Str.mem c b.
Proof.
  induction a as [|x a IH]; simpl; [reflexivity |].
  now rewrite IH, orb_assoc.
Qed.

Lemma str_mem_of_drop (c : ascii) (n : nat) (s : string) :
  Str.mem c s = false -> Str.mem c (Str.drop n s) = false.
Proof.
  revert s; induction n as [|n IH]; intros [|x s]; simpl; auto.
  intros H; apply orb_false_iff in H; apply IH; tauto.
Qed.

Lemma indexOf_lt (c : ascii) (s : string) (i : nat) :
  Str.indexOf c s = Some i -> i < String.length s.
Proof.
  revert i; induction s as [|x s IH]; simpl; intros i; [discriminate |].
  destruct (Ascii.eqb x c).
  - intros [= <-]; lia.
  - destruct (Str.indexOf c s) as [j|]; [|discriminate].
    intros [= <-]; specialize (IH j eq_refl); lia.
Qed.

Lemma indexOf_none (c : ascii) (s : string) :
  Str.indexOf c s = None <-> Str.mem c s = false.
Proof.
  induction s as [|x s IH]; simpl; [tauto |].
  destruct (Ascii.eqb x c); simpl.
  - split; discriminate.
  - destruct (Str.indexOf c s); [|tauto].
    split; [discriminate |]. intros H; apply IH in H; discriminate.
Qed.

Lemma indexOf_app_some (c : ascii) (a b : string) (i : nat) :
  Str.indexOf c a = Some i -> Str.indexOf c (a ++ b) = Some i.
Proof.
  revert i; induction a as [|x a IH]; simpl; intros i; [discriminate |].
  destruct (Ascii.eqb x c); [trivial |].
  destruct (Str.indexOf c a) as [j|]; [|discriminate].
  intros [= <-]; now rewrite (IH j eq_refl).
Qed.

Lemma indexOf_app_none (c : ascii) (a b : string) :
  Str.indexOf c a = None ->
  Str.indexOf c (a ++ b) =
  match Str.indexOf c b with
  | Some j => Some (String.length a + j)
  | None => None
  end.
Proof.
  induction a as [|x a IH]; simpl.
  - intros _; now destruct (Str.indexOf c b).
  - destruct (Ascii.eqb x c); [discriminate |].
    destruct (Str.indexOf c a); [discriminate |].
    intros _; rewrite (IH eq_refl); now destruct (Str.indexOf c b).
Qed.

End StringFacts.

(* ================================================================= *)
(** ** The matcher on a text that lacks a character the pattern needs *)

Section Absent.

Variable ic : bool.
Variable c : ascii.

Lemma lower_to_upper (b : ascii) :
  is_lower b = true -> is_upper (toUpper b) = true.
Proof.
  destruct b as [[] [] [] [] [] [] [] []]; vm_compute;
    intros H; try reflexivity; discriminate H.
Qed.

Lemma char_eq_caseless (b : ascii) :
  caseless c = true -> char_eq ic c b = true -> b = c.
Proof.
  unfold caseless, char_eq; intros Hc H.
  apply andb_true_iff in Hc as [Hl Hu].
  apply negb_true_iff in Hl, Hu.
  destruct ic.
  - apply Ascii.eqb_eq in H.
    unfold toUpper at 1 in H; rewrite Hl in H.
    destruct (is_lower b) eqn:Hb.
    + apply lower_to_upper in Hb. rewrite <- H in Hb. congruence.
    + unfold toUpper in H; rewrite Hb in H. congruence.
  - apply Ascii.eqb_eq in H. congruence.
Qed.

Lemma eat_lacks (p : string) (l l' : option ascii) (s s' : string) :
  eat ic p l s = Some (l', s') ->
  Str.mem c s = false -> Str.mem c s' = false.
Proof.
  revert l s; induction p as [|a p IH]; simpl; intros l s H Hs.
  - now inversion H; subst.
  - destruct s as [|b s]; [discriminate |].
    destruct (char_eq ic a b); [|discriminate].
    simpl in Hs; apply orb_false_iff in Hs.
    eapply IH; [exact H | tauto].
Qed.

(** A loop whose continuation fails on every text without [c] fails. *)
Lemma star_loop_none_k (g : bool)
  (body : (mstate -> option mstate) -> mstate -> option mstate)
  (k : mstate -> option mstate) :
  (forall k' st, Str.mem c (rest st) = false ->
     (forall st', Str.mem c (rest st') = false -> k' st' = None) ->
     body k' st = None) ->
  (forall st', Str.mem c (rest st') = false -> k st' = None) ->
  forall fuel st, Str.mem c (rest st) = false ->
    star_loop g body k fuel st = None.
Proof.
  intros Hbody Hk; induction fuel as [|fuel IH]; intros st Hst; simpl.
  - now apply Hk.
  - rewrite (Hk st Hst).
    rewrite Hbody; [now destruct g | exact Hst |].
    intros st' Hst'. destruct (_ <? _); [now apply IH | reflexivity].
Qed.

(** The matcher returns only through its continuation. *)
Lemma m_none_k (r : regex) :
  forall k st, Str.mem c (rest st) = false ->
    (forall st', Str.mem c (rest st') = false -> k st' = None) ->
    m ic r k st = None.
Proof.
  induction r as [| a | | neg items | | r1 IH1 r2 IH2 | r1 IH1 r2 IH2
                 | g r IH | n r IH | n]; intros k st Hst Hk.
  - now apply Hk.
  - simpl. destruct (rest st) as [|b s'] eqn:E; [reflexivity |].
    destruct (char_eq ic a b); [|reflexivity].
    apply Hk; simpl. simpl in Hst; apply orb_false_iff in Hst; tauto.
  - simpl. destruct (rest st) as [|b s'] eqn:E; [reflexivity |].
    destruct (is_newline b); [reflexivity |].
    apply Hk; simpl. simpl in Hst; apply orb_false_iff in Hst; tauto.
  - simpl. destruct (rest st) as [|b s'] eqn:E; [reflexivity |].
    destruct (xorb neg (in_class ic items b)); [|reflexivity].
    apply Hk; simpl. simpl in Hst; apply orb_false_iff in Hst; tauto.
  - simpl. destruct (xorb _ _); [now apply Hk | reflexivity].
  - simpl. apply IH1; [exact Hst |]. intros st' Hst'. now apply IH2.
  - simpl. rewrite IH1, IH2; auto.
  - change (star_loop g (m ic r) k (S (String.length (rest st))) st = None).
    apply star_loop_none_k; auto.
  - simpl. apply IH; [exact Hst |]. intros st' Hst'. now apply Hk.
  - simpl. destruct (get_cap n (caps st)) as [txt|]; [|now apply Hk].
    destruct (eat ic txt (prev st) (rest st)) as [[p s']|] eqn:E;
      [|reflexivity].
    apply Hk; simpl. eapply eat_lacks; eauto.
Qed.

(** A pattern that needs [c] matches nowhere in a text without [c]. *)
Lemma m_needs (r : regex) :
  needs c r = true ->
  forall k st, Str.mem c (rest st) = false -> m ic r k st = None.
Proof.
  induction r as [| a | | neg items | | r1 IH1 r2 IH2 | r1 IH1 r2 IH2
                 | g r IH | n r IH | n]; simpl; intros Hn k st Hst;
    try discriminate Hn.
  - apply andb_true_iff in Hn as [Ha Hc]. apply Ascii.eqb_eq in Ha; subst a.
    destruct (rest st) as [|b s'] eqn:E; [reflexivity |].
    destruct (char_eq ic c b) eqn:Eb; [|reflexivity].
    apply (char_eq_caseless _ Hc) in Eb; subst b.
    simpl in Hst. rewrite Ascii.eqb_refl in Hst. discriminate Hst.
  - apply orb_true_iff in Hn as [Hn | Hn].
    + now apply IH1.
    + apply m_none_k; [exact Hst |]. intros st' Hst'. now apply IH2.
  - apply andb_true_iff in Hn as [Hn1 Hn2].
    rewrite IH1, IH2; auto.
  - now apply IH.
Qed.

Lemma match_at_needs (r : regex) (p : option ascii) (s : string) :
  needs c r = true -> Str.mem c s = false -> match_at ic r p s = None.
Proof.
  intros Hn Hs. unfold match_at. now rewrite m_needs.
Qed.

Lemma replace_go_absent (r : regex) (f : found -> string) :
  needs c r = true ->
  forall s p, Str.mem c s = false -> replace_go ic r f p 0 s = s.
Proof.
  intros Hn; induction s as [|b s IH]; intros p Hs; simpl.
  - now rewrite match_at_needs.
  - rewrite match_at_needs by assumption.
    simpl in Hs; apply orb_false_iff in Hs.
    rewrite IH; tauto.
Qed.

Lemma replace_all_absent (r : regex) (f : found -> string) (s : string) :
  needs c r = true -> Str.mem c s = false -> replace_all ic r f s = s.
Proof. intros; unfold replace_all; now apply replace_go_absent. Qed.

Lemma search_absent (r : regex) :
  needs c r = true ->
  forall s p, Str.mem c s = false -> search ic r p s = None.
Proof.
  intros Hn; induction s as [|b s IH]; intros p Hs; simpl.
  - now rewrite match_at_needs.
  - rewrite match_at_needs by assumption.
    simpl in Hs; apply orb_false_iff in Hs. apply IH; tauto.
Qed.

End Absent.

(* ================================================================= *)
(** ** The fuel of the quantifier loop is enough *)

Section Fuel.

Variable ic : bool.

Lemma eat_length (p : string) :
  forall l l' s s', eat ic p l s = Some (l', s') ->
    String.length s' <= String.length s.
Proof.
  induction p as [|a p IH]; simpl; intros l l' s s' H.
  - injection H as _ <-. lia.
  - destruct s as [|b s]; [discriminate |].
    destruct (char_eq ic a b); [|discriminate].
    apply IH in H. simpl. lia.
Qed.

(** The loop looks at its continuation only on texts that are not longer. *)
Lemma star_loop_ext (g : bool)
  (body : (mstate -> option mstate) -> mstate -> option mstate) :
  (forall k1 k2 st,
     (forall st', String.length (rest st') <= String.length (rest st) ->
                  k1 st' = k2 st') ->
     body k1 st = body k2 st) ->
  forall n k1 k2 st,
    (forall st', String.length (rest st') <= String.length (rest st) ->
                 k1 st' = k2 st') ->
    star_loop g body k1 n st = star_loop g body k2 n st.
Proof.
  intros Hbody; induction n as [|n IH]; intros k1 k2 st Hk; simpl.
  - apply Hk; lia.
  - rewrite (Hk st (le_n _)).
    assert (E : body
                  (fun st1 =>
                     if String.length (rest st1) <? String.length (rest st)
                     then star_loop g body k1 n st1 else None) st =
                body
                  (fun st1 =>
                     if String.length (rest st1) <? String.length (rest st)
                     then star_loop g body k2 n st1 else None) st).
    { apply Hbody. intros st1 H1.
      destruct (_ <? _) eqn:E; [|reflexivity].
      apply Nat.ltb_lt in E. apply IH. intros st' H'. apply Hk. lia. }
    now rewrite E.
Qed.

(** So does the matcher. *)
Lemma m_local (r : regex) :
  forall k1 k2 st,
    (forall st', String.length (rest st') <= String.length (rest st) ->
                 k1 st' = k2 st') ->
    m ic r k1 st = m ic r k2 st.
Proof.
  induction r as [| a | | neg items | | r1 IH1 r2 IH2 | r1 IH1 r2 IH2
                 | g r IH | n r IH | n]; intros k1 k2 st Hk.
  - apply Hk; lia.
  - simpl. destruct (rest st) as [|b s'] eqn:E; [reflexivity |].
    destruct (char_eq ic a b); [|reflexivity]. apply Hk; simpl; lia.
  - simpl. destruct (rest st) as [|b s'] eqn:E; [reflexivity |].
    destruct (is_newline b); [reflexivity |]. apply Hk; simpl; lia.
  - simpl. destruct (rest st) as [|b s'] eqn:E; [reflexivity |].
    destruct (xorb neg (in_class ic items b)); [|reflexivity].
    apply Hk; simpl; lia.
  - simpl. destruct (xorb _ _); [apply Hk; lia | reflexivity].
  - simpl. apply IH1. intros st1 H1. apply IH2. intros st2 H2.
    apply Hk. lia.
  - simpl. now rewrite (IH1 k1 k2 st Hk), (IH2 k1 k2 st Hk).
  - change (star_loop g (m ic r) k1 (S (String.length (rest st))) st =
            star_loop g (m ic r) k2 (S (String.length (rest st))) st).
    now apply star_loop_ext.
  - simpl. apply IH. intros st1 H1. apply Hk. simpl. exact H1.
  - simpl. destruct (get_cap n (caps st)) as [txt|]; [|apply Hk; lia].
    destruct (eat ic txt (prev st) (rest st)) as [[p s']|] eqn:E;
      [|reflexivity].
    apply Hk. simpl. eapply eat_length; eauto.
Qed.

(** Any two amounts of fuel above the length of the text give the same
    result: the loop never runs out of the fuel the matcher gives it. *)
Lemma star_loop_fuel (g : bool) (r : regex) (k : mstate -> option mstate) :
  forall n1 n2 st,
    String.length (rest st) < n1 -> String.length (rest st) < n2 ->
    star_loop g (m ic r) k n1 st = star_loop g (m ic r) k n2 st.
Proof.
  induction n1 as [|n1 IH]; intros n2 st H1 H2; [lia |].
  destruct n2 as [|n2]; [lia |]. simpl.
  assert (E : m ic r
                (fun st1 =>
                   if String.length (rest st1) <? String.length (rest st)
                   then star_loop g (m ic r) k n1 st1 else None) st =
              m ic r
                (fun st1 =>
                   if String.length (rest st1) <? String.length (rest st)
                   then star_loop g (m ic r) k n2 st1 else None) st).
  { apply m_local. intros st1 Hst1.
    destruct (_ <? _) eqn:L; [|reflexivity].
    apply Nat.ltb_lt in L. apply IH; lia. }
  now rewrite E.
Qed.

Lemma star_fuel_enough (g : bool) (r : regex) (k : mstate -> option mstate)
  (n : nat) (st : mstate) :
  String.length (rest st) < n ->
  star_loop g (m ic r) k n st = m ic (Star g r) k st.
Proof.
  intros H.
  change (m ic (Star g r) k st)
    with (star_loop g (m ic r) k (S (String.length (rest st))) st).
  apply star_loop_fuel; lia.
Qed.

End Fuel.

(* ================================================================= *)
(** ** Unfolding the scanning functions *)

Section Unfold.

Variables (ic : bool) (r : regex) (f : found -> string).

Lemma replace_go_nil (p : option ascii) :
  replace_go ic r f p 0 "" =
  match match_at ic r p "" with Some fd => f fd ++ "" | None => "" end.
Proof. reflexivity. Qed.

Lemma replace_go_cons (p : option ascii) (c : ascii) (s : string) :
  replace_go ic r f p 0 (String c s) =
  match match_at ic r p (String c s) with
  | Some fd =>
      f fd ++
      match String.length (matched fd) with
      | 0 => String c (replace_go ic r f (Some c) 0 s)
      | S n => replace_go ic r f (Some c) n s
      end
  | None => String c (replace_go ic r f (Some c) 0 s)
  end.
Proof. reflexivity. Qed.

Lemma replace_go_skip_cons (p : option ascii) (n : nat) (c : ascii)
  (s : string) :
  replace_go ic r f p (S n) (String c s) = replace_go ic r f (Some c) n s.
Proof. reflexivity. Qed.

Lemma search_cons (p : option ascii) (c : ascii) (s : string) :
  search ic r p (String c s) =
  match match_at ic r p (String c s) with
  | Some fd => Some fd
  | None => search ic r (Some c) s
  end.
Proof. reflexivity. Qed.

(** Where the search finds nothing, nothing is replaced. *)
Lemma replace_go_no_match (s : string) :
  forall p, search ic r p s = None -> replace_go ic r f p 0 s = s.
Proof.
  induction s as [|c s IH]; intros p H.
  - rewrite replace_go_nil. simpl in H.
    now destruct (match_at ic r p "").
  - rewrite replace_go_cons. rewrite search_cons in H.
    destruct (match_at ic r p (String c s)); [discriminate |].
    now rewrite IH.
Qed.

Lemma replace_all_no_match (s : string) :
  test ic r s = false -> replace_all ic r f s = s.
Proof.
  unfold test, replace_all. intros H. apply replace_go_no_match.
  now destruct (search ic r None s).
Qed.

(** A match right after the character [a] is found by the search, whatever
    comes before. *)
Lemma search_after (a : ascii) (y : string) :
  match_at ic r (Some a) y <> None ->
  forall x p, search ic r p (x ++ String a y) <> None.
Proof.
  intros H; induction x as [|b x IH]; intros p.
  - simpl append. rewrite search_cons.
    destruct (match_at ic r p (String a y)); [discriminate |].
    destruct y as [|c y]; simpl;
      destruct (match_at ic r (Some a) _); congruence.
  - simpl append. rewrite search_cons.
    destruct (match_at ic r p _); [discriminate | apply IH].
Qed.

Lemma test_after (a : ascii) (x y : string) :
  match_at ic r (Some a) y <> None -> test ic r (x ++ String a y) = true.
Proof.
  intros H. unfold test.
  destruct (search ic r None (x ++ String a y)) eqn:E; [reflexivity |].
  now apply (search_after a y H x None) in E.
Qed.

End Unfold.

(* ================================================================= *)
(** ** Tag stripping, [text.replace(/<[^>]*>/g, ' ')] *)

Section StripTags.

Local Arguments match_at : simpl never.

Lemma eqb_gt_sym (b : ascii) : Ascii.eqb ">" b = Ascii.eqb b ">".
Proof. apply Ascii.eqb_sym. Qed.

(** The greedy run of characters other than the closing bracket, followed by
    that bracket, stops at the first closing bracket. *)
Lemma not_gt_loop (s : string) :
  forall fuel p cs, String.length s < fuel ->
    star_loop true (m false (Cls true [CChar ">"])) (m false (Chr ">") Some)
              fuel (MState p s cs) =
    match Str.indexOf ">" s with
    | Some i => Some (MState (Some ">"%char) (Str.drop (S i) s) cs)
    | None => None
    end.
Proof.
  induction s as [|b s IH]; intros [|fuel] p cs Hf; simpl in Hf; try lia.
  - reflexivity.
  - cbn [star_loop m rest caps char_eq in_class existsb in_item Str.indexOf
         Str.drop].
    rewrite eqb_gt_sym, andb_false_l, !orb_false_r.
    destruct (Ascii.eqb b ">") eqn:E.
    + apply Ascii.eqb_eq in E; subst b. reflexivity.
    + cbn [xorb negb rest].
      assert (L : (String.length s <? String.length (String b s)) = true)
        by (apply Nat.ltb_lt; simpl; lia).
      rewrite L, IH by lia.
      destruct (Str.indexOf ">" s); reflexivity.
Qed.

Lemma any_tag_at (p : option ascii) (s : string) :
  match_at false any_tag_re p s =
  match s with
  | String c s' =>
      if Ascii.eqb c "<" then
        match Str.indexOf ">" s' with
        | Some i => Some (Found (Str.take (i + 2) s) [])
        | None => None
        end
      else None
  | "" => None
  end.
Proof.
  unfold match_at, any_tag_re.
  destruct s as [|c s']; [reflexivity |].
  cbn [seqs m rest caps char_eq].
  rewrite (Ascii.eqb_sym "<" c).
  destruct (Ascii.eqb c "<"); [|reflexivity].
  rewrite not_gt_loop by (cbn [rest]; lia).
  destruct (Str.indexOf ">" s') as [i|] eqn:E; [|reflexivity].
  apply indexOf_lt in E.
  cbn [rest caps]. rewrite str_length_drop.
  do 2 f_equal. f_equal. simpl String.length. lia.
Qed.

Let blank (_ : found) : string := " ".

Lemma strip_go_prev (s : string) (n : nat) (p p' : option ascii) :
  replace_go false any_tag_re blank p n s =
  replace_go false any_tag_re blank p' n s.
Proof.
  destruct s as [|c s], n as [|n]; try reflexivity;
    now rewrite ?replace_go_nil, ?replace_go_cons, !any_tag_at.
Qed.

Lemma strip_go_skip (n : nat) :
  forall s p, n <= String.length s ->
    replace_go false any_tag_re blank p n s =
    replace_go false any_tag_re blank None 0 (Str.drop n s).
Proof.
  induction n as [|n IH]; intros s p H.
  - replace (Str.drop 0 s) with s by now destruct s.
    apply strip_go_prev.
  - destruct s as [|c s]; simpl in H; [lia |].
    rewrite replace_go_skip_cons. apply IH; lia.
Qed.

(** The three equations of tag stripping. *)
Lemma stripTags_other (c : ascii) (s : string) :
  Ascii.eqb c "<" = false -> stripTags (String c s) = String c (stripTags s).
Proof.
  intros H. unfold stripTags, replace_all.
  rewrite replace_go_cons, any_tag_at, H.
  f_equal. apply strip_go_prev.
Qed.

Lemma stripTags_closed (s : string) (i : nat) :
  Str.indexOf ">" s = Some i ->
  stripTags (String "<" s) = String " " (stripTags (Str.drop (S i) s)).
Proof.
  intros H. unfold stripTags, replace_all.
  rewrite replace_go_cons, any_tag_at, Ascii.eqb_refl, H.
  apply indexOf_lt in H.
  cbn [matched]. rewrite str_length_take by (simpl; lia).
  replace (i + 2) with (S (S i)) by lia.
  rewrite strip_go_skip by lia. reflexivity.
Qed.

Lemma stripTags_no_gt (s : string) :
  Str.mem ">" s = false -> stripTags s = s.
Proof. intros H. now apply (replace_all_absent false ">"). Qed.

Lemma stripTags_unclosed (s : string) :
  Str.indexOf ">" s = None -> stripTags (String "<" s) = String "<" s.
Proof.
  intros H. apply stripTags_no_gt. simpl. now apply indexOf_none.
Qed.

(** Up to its first closing bracket a text is stripped on its own. *)
Lemma strip_upto_gt (d : string) :
  forall j, Str.indexOf ">" d = Some j ->
    exists y, stripTags d = y ++ stripTags (Str.drop (S j) d).
Proof.
  induction d as [|c d IH]; intros j H; [discriminate |].
  simpl in H. destruct (Ascii.eqb c ">") eqn:E.
  - injection H as <-. apply Ascii.eqb_eq in E; subst c.
    exists ">". now rewrite stripTags_other.
  - destruct (Str.indexOf ">" d) as [i|] eqn:Ei; [|discriminate].
    injection H as <-.
    destruct (Ascii.eqb c "<") eqn:El.
    + apply Ascii.eqb_eq in El; subst c.
      exists " ". now rewrite (stripTags_closed d i Ei).
    + destruct (IH i eq_refl) as [y Hy].
      exists (String c y). rewrite stripTags_other, Hy by assumption.
      reflexivity.
Qed.

(** Whatever text comes first, what follows the first closing bracket of the
    text after it is stripped on its own. *)
Lemma strip_app_upto_gt (d : string) (j : nat) :
  Str.indexOf ">" d = Some j ->
  forall n x, String.length x <= n ->
    exists y, stripTags (x ++ d) = y ++ stripTags (Str.drop (S j) d).
Proof.
  intros Hd; induction n as [|n IH]; intros x Hx.
  - destruct x; simpl in Hx; [|lia]. now apply strip_upto_gt.
  - destruct x as [|c x]; [now apply strip_upto_gt |].
    simpl in Hx. simpl append.
    destruct (Ascii.eqb c "<") eqn:El.
    + apply Ascii.eqb_eq in El; subst c.
      destruct (Str.indexOf ">" x) as [i|] eqn:Ei.
      * rewrite (stripTags_closed _ i (indexOf_app_some _ _ _ _ Ei)).
        pose proof (indexOf_lt _ _ _ Ei) as Hi.
        rewrite str_drop_app by lia.
        destruct (IH (Str.drop (S i) x)) as [y Hy].
        { rewrite str_length_drop; lia. }
        exists (String " " y). now rewrite Hy.
      * pose proof (indexOf_app_none ">" x d Ei) as H. rewrite Hd in H.
        rewrite (stripTags_closed _ _ H).
        exists " ". simpl append. do 2 f_equal.
        replace (S (String.length x + j)) with (String.length x + S j)
          by lia.
        now rewrite <- str_drop_drop, str_drop_all_app.
    + destruct (IH x) as [y Hy]; [lia |].
      exists (String c y). rewrite stripTags_other, Hy by assumption.
      reflexivity.
Qed.

End StripTags.

(* ================================================================= *)
(** ** The disclaimer manager *)

Section Disclaimer.

Lemma block_first_gt : Str.indexOf ">" disclaimer_block = Some 4.
Proof. vm_compute. reflexivity. Qed.

(** The text appended by [ensureDisclaimer] is always seen by
    [hasDisclaimer]: an open tag at the end of the original text can swallow
    the opening paragraph tag of the block, but not the sentence. *)
Lemma has_indicator_appended (x : string) :
  has_indicator (x ++ disclaimer_block) = true.
Proof.
  unfold has_indicator.
  destruct (strip_app_upto_gt disclaimer_block 4 block_first_gt
              (String.length x) x (le_n _)) as [y Hy].
  rewrite Hy. unfold Str.toLowerCase. rewrite str_map_app.
  set (t := Str.map toLower (stripTags (Str.drop 5 disclaimer_block))).
  assert (Ht : t = Str.take 18 t ++ String " " (Str.drop 19 t))
    by (vm_compute; reflexivity).
  rewrite Ht, <- str_app_assoc.
  cbn [DISCLAIMER_INDICATORS existsb]. unfold test_pattern at 1.
  cbn [ignoreCase re].
  rewrite test_after; [reflexivity |].
  vm_compute. discriminate.
Qed.

Lemma has_indicator_standard : has_indicator disclaimerHTML = true.
Proof. vm_compute. reflexivity. Qed.

Lemma is_empty_app (a b : string) :
  Str.is_empty b = false -> Str.is_empty (a ++ b) = false.
Proof. now destruct a. Qed.

Lemma hasDisclaimer_string (t : string) :
  hasDisclaimer (VString t) =
  Ok (if Str.is_empty t then false else has_indicator t).
Proof. destruct t; reflexivity. Qed.

Lemma hasDisclaimer_ensured (v : value) :
  is_text v = true ->
  (r <- ensureDisclaimer v ;; hasDisclaimer r) = Ok true.
Proof.
  intros Hv.
  assert (Hstd : hasDisclaimer (VString disclaimerHTML) = Ok true).
  { rewrite hasDisclaimer_string, has_indicator_standard. reflexivity. }
  unfold ensureDisclaimer.
  destruct (truthy v) eqn:Ht; cbn [negb]; [|exact Hstd].
  destruct v as [| | t | b o]; try discriminate Hv; try discriminate Ht.
  rewrite hasDisclaimer_string.
  simpl in Ht. apply negb_true_iff in Ht. rewrite Ht.
  destruct (has_indicator t) eqn:Hi; cbn [bind interpolate].
  - now rewrite hasDisclaimer_string, Ht, Hi.
  - fold disclaimer_block.
    rewrite hasDisclaimer_string, has_indicator_appended.
    now rewrite is_empty_app.
Qed.

Lemma ensureDisclaimer_of_present (r : value) :
  hasDisclaimer r = Ok true -> ensureDisclaimer r = Ok r.
Proof.
  intros H. unfold ensureDisclaimer.
  destruct (truthy r) eqn:Ht; cbn [negb].
  - now rewrite H.
  - unfold hasDisclaimer in H. rewrite Ht in H. discriminate H.
Qed.

(** The closed form of [ensureDisclaimer] on a string, [null] or
    [undefined]. *)
Lemma ensureDisclaimer_text (v : value) :
  is_text v = true ->
  ensureDisclaimer v =
  Ok (VString
        (if Str.is_empty (text_of v) then disclaimerHTML
         else if has_indicator (text_of v) then text_of v
         else text_of v ++ disclaimer_block)).
Proof.
  intros Hv. destruct v as [| | t | b o]; try discriminate Hv;
    try reflexivity.
  destruct t as [|a t]; [reflexivity |].
  unfold ensureDisclaimer. cbn [truthy Str.is_empty negb text_of].
  rewrite hasDisclaimer_string. cbn [Str.is_empty bind].
  now destruct (has_indicator (String a t)).
Qed.

(** A phrase without a line break does not straddle the line break that
    starts the appended block. *)
Lemma starts_with_before_newline (sub a b : string) :
  Str.mem newline sub = false ->
  Str.starts_with sub (a ++ String newline b) = Str.starts_with sub a.
Proof.
  revert a; induction sub as [|x sub IH]; intros a H; [reflexivity |].
  simpl in H. apply orb_false_iff in H as [Hx Hsub].
  destruct a as [|c a]; simpl.
  - now rewrite Hx.
  - now rewrite IH.
Qed.

Lemma count_before_newline (sub a b : string) :
  Str.is_empty sub = false -> Str.mem newline sub = false ->
  Str.count sub (a ++ String newline b) =
  Str.count sub a + Str.count sub (String newline b).
Proof.
  intros Hne Hnl; induction a as [|c a IH].
  - destruct sub; [discriminate Hne | reflexivity].
  - change (Str.count sub (String c a ++ String newline b))
      with ((if Str.starts_with sub (String c a ++ String newline b)
             then 1 else 0) + Str.count sub (a ++ String newline b)).
    change (Str.count sub (String c a))
      with ((if Str.starts_with sub (String c a) then 1 else 0) +
            Str.count sub a).
    rewrite IH, starts_with_before_newline by assumption.
    destruct (Str.starts_with sub (String c a)); lia.
Qed.

Lemma count_in_block : Str.count distinguishing_phrase disclaimer_block = 1.
Proof. vm_compute. reflexivity. Qed.

Lemma count_in_standard : Str.count distinguishing_phrase disclaimerHTML = 1.
Proof. vm_compute. reflexivity. Qed.

End Disclaimer.

(** C8. [ensureDisclaimer] returns the standard disclaimer wrapped in an
    italic paragraph with a smaller-font style attribute for a null or empty
    argument; the argument itself when [hasDisclaimer] holds of it; and
    otherwise the argument, a blank-line gap and the same wrapped
    disclaimer. *)
Theorem ensureDisclaimer_cases (v : value) :
  is_text v = true ->
  (truthy v = false ->
   ensureDisclaimer v = Ok (VString (italic_paragraph STANDARD_DISCLAIMER)))
  /\
  (hasDisclaimer v = Ok true -> ensureDisclaimer v = Ok v) /\
  (truthy v = true -> hasDisclaimer v = Ok false ->
   ensureDisclaimer v =
   Ok (VString (text_of v ++ blank_line_gap ++
                italic_paragraph STANDARD_DISCLAIMER))).
Proof.
  intros Hv. split; [|split].
  - intros Ht. unfold ensureDisclaimer. now rewrite Ht.
  - apply ensureDisclaimer_of_present.
  - intros Ht Hd. rewrite (ensureDisclaimer_text v Hv).
    destruct v as [| | t | b o]; try discriminate Ht; try discriminate Hv.
    rewrite hasDisclaimer_string in Hd. cbn [text_of].
    destruct t as [|a t]; [discriminate Ht |].
    cbn [Str.is_empty] in *. injection Hd as ->. reflexivity.
Qed.

Lemma ensureDisclaimer_cases_witness :
  ensureDisclaimer (VString "<p>Coverage info.</p>") =
  Ok (VString ("<p>Coverage info.</p>" ++ blank_line_gap ++
               italic_paragraph STANDARD_DISCLAIMER)).
Proof.
  apply (ensureDisclaimer_cases (VString "<p>Coverage info.</p>"));
    reflexivity.
Defined.

(** C9, as stated: the result of applying [ensureDisclaimer] twice does not
    always hold exactly one occurrence of the phrase of the standard
    disclaimer.  A text that carries another indicator phrase comes back
    unchanged, with no occurrence at all. *)
Lemma ensureDisclaimer_not_exactly_one :
  ~ exactly_one distinguishing_phrase /\ ~ exactly_one STANDARD_DISCLAIMER.
Proof.
  split; intros H;
    destruct (H (VString "Terms and conditions apply.") eq_refl)
      as [t [H1 H2]];
    vm_compute in H1; injection H1 as <-;
    vm_compute in H2; discriminate H2.
Qed.

(** C9, amended: applying [ensureDisclaimer] a second time changes nothing,
    so the standard disclaimer is appended at most once; and when the
    argument has no disclaimer, neither an indicator phrase nor the phrase
    of the standard disclaimer itself, the result holds that phrase exactly
    once. *)
Theorem ensureDisclaimer_twice (v : value) :
  is_text v = true ->
  (r <- ensureDisclaimer v ;; ensureDisclaimer r) = ensureDisclaimer v /\
  (hasDisclaimer v = Ok false ->
   Str.count distinguishing_phrase (text_of v) = 0 ->
   exists t,
     (r <- ensureDisclaimer v ;; ensureDisclaimer r) = Ok (VString t) /\
     Str.count distinguishing_phrase t = 1).
Proof.
  intros Hv.
  assert (Htwice :
            (r <- ensureDisclaimer v ;; ensureDisclaimer r) =
            ensureDisclaimer v).
  { pose proof (hasDisclaimer_ensured v Hv) as H.
    destruct (ensureDisclaimer v) as [r|]; cbn [bind] in *.
    - now apply ensureDisclaimer_of_present.
    - discriminate H. }
  split; [exact Htwice |].
  intros Hd Hc. rewrite Htwice, (ensureDisclaimer_text v Hv).
  eexists; split; [reflexivity |].
  destruct (Str.is_empty (text_of v)) eqn:Ee; [apply count_in_standard |].
  assert (Hi : has_indicator (text_of v) = false).
  { destruct v as [| | t | b o]; try discriminate Ee.
    rewrite hasDisclaimer_string in Hd. cbn [text_of] in Ee.
    rewrite Ee in Hd. now injection Hd. }
  rewrite Hi. unfold disclaimer_block at 1.
  rewrite count_before_newline by reflexivity.
  fold disclaimer_block. rewrite Hc, count_in_block. reflexivity.
Qed.

Lemma ensureDisclaimer_twice_witness :
  exists t,
    (r <- ensureDisclaimer (VString "<p>Coverage info.</p>") ;;
     ensureDisclaimer r) = Ok (VString t) /\
    Str.count distinguishing_phrase t = 1.
Proof.
  apply (ensureDisclaimer_twice (VString "<p>Coverage info.</p>"));
    reflexivity.
Defined.

(** C10. The result of [ensureDisclaimer] always passes [hasDisclaimer]:
    the standard disclaimer matches the first indicator pattern. *)
Theorem ensureDisclaimer_has_disclaimer (v : value) :
  is_text v = true ->
  (r <- ensureDisclaimer v ;; hasDisclaimer r) = Ok true.
Proof. exact (hasDisclaimer_ensured v). Qed.

Lemma ensureDisclaimer_has_disclaimer_witness :
  (r <- ensureDisclaimer (VString "<a") ;; hasDisclaimer r) = Ok true.
Proof.
  apply (ensureDisclaimer_has_disclaimer (VString "<a")). reflexivity.
Defined.

(* ================================================================= *)
(** ** The compliance scanner *)

Section Scanner.

Lemma filter_filter {A} (P Q : A -> bool) (l : list A) :
  filter P (filter Q l) = filter (fun x => P x && Q x) l.
Proof.
  induction l as [|x l IH]; simpl; [reflexivity |].
  destruct (Q x) eqn:EQ; simpl; rewrite ?andb_true_r, ?andb_false_r.
  - destruct (P x); now rewrite IH.
  - exact IH.
Qed.

Lemma filter_all {A} (P : A -> bool) (l : list A) :
  (forall x, In x l -> P x = true) -> filter P l = l.
Proof.
  induction l as [|x l IH]; simpl; intros H; [reflexivity |].
  rewrite (H x (or_introl eq_refl)), IH; auto.
Qed.

Lemma list_includes_app (l : list string) (x y : string) :
  list_includes (l ++ [y]) x = list_includes l x || String.eqb x y.
Proof.
  unfold list_includes. rewrite existsb_app. simpl. now rewrite orb_false_r.
Qed.

Lemma list_includes_in (l : list string) (x : string) :
  list_includes l x = true <-> In x l.
Proof.
  unfold list_includes. rewrite existsb_exists. split.
  - intros [y [Hy E]]. apply String.eqb_eq in E. now subst.
  - intros H. exists x. split; [exact H | apply String.eqb_refl].
Qed.

Lemma in_dedup (l : list string) (x : string) : In x (dedup l) -> In x l.
Proof.
  induction l as [|y l IH]; simpl; [tauto |].
  intros [H | H]; [now left |].
  apply filter_In in H. right. tauto.
Qed.

(** The first loop appends one warning for each matching keyword rule. *)
Lemma keyword_loop (t : string) (rules : list keyword_rule) :
  forall acc,
    fold_left (keyword_step t) rules acc =
    (acc ++ List.map (fun rule => keyword_warning (keyword rule))
              (filter (fun rule => test_pattern (kpattern rule) t) rules))%list.
Proof.
  induction rules as [|rule rules IH]; intros acc; simpl.
  - now rewrite List.app_nil_r.
  - rewrite IH. unfold keyword_step.
    destruct (test_pattern (kpattern rule) t); simpl;
      [now rewrite <- List.app_assoc | reflexivity].
Qed.

(** The second loop appends the messages of the matching rules that are
    neither in the list already nor appended before. *)
Lemma manipulative_loop (t : string) (rules : list manipulative_rule) :
  forall acc,
    fold_left (manipulative_step t) rules acc =
    (acc ++ filter (fun x => negb (list_includes acc x))
              (dedup (List.map message
                        (filter (fun rule => test_pattern (mpattern rule) t)
                                rules))))%list.
Proof.
  induction rules as [|rule rules IH]; intros acc; simpl.
  - now rewrite List.app_nil_r.
  - rewrite IH. unfold manipulative_step.
    destruct (test_pattern (mpattern rule) t); [|reflexivity].
    cbn [List.map dedup filter].
    destruct (list_includes acc (message rule)) eqn:E; cbn [negb].
    + f_equal. rewrite filter_filter. apply filter_ext_in.
      intros x _. destruct (String.eqb_spec x (message rule)) as [->|];
        [now rewrite E | now rewrite andb_true_r].
    + rewrite <- List.app_assoc. cbn [List.app]. do 2 f_equal.
      rewrite filter_filter. apply filter_ext.
      intros x. rewrite list_includes_app, negb_orb. reflexivity.
Qed.

(** No keyword warning is the message of a manipulative-pattern rule. *)
Lemma keyword_warning_not_message (k : keyword_rule) (r : manipulative_rule) :
  In k PROHIBITED_KEYWORDS -> In r MANIPULATIVE_PATTERNS ->
  keyword_warning (keyword k) <> message r.
Proof.
  intros Hk Hr. simpl in Hk, Hr.
  repeat (destruct Hk as [<- | Hk]); try contradiction;
    repeat (destruct Hr as [<- | Hr]); try contradiction; discriminate.
Qed.

Lemma scan_warnings (combined : string) :
  warnings (scan combined) =
  (keyword_warnings (stripTags combined) ++
   manipulative_warnings (stripTags combined))%list.
Proof.
  unfold scan. cbn [warnings].
  rewrite manipulative_loop, keyword_loop. cbn [List.app].
  fold (keyword_warnings (stripTags combined)).
  f_equal. unfold manipulative_warnings. apply filter_all.
  intros x Hx. apply negb_true_iff.
  destruct (list_includes _ x) eqn:E; [|reflexivity]. exfalso.
  apply list_includes_in in E. unfold keyword_warnings in E.
  apply in_map_iff in E as [k [Ek Hk]]. apply filter_In in Hk as [Hk _].
  apply in_dedup, in_map_iff in Hx as [r [Er Hr]].
  apply filter_In in Hr as [Hr _].
  apply (keyword_warning_not_message k r Hk Hr). congruence.
Qed.

Lemma scan_hasIssues (combined : string) :
  hasIssues (scan combined) =
  negb (Nat.eqb (List.length (warnings (scan combined))) 0).
Proof.
  unfold scan. cbn [hasIssues warnings].
  now destruct (List.length _).
Qed.

(** The closed form of [checkCompliance] on strings, [null] and
    [undefined]. *)
Lemma checkCompliance_text (a b : value) :
  is_text a = true -> is_text b = true ->
  checkCompliance a b = Ok (scan (text_of a ++ " " ++ text_of b)).
Proof.
  intros Ha Hb. unfold checkCompliance.
  destruct a as [| | x | ? ?]; try discriminate Ha;
    destruct b as [| | y | ? ?]; try discriminate Hb;
    try reflexivity;
    try (destruct x; reflexivity);
    try (destruct y; reflexivity).
  destruct x, y; reflexivity.
Qed.

End Scanner.

(** C6, as stated: the keyword warnings do not end in a full stop.  For the
    short text [best] the only warning is the code's own sentence, which has
    none. *)
Lemma checkCompliance_warning_has_no_stop :
  ~ (forall a b, is_text a = true -> is_text b = true ->
       exists c, checkCompliance a b = Ok c /\
         warnings c =
         (keyword_warnings_stop (plain_text a b) ++
          manipulative_warnings (plain_text a b))%list).
Proof.
  intros H.
  destruct (H (VString "best") VNull eq_refl eq_refl) as [c [H1 H2]].
  vm_compute in H1. injection H1 as <-.
  vm_compute in H2. discriminate H2.
Qed.

(** C6, amended: the warnings of [checkCompliance] are one sentence
    [Contains, the quoted label, - this language may require legal review]
    (without a full stop) for each keyword rule that matches the two
    arguments joined by a space and stripped of tags, in rule order, then the
    messages of the matching manipulative-pattern rules in rule order without
    repeated messages; [hasIssues] holds exactly when there is a warning. *)
Theorem checkCompliance_warnings (a b : value) :
  is_text a = true -> is_text b = true ->
  exists c, checkCompliance a b = Ok c /\
    warnings c =
    (keyword_warnings (plain_text a b) ++
     manipulative_warnings (plain_text a b))%list /\
    (hasIssues c = true <-> warnings c <> []).
Proof.
  intros Ha Hb. rewrite (checkCompliance_text a b Ha Hb).
  eexists; split; [reflexivity |]. split.
  - apply scan_warnings.
  - rewrite scan_hasIssues.
    destruct (warnings _); simpl; split; congruence.
Qed.

Lemma checkCompliance_warnings_witness :
  exists c,
    checkCompliance (VString "Guaranteed savings! Act now!") (VString "") =
    Ok c /\
    warnings c =
    (keyword_warnings
       (plain_text (VString "Guaranteed savings! Act now!") (VString "")) ++
     manipulative_warnings
       (plain_text (VString "Guaranteed savings! Act now!") (VString "")))%list
    /\ (hasIssues c = true <-> warnings c <> []).
Proof.
  apply (checkCompliance_warnings (VString "Guaranteed savings! Act now!")
           (VString "")); reflexivity.
Defined.

(* ================================================================= *)
(** ** A keyword added outside the tags *)

Section Monotone.

Lemma open_from_closed (s : string) :
  forall i b, Str.indexOf ">" s = Some i ->
    open_from b s = open_from false (Str.drop (S i) s).
Proof.
  induction s as [|c s IH]; intros i b H; [discriminate |].
  simpl in H. simpl open_from. destruct (Ascii.eqb c ">").
  - injection H as <-. now destruct s.
  - destruct (Str.indexOf ">" s) as [j|] eqn:E; [|discriminate].
    injection H as <-. cbn [Str.drop].
    destruct (Ascii.eqb c "<"); now apply IH.
Qed.

Lemma open_from_no_gt (s : string) :
  Str.mem ">" s = false -> open_from true s = true.
Proof.
  induction s as [|c s IH]; simpl; [reflexivity |].
  intros H. apply orb_false_iff in H as [H1 H2]. rewrite H1.
  destruct (Ascii.eqb c "<"); now apply IH.
Qed.

Lemma strip_plain_prefix (mid t : string) :
  Str.mem "<" mid = false -> stripTags (mid ++ t) = mid ++ stripTags t.
Proof.
  induction mid as [|c mid IH]; simpl; [reflexivity |].
  intros H. apply orb_false_iff in H as [H1 H2].
  rewrite stripTags_other, IH by assumption. reflexivity.
Qed.

Lemma scan_flags (combined : string) (rule : keyword_rule) :
  In rule PROHIBITED_KEYWORDS ->
  test_pattern (kpattern rule) (stripTags combined) = true ->
  hasIssues (scan combined) = true.
Proof.
  intros Hin Ht. rewrite scan_hasIssues, scan_warnings.
  unfold keyword_warnings.
  assert (H : In rule (filter
                (fun rule => test_pattern (kpattern rule) (stripTags combined))
                PROHIBITED_KEYWORDS))
    by (apply filter_In; now split).
  destruct (filter _ PROHIBITED_KEYWORDS); [contradiction | reflexivity].
Qed.

Lemma last_of_word (s : string) (p q : option ascii) :
  is_word_opt p = is_word_opt q ->
  is_word_opt (last_of p s) = is_word_opt (last_of q s).
Proof. destruct s; [trivial | reflexivity]. Qed.

Lemma last_of_app (x y : string) :
  forall p, last_of p (x ++ y) = last_of (last_of p x) y.
Proof. induction x as [|c x IH]; intros p; [reflexivity | apply IH]. Qed.

Lemma last_of_drop (n : nat) :
  forall s p q, Str.is_empty (Str.drop n s) = false ->
    last_of q (Str.drop n s) = last_of p s.
Proof.
  induction n as [|n IH]; intros s p q H.
  - destruct s; [discriminate H | reflexivity].
  - destruct s as [|c s]; [discriminate H |]. cbn [Str.drop last_of] in *.
    now apply IH.
Qed.

(** Stripping the tags keeps a break before a word at the start of a
    text. *)
Lemma strip_next_break (post : string) :
  is_word_opt (next_char post) = false ->
  is_word_opt (next_char (stripTags post)) = false.
Proof.
  destruct post as [|c post]; [trivial |]. cbn [next_char is_word_opt].
  intros Hc. destruct (Ascii.eqb c "<") eqn:E.
  - apply Ascii.eqb_eq in E; subst c.
    destruct (Str.indexOf ">" post) as [i|] eqn:Ei.
    + now rewrite (stripTags_closed _ i Ei).
    + now rewrite (stripTags_unclosed _ Ei).
  - now rewrite stripTags_other.
Qed.

(** A run of text without angle brackets, placed outside the tags, is still
    there after the tags are stripped, and what stands next to it is a word
    character only if it was one before. *)
Lemma strip_keeps_word (mid post : string) :
  Str.mem "<" mid = false -> Str.mem ">" mid = false ->
  forall n pre, String.length pre <= n ->
    inside_tag pre post = false ->
    exists x y,
      stripTags (pre ++ mid ++ post) = x ++ mid ++ y /\
      (forall p, is_word_opt (last_of p pre) = false ->
                 is_word_opt (last_of p x) = false) /\
      (is_word_opt (next_char post) = false ->
       is_word_opt (next_char y) = false).
Proof.
  intros Hl Hg; induction n as [|n IH]; intros pre Hn Hin.
  - destruct pre; simpl in Hn; [|lia].
    exists "", (stripTags post).
    split; [exact (strip_plain_prefix mid post Hl) |].
    split; [trivial | apply strip_next_break].
  - destruct pre as [|c pre].
    { exists "", (stripTags post).
      split; [exact (strip_plain_prefix mid post Hl) |].
      split; [trivial | apply strip_next_break]. }
    simpl in Hn. cbn [append].
    unfold inside_tag, ends_open in Hin. simpl open_from in Hin.
    destruct (Ascii.eqb c "<") eqn:El.
    + apply Ascii.eqb_eq in El; subst c. simpl in Hin.
      destruct (Str.indexOf ">" pre) as [i|] eqn:Ei.
      * rewrite (stripTags_closed _ i (indexOf_app_some _ _ _ _ Ei)).
        pose proof (indexOf_lt _ _ _ Ei) as Hi.
        rewrite str_drop_app by lia.
        destruct (IH (Str.drop (S i) pre)) as [x [y [Hxy [Hx Hy]]]].
        { rewrite str_length_drop; lia. }
        { unfold inside_tag, ends_open.
          now rewrite <- (open_from_closed pre i true Ei). }
        exists (String " " x), y. split; [now rewrite Hxy |].
        split; [|exact Hy].
        intros p Hp. cbn [last_of] in *. apply Hx.
        destruct (Str.is_empty (Str.drop (S i) pre)) eqn:Ee.
        -- destruct (Str.drop (S i) pre); [reflexivity | discriminate Ee].
        -- now rewrite (last_of_drop (S i) pre (Some "<"%char) _ Ee).
      * apply indexOf_none in Ei.
        rewrite (open_from_no_gt pre Ei) in Hin. simpl in Hin.
        exists (String "<" pre), post.
        split; [|split; trivial].
        apply stripTags_no_gt. cbn [append Str.mem].
        now rewrite !str_mem_app, Ei, Hg, Hin.
    + destruct (IH pre) as [x [y [Hxy [Hx Hy]]]]; [lia | |].
      { unfold inside_tag, ends_open.
        destruct (Ascii.eqb c ">"); exact Hin. }
      exists (String c x), y.
      split; [rewrite stripTags_other, Hxy by assumption; reflexivity |].
      split; [|exact Hy].
      intros p Hp. cbn [last_of] in *. now apply Hx.
Qed.

(** What stands between an opening angle bracket that is still open and a
    later closing one is stripped with them. *)
Lemma strip_inside (mid post : string) :
  Str.mem ">" mid = false -> Str.mem ">" post = true ->
  forall n pre, String.length pre <= n ->
    ends_open pre = true ->
    stripTags (pre ++ mid ++ post) = stripTags (pre ++ post).
Proof.
  intros Hm Hp; induction n as [|n IH]; intros pre Hn Ho.
  - destruct pre; [discriminate Ho | simpl in Hn; lia].
  - destruct pre as [|c pre]; [discriminate Ho |].
    simpl in Hn. cbn [append]. unfold ends_open in Ho.
    simpl open_from in Ho.
    destruct (Ascii.eqb c "<") eqn:El.
    + apply Ascii.eqb_eq in El; subst c. simpl in Ho.
      destruct (Str.indexOf ">" pre) as [i|] eqn:Ei.
      * rewrite (stripTags_closed _ i (indexOf_app_some _ _ _ _ Ei)).
        rewrite (stripTags_closed _ i (indexOf_app_some _ _ _ _ Ei)).
        pose proof (indexOf_lt _ _ _ Ei) as Hi.
        rewrite !str_drop_app by lia. f_equal.
        apply IH; [rewrite str_length_drop; lia |].
        unfold ends_open. now rewrite <- (open_from_closed pre i true Ei).
      * destruct (Str.indexOf ">" post) as [j|] eqn:Ej;
          [|apply indexOf_none in Ej; congruence].
        assert (Em : Str.indexOf ">" mid = None) by now apply indexOf_none.
        assert (E1 : Str.indexOf ">" (pre ++ mid ++ post) =
                     Some (String.length (pre ++ mid) + j)).
        { rewrite <- str_app_assoc, indexOf_app_none, Ej; [reflexivity |].
          rewrite indexOf_app_none, Em by assumption. reflexivity. }
        assert (E2 : Str.indexOf ">" (pre ++ post) =
                     Some (String.length pre + j))
          by now rewrite indexOf_app_none, Ej.
        rewrite (stripTags_closed _ _ E1), (stripTags_closed _ _ E2).
        f_equal. f_equal.
        rewrite <- str_app_assoc.
        replace (S (String.length (pre ++ mid) + j))
          with (String.length (pre ++ mid) + S j) by lia.
        replace (S (String.length pre + j))
          with (String.length pre + S j) by lia.
        rewrite <- !str_drop_drop, !str_drop_all_app. reflexivity.
    + rewrite !stripTags_other by assumption. f_equal.
      apply IH; [lia |]. unfold ends_open.
      destruct (Ascii.eqb c ">"); exact Ho.
Qed.

Lemma test_at (ic : bool) (r : regex) (x y : string) :
  match_at ic r (last_char x) y <> None -> test ic r (x ++ y) = true.
Proof.
  unfold test, last_char. generalize (@None ascii).
  induction x as [|c x IH]; intros p H; cbn [append last_of] in *.
  - destruct y; cbn [search]; destruct (match_at ic r p _); congruence.
  - cbn [search]. destruct (match_at ic r p (String c (x ++ y)));
      [reflexivity | now apply IH].
Qed.

(** A pattern that begins with a word boundary and a character looks at
    what stands before it only to see whether it is a word character. *)
Lemma match_at_boundary (ic : bool) (a : ascii) (r1 r2 : regex)
  (p q : option ascii) (s : string) :
  is_word_opt p = is_word_opt q ->
  match_at ic (Seq WordB (Seq (Seq (Chr a) r1) r2)) p s =
  match_at ic (Seq WordB (Seq (Seq (Chr a) r1) r2)) q s.
Proof.
  intros H. unfold match_at. cbn [m prev rest caps]. now rewrite H.
Qed.

Lemma keyword_boundary (rule : keyword_rule) (p : option ascii) (s : string) :
  In rule PROHIBITED_KEYWORDS -> is_word_opt p = false ->
  match_at (ignoreCase (kpattern rule)) (re (kpattern rule)) p s =
  match_at (ignoreCase (kpattern rule)) (re (kpattern rule)) None s.
Proof.
  intros H Hp. simpl in H.
  repeat (destruct H as [<- | H]); try contradiction;
    exact (match_at_boundary true _ _ _ p None s Hp).
Qed.

(** Every keyword pattern matches its own label where the label stands as a
    whole word. *)
Lemma keyword_found_word (rule : keyword_rule) (p : option ascii)
  (y : string) :
  In rule PROHIBITED_KEYWORDS ->
  is_word_opt p = false -> is_word_opt (next_char y) = false ->
  match_at (ignoreCase (kpattern rule)) (re (kpattern rule)) p
           (keyword rule ++ y) <> None.
Proof.
  intros Hin Hp Hy. rewrite (keyword_boundary rule p _ Hin Hp).
  destruct y as [|c y].
  - simpl in Hin.
    repeat (destruct Hin as [<- | Hin]); try contradiction;
      vm_compute; discriminate.
  - cbn [next_char is_word_opt] in Hy.
    destruct c as [b0 b1 b2 b3 b4 b5 b6 b7].
    destruct b0, b1, b2, b3, b4, b5, b6, b7;
      try discriminate Hy; clear Hy Hp;
      simpl in Hin;
      repeat (destruct Hin as [<- | Hin]); try contradiction;
      vm_compute; discriminate.
Qed.

Lemma keyword_no_bracket (rule : keyword_rule) :
  In rule PROHIBITED_KEYWORDS ->
  Str.mem "<" (keyword rule) = false /\ Str.mem ">" (keyword rule) = false.
Proof.
  intros H. simpl in H.
  repeat (destruct H as [<- | H]); try contradiction; split; reflexivity.
Qed.

(** The scan flags a combined text in which a label stands as a whole word
    outside the tags. *)
Lemma scan_added_keyword (rule : keyword_rule) (pre post : string) :
  In rule PROHIBITED_KEYWORDS ->
  inside_tag pre post = false ->
  is_word_opt (last_char pre) = false ->
  is_word_opt (next_char post) = false ->
  hasIssues (scan (pre ++ keyword rule ++ post)) = true.
Proof.
  intros Hin Htag Hpre Hpost. apply (scan_flags _ rule Hin).
  destruct (keyword_no_bracket rule Hin) as [Hl Hg].
  destruct (strip_keeps_word _ post Hl Hg (String.length pre) pre (le_n _)
              Htag) as [x [y [Hxy [Hx Hy]]]].
  rewrite Hxy. unfold test_pattern.
  apply test_at, keyword_found_word; auto.
  apply (Hx None Hpre).
Qed.

(** The scan does not see what stands inside a tag. *)
Lemma scan_inside_tag (mid pre post : string) :
  Str.mem ">" mid = false ->
  inside_tag pre post = true ->
  scan (pre ++ mid ++ post) = scan (pre ++ post).
Proof.
  intros Hm Hin. unfold inside_tag in Hin.
  apply andb_true_iff in Hin as [Ho Hp].
  unfold scan.
  now rewrite (strip_inside mid post Hm Hp (String.length pre) pre (le_n _) Ho).
Qed.

Lemma whole_word_spec (before after : string) :
  whole_word before after = true ->
  is_word_opt (last_char before) = false /\
  is_word_opt (next_char after) = false.
Proof.
  unfold whole_word. intros H. apply andb_true_iff in H as [H1 H2].
  now rewrite !negb_true_iff in *.
Qed.

Lemma last_char_after_space (x before : string) :
  is_word_opt (last_char before) = false ->
  is_word_opt (last_char (x ++ " " ++ before)) = false.
Proof.
  intros H. unfold last_char in *.
  rewrite last_of_app. cbn [append last_of].
  destruct before; [reflexivity | exact H].
Qed.

Lemma next_char_before_space (after x : string) :
  is_word_opt (next_char after) = false ->
  is_word_opt (next_char (after ++ " " ++ x)) = false.
Proof. intros H. destruct after; [reflexivity | exact H]. Qed.

End Monotone.

(** C7, as stated: a keyword added to a clean text is not always flagged.
    Put between the quotes of an attribute it is stripped with the tag. *)
Lemma keyword_inside_tag_not_flagged :
  ~ (forall before after kw, In kw labels ->
       issues VNull (VString (before ++ after)) = Ok false ->
       issues VNull (VString (add_word before kw after)) = Ok true).
Proof.
  intros H.
  specialize (H "<p title='" "'>Plan</p>" "best").
  assert (Hin : In "best" labels) by (vm_compute; tauto).
  specialize (H Hin eq_refl). vm_compute in H. discriminate H.
Qed.

(** C7, amended: a prohibited keyword added as a whole word (no letter,
    digit or underscore stands directly before or after it), at a place of
    the combined text that is not inside a tag (not between an opening angle
    bracket still open and a later closing one), makes [hasIssues] true,
    whatever it was before.  Added at a place inside a tag, the keyword
    changes nothing in what [checkCompliance] returns.  The keyword may go
    into the long or into the short description. *)
Theorem keyword_outside_tag_flagged (other : value) (before after kw : string) :
  is_text other = true -> In kw labels ->
  (whole_word before after = true ->
   (inside_tag (text_of other ++ " " ++ before) after = false ->
    issues other (VString (before ++ kw ++ after)) = Ok true) /\
   (inside_tag before (after ++ " " ++ text_of other) = false ->
    issues (VString (before ++ kw ++ after)) other = Ok true)) /\
  (inside_tag (text_of other ++ " " ++ before) after = true ->
   checkCompliance other (VString (before ++ kw ++ after)) =
   checkCompliance other (VString (before ++ after))) /\
  (inside_tag before (after ++ " " ++ text_of other) = true ->
   checkCompliance (VString (before ++ kw ++ after)) other =
   checkCompliance (VString (before ++ after)) other).
Proof.
  intros Ho Hkw. unfold labels in Hkw.
  apply in_map_iff in Hkw as [rule [<- Hin]].
  destruct (keyword_no_bracket rule Hin) as [_ Hg].
  split; [|split].
  - intros Hw. apply whole_word_spec in Hw as [Hb Ha].
    unfold issues. split; intros Htag.
    + rewrite checkCompliance_text by (assumption || reflexivity).
      cbn [bind text_of]. f_equal.
      etransitivity;
        [|exact (scan_added_keyword rule _ _ Hin Htag
                   (last_char_after_space _ _ Hb) Ha)].
      do 2 f_equal. now rewrite !str_app_assoc.
    + rewrite checkCompliance_text by (assumption || reflexivity).
      cbn [bind text_of]. f_equal.
      etransitivity;
        [|exact (scan_added_keyword rule _ _ Hin Htag Hb
                   (next_char_before_space _ _ Ha))].
      do 2 f_equal. now rewrite !str_app_assoc.
  - intros Htag.
    rewrite !checkCompliance_text by (assumption || reflexivity).
    cbn [text_of]. f_equal.
    etransitivity;
      [|etransitivity;
         [exact (scan_inside_tag (keyword rule) _ _ Hg Htag) |]];
      f_equal; now rewrite !str_app_assoc.
  - intros Htag.
    rewrite !checkCompliance_text by (assumption || reflexivity).
    cbn [text_of]. f_equal.
    etransitivity;
      [|etransitivity;
         [exact (scan_inside_tag (keyword rule) _ _ Hg Htag) |]];
      f_equal; now rewrite !str_app_assoc.
Qed.

Lemma keyword_outside_tag_flagged_witness :
  issues VNull (VString ("A safe plan (" ++ "best" ++ ").")) = Ok true.
Proof.
  assert (Hkw : In "best" labels) by (vm_compute; tauto).
  destruct (keyword_outside_tag_flagged
              VNull "A safe plan (" ")." "best" eq_refl Hkw)
    as [H _].
  exact (proj1 (H eq_refl) eq_refl).
Defined.

(* ================================================================= *)
(** ** The sanitizer *)

Section SanitizerFacts.

Lemma sanitizeHTML_string (t : string) :
  sanitizeHTML (VString t) =
  Ok (if Str.is_empty t then "" else sanitize_text t).
Proof. destruct t; reflexivity. Qed.

Lemma sanitizeHTML_non_string (v : value) :
  is_string v = false -> sanitizeHTML v = Ok "".
Proof.
  intros H. unfold sanitizeHTML. rewrite H. cbn [negb].
  now rewrite orb_true_r.
Qed.

Lemma trimEnd_cons (c : ascii) (u : string) :
  Str.trimEnd (String c u) =
  match Str.trimEnd u with
  | "" => if is_space c then "" else String c ""
  | t => String c t
  end.
Proof. reflexivity. Qed.

Lemma trimEnd_idem (u : string) : Str.trimEnd (Str.trimEnd u) = Str.trimEnd u.
Proof.
  induction u as [|c u IH]; [reflexivity |].
  rewrite trimEnd_cons. destruct (Str.trimEnd u) as [|d t] eqn:E.
  - destruct (is_space c) eqn:Ec; [reflexivity |].
    rewrite trimEnd_cons. cbn [Str.trimEnd]. now rewrite Ec.
  - rewrite trimEnd_cons, IH. reflexivity.
Qed.

Lemma trimStart_clean (u : string) : starts_clean (Str.trimStart u).
Proof.
  induction u as [|c u IH]; simpl; [exact I |].
  destruct (is_space c) eqn:E; [exact IH | exact E].
Qed.

Lemma trimStart_of_clean (u : string) :
  starts_clean u -> Str.trimStart u = u.
Proof. destruct u as [|c u]; simpl; [reflexivity |]. now intros ->. Qed.

Lemma trimEnd_clean (u : string) :
  starts_clean u -> starts_clean (Str.trimEnd u).
Proof.
  destruct u as [|c u]; simpl; [trivial |]. intros H.
  destruct (Str.trimEnd u); [now rewrite H | exact H].
Qed.

Lemma trim_idem (z : string) : Str.trim (Str.trim z) = Str.trim z.
Proof.
  unfold Str.trim.
  rewrite (trimStart_of_clean (Str.trimEnd (Str.trimStart z))).
  - apply trimEnd_idem.
  - apply trimEnd_clean, trimStart_clean.
Qed.

Lemma markup_free_spec (t : string) :
  markup_free t = true ->
  Str.mem "<" t = false /\ Str.mem ":" t = false /\ Str.mem "=" t = false.
Proof.
  unfold markup_free. intros H.
  apply andb_true_iff in H as [H H3]. apply andb_true_iff in H as [H1 H2].
  now rewrite !negb_true_iff in *.
Qed.

(** No pattern of the sanitizer matches in a text without a bracket, a colon
    and an equals sign. *)
Lemma markup_free_quiet (t : string) : markup_free t = true -> quiet t = true.
Proof.
  intros Ht. apply markup_free_spec in Ht as [H1 [H2 H3]].
  unfold quiet.
  assert (H : forallb (fun r => needs "<" r || needs ":" r || needs "=" r)
                      SANITIZER_PATTERNS = true) by reflexivity.
  induction SANITIZER_PATTERNS as [|r rs IH]; [reflexivity |].
  simpl in H. apply andb_true_iff in H as [Hr Hrs].
  cbn [forallb]. rewrite (IH Hrs), andb_true_r.
  apply negb_true_iff. unfold test.
  apply orb_true_iff in Hr as [Hr | Hr];
    [apply orb_true_iff in Hr as [Hr | Hr] |].
  - now rewrite (search_absent true "<").
  - now rewrite (search_absent true ":").
  - now rewrite (search_absent true "=").
Qed.

Lemma quiet_spec (t : string) (r : regex) :
  quiet t = true -> In r SANITIZER_PATTERNS -> test true r t = false.
Proof.
  unfold quiet. rewrite forallb_forall. intros H Hr.
  apply negb_true_iff. now apply H.
Qed.

Lemma first_pass_quiet (t : string) : quiet t = true -> first_pass t = t.
Proof.
  intros Ht. unfold first_pass.
  assert (H : forall r, In r DANGEROUS_PATTERNS -> test true r t = false).
  { intros r Hr. apply (quiet_spec t r Ht).
    unfold SANITIZER_PATTERNS. apply in_or_app. now left. }
  induction DANGEROUS_PATTERNS as [|r rs IH]; [reflexivity |].
  cbn [fold_left]. unfold remove at 2.
  rewrite replace_all_no_match by (apply H; now left).
  apply IH. intros r' Hr'. apply H. now right.
Qed.

(** On a text in which no pattern matches the sanitizer only trims. *)
Lemma sanitize_text_quiet (t : string) :
  quiet t = true -> sanitize_text t = Str.trim t.
Proof.
  intros Ht. unfold sanitize_text.
  rewrite first_pass_quiet by assumption.
  pose proof (quiet_spec t) as H. specialize (H tag_re Ht) as H1.
  pose proof (quiet_spec t (lit "javascript:") Ht) as H2.
  pose proof (quiet_spec t handler_strict_re Ht) as H3.
  pose proof (quiet_spec t empty_pair_re Ht) as H4.
  unfold second_pass. rewrite replace_all_no_match
    by (apply H1; unfold SANITIZER_PATTERNS; apply in_or_app; right;
        simpl; tauto).
  unfold third_pass, remove.
  rewrite (replace_all_no_match true (lit "javascript:"))
    by (apply H2; unfold SANITIZER_PATTERNS; apply in_or_app; right;
        simpl; tauto).
  rewrite replace_all_no_match
    by (apply H3; unfold SANITIZER_PATTERNS; apply in_or_app; right;
        simpl; tauto).
  unfold cleanup. rewrite replace_all_no_match
    by (apply H4; unfold SANITIZER_PATTERNS; apply in_or_app; right;
        simpl; tauto).
  reflexivity.
Qed.

End SanitizerFacts.

(** C1. The sanitizer leaves a [javascript:] scheme in its result: each of
    the two removals of the scheme makes one pass from left to right, and a
    scheme nested twice inside itself survives both.  The result is rejected
    by the validator of the same module.  In the same way the clean-up of
    empty pairs, which runs last, can put a script element together. *)
Theorem sanitizeHTML_leaves_javascript_scheme :
  Str.includes "javajavajavascript:script:script:" "javascript:" = true /\
  sanitizeHTML (VString "javajavajavascript:script:script:") =
  Ok "javascript:" /\
  validateHTML (VString "javascript:") =
  Ok (Validation false ["Contains javascript: URL"]) /\
  sanitizeHTML
    (VString "<<em></em>script>alert(1)<<em></em>/script><script></script>") =
  Ok "<script>alert(1)</script>".
Proof. repeat split; vm_compute; reflexivity. Qed.

(** C2. The sanitizer returns a tag outside the allowed set, with an
    attribute other than [style]: the clean-up of empty pairs runs after the
    tag pass and joins the pieces of a tag that the tag pass did not see.
    The validator of the same module rejects the result. *)
Theorem sanitizeHTML_returns_disallowed_tag :
  sanitizeHTML (VString "<<em></em>a href='x'>link<<em></em>/a>") =
  Ok "<a href='x'>link</a>" /\
  validateHTML (VString "<a href='x'>link</a>") =
  Ok (Validation false ["Disallowed tag: <a>"; "Disallowed tag: <a>"]).
Proof. split; vm_compute; reflexivity. Qed.

(** Where no pattern of the sanitizer matches in what it returned, a second
    call returns the same text. *)
Lemma sanitizeHTML_again_quiet (x : value) (y : string) :
  sanitizeHTML x = Ok y ->
  quiet y = true \/ markup_free y = true ->
  sanitizeHTML (VString y) = Ok y.
Proof.
  intros Hx Hy.
  assert (Hq : quiet y = true)
    by (destruct Hy as [Hy | Hy]; [exact Hy | now apply markup_free_quiet]).
  rewrite sanitizeHTML_string.
  destruct (Str.is_empty y) eqn:Ey; [now destruct y |].
  rewrite sanitize_text_quiet by assumption. f_equal.
  destruct x as [| | t | b o];
    try (rewrite sanitizeHTML_non_string in Hx by reflexivity;
         injection Hx as <-; discriminate Ey).
  rewrite sanitizeHTML_string in Hx.
  destruct (Str.is_empty t); [injection Hx as <-; discriminate Ey |].
  injection Hx as Hx. rewrite <- Hx. unfold sanitize_text. apply trim_idem.
Qed.

(** C3. Sanitizing twice is not sanitizing once.  The clean-up of empty
    pairs makes one pass from left to right: of two nested empty pairs it
    removes the inner one, and the outer one, an empty pair that is no
    paragraph and that the pattern of the clean-up matches, is left in the
    result.  The next call removes it. *)
Theorem sanitizeHTML_not_idempotent :
  sanitizeHTML (VString "<em><em></em></em>") = Ok "<em></em>" /\
  test true empty_pair_re "<em></em>" = true /\
  sanitizeHTML (VString "<em></em>") = Ok "" /\
  sanitizeHTML (VString "<ul><li></li></ul>") = Ok "<ul></ul>" /\
  sanitizeHTML (VString "<ul></ul>") = Ok "" /\
  ~ (forall x, is_text x = true -> idempotent_on x).
Proof.
  do 5 (split; [vm_compute; reflexivity |]).
  intros H. specialize (H (VString "<em><em></em></em>") eq_refl).
  vm_compute in H. discriminate H.
Qed.

(** C4. [sanitizeStyle] compares the value as written: a declaration whose
    value spells a marker in capitals is kept, where the same declaration in
    small letters is dropped. *)
Theorem sanitizeStyle_keeps_capital_marker :
  sanitizeStyle "font-size: URL(evil.js)" = "font-size: URL(evil.js)" /\
  sanitizeStyle "font-size: url(evil.js)" = "" /\
  sanitizeStyle "font-style: Expression(alert(1))" =
  "font-style: Expression(alert(1))" /\
  sanitizeHTML (VString "<p style='font-size: URL(evil.js)'>X</p>") =
  Ok ("<p style=" ++ String dquote "font-size: URL(evil.js)" ++
      String dquote ">X</p>").
Proof. repeat split; vm_compute; reflexivity. Qed.

(** C5. On a string, [null] or [undefined] none of [sanitizeHTML],
    [checkCompliance], [hasDisclaimer] and [ensureDisclaimer] raises an
    exception; [sanitizeHTML] returns the empty string for whatever is not a
    string; and the other three treat [null] and [undefined] as the empty
    text. *)
Theorem core_total (v w : value) :
  is_text v = true -> is_text w = true ->
  returns (sanitizeHTML v) /\
  returns (checkCompliance v w) /\
  returns (hasDisclaimer v) /\
  returns (ensureDisclaimer v) /\
  (forall u, is_string u = false -> sanitizeHTML u = Ok "") /\
  (truthy v = false ->
   checkCompliance v w = checkCompliance (VString "") w /\
   checkCompliance w v = checkCompliance w (VString "") /\
   hasDisclaimer v = hasDisclaimer (VString "") /\
   ensureDisclaimer v = ensureDisclaimer (VString "")).
Proof.
  intros Hv Hw. unfold returns.
  split; [|split; [|split; [|split; [|split]]]].
  - destruct v as [| | t | b o]; try discriminate Hv;
      try (exists ""; reflexivity).
    rewrite sanitizeHTML_string. eexists; reflexivity.
  - rewrite checkCompliance_text by assumption. eexists; reflexivity.
  - destruct v as [| | t | b o]; try discriminate Hv;
      try (exists false; reflexivity).
    rewrite hasDisclaimer_string. eexists; reflexivity.
  - rewrite ensureDisclaimer_text by assumption. eexists; reflexivity.
  - apply sanitizeHTML_non_string.
  - intros Ht.
    assert (E : text_of v = "").
    { destruct v as [| | t | b o]; try reflexivity.
      destruct t; [reflexivity | discriminate Ht]. }
    repeat split.
    + rewrite !checkCompliance_text by (assumption || reflexivity).
      now rewrite E.
    + rewrite !checkCompliance_text by (assumption || reflexivity).
      now rewrite E.
    + unfold hasDisclaimer. now rewrite Ht.
    + unfold ensureDisclaimer. now rewrite Ht.
Qed.

Lemma core_total_witness :
  returns (sanitizeHTML VNull) /\
  returns (checkCompliance VNull (VString "Act now!")) /\
  returns (hasDisclaimer VNull) /\
  returns (ensureDisclaimer VNull) /\
  (forall u, is_string u = false -> sanitizeHTML u = Ok "") /\
  (truthy VNull = false ->
   checkCompliance VNull (VString "Act now!") =
   checkCompliance (VString "") (VString "Act now!") /\
   checkCompliance (VString "Act now!") VNull =
   checkCompliance (VString "Act now!") (VString "") /\
   hasDisclaimer VNull = hasDisclaimer (VString "") /\
   ensureDisclaimer VNull = ensureDisclaimer (VString "")).
Proof. apply (core_total VNull (VString "Act now!")); reflexivity. Defined.

(** Outside that domain the embedding does raise: a number has no
    [replace] method. *)
Remark hasDisclaimer_of_number_throws :
  hasDisclaimer (VOther true (Some "5")) = TypeError.
Proof. reflexivity. Qed.

(* ================================================================= *)
(** ** The matcher is sound for the relation *)

Section Soundness.

Variable ic : bool.

Lemma star_loop_sound (g : bool) (r : regex)
  (body : (mstate -> option mstate) -> mstate -> option mstate) :
  (forall k st fin, body k st = Some fin ->
     exists st', steps ic r st st' /\ k st' = Some fin) ->
  forall n k st fin, star_loop g body k n st = Some fin ->
    exists st', steps ic (Star g r) st st' /\ k st' = Some fin.
Proof.
  intros Hbody; induction n as [|n IH]; intros k st fin H; simpl in H.
  - exists st. split; [constructor | exact H].
  - assert (Hmore :
      forall fin',
        body (fun st1 =>
                if String.length (rest st1) <? String.length (rest st)
                then star_loop g body k n st1 else None) st = Some fin' ->
        exists st', steps ic (Star g r) st st' /\ k st' = Some fin').
    { intros fin' Hb. apply Hbody in Hb as [st1 [Hs1 Hk1]].
      destruct (_ <? _); [|discriminate Hk1].
      apply IH in Hk1 as [st2 [Hs2 Hk2]].
      exists st2. split; [eapply StepStarMore; eauto | exact Hk2]. }
    assert (Hstop :
      forall fin', k st = Some fin' ->
        exists st', steps ic (Star g r) st st' /\ k st' = Some fin').
    { intros fin' Hk. exists st. split; [constructor | exact Hk]. }
    destruct g; unfold orelse in H.
    + destruct (body _ st) as [x|] eqn:E; [|now apply Hstop].
      injection H as ->. now apply Hmore.
    + destruct (k st) as [x|] eqn:E; [injection H as ->; now apply Hstop |].
      now apply Hmore.
Qed.

(** Whatever the matcher returns, it returns through its continuation, from
    a state the pattern leads to. *)
Lemma m_sound (r : regex) :
  forall k st fin, m ic r k st = Some fin ->
    exists st', steps ic r st st' /\ k st' = Some fin.
Proof.
  induction r as [| a | | neg items | | r1 IH1 r2 IH2 | r1 IH1 r2 IH2
                 | g r IH | n r IH | n]; intros k st fin H.
  - exists st. split; [constructor | exact H].
  - simpl in H. destruct (rest st) as [|b s'] eqn:E; [discriminate |].
    destruct (char_eq ic a b) eqn:Ec; [|discriminate].
    eexists; split; [eapply StepChr; eauto | exact H].
  - simpl in H. destruct (rest st) as [|b s'] eqn:E; [discriminate |].
    destruct (is_newline b) eqn:Ec; [discriminate |].
    eexists; split; [eapply StepDot; eauto | exact H].
  - simpl in H. destruct (rest st) as [|b s'] eqn:E; [discriminate |].
    destruct (xorb neg (in_class ic items b)) eqn:Ec; [|discriminate].
    eexists; split; [eapply StepCls; eauto | exact H].
  - simpl in H. destruct (xorb _ _) eqn:Ec; [|discriminate].
    exists st. split; [now constructor | exact H].
  - simpl in H. apply IH1 in H as [st1 [H1 H]].
    apply IH2 in H as [st2 [H2 H]].
    exists st2. split; [eapply StepSeq; eauto | exact H].
  - simpl in H. unfold orelse in H.
    destruct (m ic r1 k st) as [x|] eqn:E.
    + injection H as ->. apply IH1 in E as [st1 [H1 Hk]].
      exists st1. split; [now apply StepAltL | exact Hk].
    + apply IH2 in H as [st1 [H1 Hk]].
      exists st1. split; [now apply StepAltR | exact Hk].
  - change (star_loop g (m ic r) k (S (String.length (rest st))) st =
            Some fin) in H.
    eapply star_loop_sound; eauto.
  - simpl in H. apply IH in H as [st1 [H1 Hk]].
    eexists; split; [eapply StepGroup; eauto | exact Hk].
  - simpl in H. destruct (get_cap n (caps st)) as [txt|] eqn:E.
    + destruct (eat ic txt (prev st) (rest st)) as [[p s']|] eqn:Ee;
        [|discriminate].
      eexists; split; [eapply StepBackrefSome; eauto | exact H].
    + exists st. split; [now apply StepBackrefNone | exact H].
Qed.

Lemma match_at_sound (r : regex) (p : option ascii) (s : string)
  (fd : found) :
  match_at ic r p s = Some fd ->
  exists st', steps ic r (MState p s []) st' /\
    matched fd = Str.take (String.length s - String.length (rest st')) s /\
    groups fd = caps st'.
Proof.
  unfold match_at. intros H.
  destruct (m ic r Some (MState p s [])) as [st|] eqn:E; [|discriminate].
  injection H as <-. apply m_sound in E as [st' [Hs Hk]].
  injection Hk as ->. exists st. now repeat split.
Qed.

(** The left-most match is a match at some position. *)
Lemma search_sound (r : regex) (s : string) :
  forall p fd, search ic r p s = Some fd ->
    exists p' x s', s = x ++ s' /\ match_at ic r p' s' = Some fd.
Proof.
  induction s as [|c s IH]; intros p fd H.
  - simpl in H. destruct (match_at ic r p "") eqn:E; [|discriminate].
    injection H as ->. exists p, "", "". auto.
  - rewrite search_cons in H.
    destruct (match_at ic r p (String c s)) eqn:E.
    + injection H as ->. exists p, "", (String c s). auto.
    + apply IH in H as [p' [x [s' [-> H]]]].
      exists p', (String c x), s'. auto.
Qed.

(** What is consumed is a prefix of the text. *)
Lemma eat_suffix (txt : string) :
  forall l l' s s', eat ic txt l s = Some (l', s') ->
    exists x, s = x ++ s'.
Proof.
  induction txt as [|a txt IH]; simpl; intros l l' s s' H.
  - injection H as _ <-. now exists "".
  - destruct s as [|b s]; [discriminate |].
    destruct (char_eq ic a b); [|discriminate].
    apply IH in H as [x ->]. now exists (String b x).
Qed.

Lemma steps_suffix (r : regex) (st st' : mstate) :
  steps ic r st st' -> exists x, rest st = x ++ rest st'.
Proof.
  induction 1; simpl;
    try (now exists "");
    try (exists (String b ""); rewrite H; reflexivity);
    try assumption;
    try (now apply eat_suffix in H0).
  - destruct IHsteps1 as [x Hx], IHsteps2 as [y Hy].
    exists (x ++ y). now rewrite Hx, Hy, str_app_assoc.
  - destruct IHsteps1 as [x Hx], IHsteps2 as [y Hy].
    exists (x ++ y). now rewrite Hx, Hy, str_app_assoc.
Qed.

(** A pattern without groups leaves the captures alone. *)
Lemma steps_group_free (r : regex) (st st' : mstate) :
  steps ic r st st' -> group_free r = true -> caps st' = caps st.
Proof.
  induction 1; simpl; intros G; try reflexivity; try discriminate G.
  - apply andb_true_iff in G as [G1 G2].
    now rewrite IHsteps2, IHsteps1.
  - apply andb_true_iff in G as [G1 G2]. auto.
  - apply andb_true_iff in G as [G1 G2]. auto.
  - now rewrite IHsteps2, IHsteps1.
Qed.

Lemma take_app_exact (x y : string) :
  Str.take (String.length (x ++ y) - String.length y) (x ++ y) = x.
Proof.
  rewrite str_length_app.
  replace (String.length x + String.length y - String.length y)
    with (String.length x) by lia.
  induction x as [|c x IH]; simpl; [now destruct y | now rewrite IH].
Qed.

(** A repeated character class consumes characters of the class only. *)
Lemma steps_star_class (g neg : bool) (items : list citem)
  (st st' : mstate) :
  steps ic (Star g (Cls neg items)) st st' ->
  caps st' = caps st /\
  exists x, rest st = x ++ rest st' /\
    all_chars (fun b => xorb neg (in_class ic items b)) x = true.
Proof.
  intros H. remember (Star g (Cls neg items)) as r eqn:Er.
  induction H; try discriminate Er.
  - split; [reflexivity |]. now exists "".
  - injection Er as -> ->. specialize (IHsteps2 eq_refl).
    destruct IHsteps2 as [Hc [x [Hx Ha]]].
    inversion H; subst. simpl in *.
    split; [exact Hc |].
    exists (String b x). rewrite H3, Hx. simpl. now rewrite H6, Ha.
Qed.

Lemma steps_seq_inv (r1 r2 : regex) (st st2 : mstate) :
  steps ic (Seq r1 r2) st st2 ->
  exists st1, steps ic r1 st st1 /\ steps ic r2 st1 st2.
Proof. inversion 1; subst; eauto. Qed.

Lemma steps_group_inv (n : nat) (r : regex) (st st2 : mstate) :
  steps ic (Group n r) st st2 ->
  exists st1, steps ic r st st1 /\
    rest st2 = rest st1 /\
    caps st2 =
    (n, Str.take (String.length (rest st) - String.length (rest st1))
                 (rest st)) :: caps st1.
Proof. inversion 1; subst; eauto. Qed.

(** The text a group of one repeated class captures is made of characters
    of the class and is a piece of the text the group started on. *)
Lemma steps_group_star_class (n : nat) (g neg : bool) (items : list citem)
  (st st2 : mstate) :
  steps ic (Group n (Star g (Cls neg items))) st st2 ->
  exists x, rest st = x ++ rest st2 /\
    caps st2 = (n, x) :: caps st /\
    all_chars (fun b => xorb neg (in_class ic items b)) x = true.
Proof.
  intros H. apply steps_group_inv in H as [st1 [H [Hr Hc]]].
  apply steps_star_class in H as [Hcaps [x [Hx Ha]]].
  exists x. rewrite Hr, Hc, Hcaps, Hx, take_app_exact. auto.
Qed.

End Soundness.

(* ================================================================= *)
(** ** The style sanitizer *)

Section Style.

Lemma mem_trimStart (c : ascii) (x : string) :
  Str.mem c x = false -> Str.mem c (Str.trimStart x) = false.
Proof.
  induction x as [|a x IH]; simpl; [trivial |]. intros H.
  destruct (is_space a); [|exact H].
  apply orb_false_iff in H. apply IH; tauto.
Qed.

Lemma mem_trimEnd (c : ascii) (x : string) :
  Str.mem c x = false -> Str.mem c (Str.trimEnd x) = false.
Proof.
  induction x as [|a x IH]; [trivial |]. intros H.
  simpl in H. apply orb_false_iff in H as [Ha Hx].
  rewrite trimEnd_cons. specialize (IH Hx).
  destruct (Str.trimEnd x) as [|b t].
  - destruct (is_space a); simpl; [reflexivity | now rewrite Ha].
  - change (Str.mem c (String a (String b t)))
      with (Ascii.eqb a c || Str.mem c (String b t)).
    now rewrite Ha, IH.
Qed.

Lemma mem_trim (c : ascii) (x : string) :
  Str.mem c x = false -> Str.mem c (Str.trim x) = false.
Proof. intros H. now apply mem_trimEnd, mem_trimStart. Qed.

Lemma mem_take (c : ascii) (n : nat) (x : string) :
  Str.mem c x = false -> Str.mem c (Str.take n x) = false.
Proof.
  revert x; induction n as [|n IH]; intros [|a x]; simpl; auto.
  intros H. apply orb_false_iff in H as [Ha Hx]. now rewrite Ha, IH.
Qed.

Lemma mem_split (sep c : ascii) (x : string) :
  Str.mem c x = false ->
  Forall (fun part => Str.mem c part = false) (Str.split sep x).
Proof.
  induction x as [|a x IH]; simpl; intros H.
  - now constructor.
  - apply orb_false_iff in H as [Ha Hx]. specialize (IH Hx).
    destruct (Ascii.eqb a sep).
    + now constructor.
    + destruct (Str.split sep x) as [|part parts].
      * constructor; [simpl; now rewrite Ha | constructor].
      * inversion IH; subst. constructor; [simpl; now rewrite Ha | trivial].
Qed.

(** No part of a split holds the separator. *)
Lemma split_no_sep (sep : ascii) (x : string) :
  Forall (fun part => Str.mem sep part = false) (Str.split sep x).
Proof.
  induction x as [|a x IH]; simpl.
  - now constructor.
  - destruct (Ascii.eqb a sep) eqn:E.
    + now constructor.
    + destruct (Str.split sep x) as [|part parts].
      * constructor; [simpl; now rewrite E | constructor].
      * inversion IH; subst. constructor; [simpl; now rewrite E | trivial].
Qed.

(** One turn of the loop appends the declaration of the part, if any. *)
Lemma style_step_parse (acc : list string) (part : string) :
  style_step acc part =
  (acc ++ match parse_part part with
          | Some d => [declaration d]
          | None => []
          end)%list.
Proof.
  unfold style_step, parse_part, safe_value, declaration.
  destruct (Str.is_empty (Str.trim part)); [now rewrite List.app_nil_r |].
  destruct (Str.indexOf ":" (Str.trim part)) as [i|];
    [|now rewrite List.app_nil_r].
  destruct (has ALLOWED_STYLE_PROPERTIES _); cbn [andb];
    [|now rewrite List.app_nil_r].
  destruct (negb _ && negb _ && negb _); [reflexivity |].
  now rewrite List.app_nil_r.
Qed.

Lemma style_loop_parse (parts : list string) :
  forall acc,
    fold_left style_step parts acc =
    (acc ++ List.map declaration (parse_parts parts))%list.
Proof.
  induction parts as [|part parts IH]; intros acc; simpl.
  - now rewrite List.app_nil_r.
  - rewrite IH, style_step_parse.
    destruct (parse_part part); simpl;
      [now rewrite <- List.app_assoc | now rewrite List.app_nil_r].
Qed.

Lemma has_in (set : list string) (x : string) :
  has set x = true -> In x set.
Proof.
  unfold has. rewrite existsb_exists. intros [y [Hy E]].
  apply String.eqb_eq in E. now subst.
Qed.

Lemma parse_part_good (part : string) (d : string * string) :
  Str.mem ";" part = false -> parse_part part = Some d ->
  good_declaration d.
Proof.
  unfold parse_part. intros Hsemi H.
  destruct (Str.is_empty (Str.trim part)); [discriminate |].
  destruct (Str.indexOf ":" (Str.trim part)) as [i|]; [|discriminate].
  destruct (has ALLOWED_STYLE_PROPERTIES _) eqn:Ep; [|discriminate].
  destruct (safe_value _) eqn:Ev; [|discriminate].
  injection H as <-. unfold good_declaration; cbn [fst snd].
  repeat split.
  - now apply has_in.
  - exact Ev.
  - apply trim_idem.
  - apply mem_trim. rewrite str_mem_of_drop; [reflexivity |].
    now apply mem_trim.
Qed.

Lemma parse_parts_good (parts : list string) :
  Forall (fun part => Str.mem ";" part = false) parts ->
  Forall good_declaration (parse_parts parts).
Proof.
  induction 1 as [|part parts Hp Hparts IH]; simpl; [constructor |].
  destruct (parse_part part) as [d|] eqn:E; [|exact IH].
  constructor; [eapply parse_part_good; eauto | exact IH].
Qed.

(** The closed form of [sanitizeStyle]. *)
Lemma sanitizeStyle_parse (x : string) :
  sanitizeStyle x =
  Str.join "; " (List.map declaration (parse_parts (Str.split ";" x))).
Proof.
  unfold sanitizeStyle. rewrite style_loop_parse. cbn [List.app].
  destruct x; reflexivity.
Qed.

Lemma trimmed_ends (v : string) :
  Str.trim v = v -> Str.trimStart v = v /\ Str.trimEnd v = v.
Proof.
  intros H. split.
  - apply trimStart_of_clean. rewrite <- H.
    apply trimEnd_clean, trimStart_clean.
  - rewrite <- H at 1. unfold Str.trim. rewrite trimEnd_idem. exact H.
Qed.

(** A prefix without white space is kept by the trimming of the end. *)
Lemma trimEnd_solid (a x : string) :
  all_chars (fun c => negb (is_space c)) a = true ->
  Str.trimEnd (a ++ x) = a ++ Str.trimEnd x.
Proof.
  induction a as [|c a IH]; simpl; intros H; [reflexivity |].
  apply andb_true_iff in H as [Hc Ha]. apply negb_true_iff in Hc.
  rewrite (IH Ha), Hc. now destruct (a ++ Str.trimEnd x).
Qed.

Lemma trimEnd_space (v : string) :
  Str.trimEnd v = v -> Str.trimEnd (String " " v) = padded v.
Proof.
  intros H. rewrite trimEnd_cons, H. now destruct v.
Qed.

Lemma trim_padded (v : string) : Str.trim v = v -> Str.trim (padded v) = v.
Proof.
  intros H. destruct v as [|c v]; [reflexivity |].
  unfold padded, Str.trim. simpl Str.trimStart. exact H.
Qed.

(** A declaration that [sanitizeStyle] wrote is read back as it is, with or
    without the space that follows a semicolon. *)
Lemma parse_part_declaration (d : string * string) :
  good_declaration d ->
  parse_part (declaration d) = Some d /\
  parse_part (String " " (declaration d)) = Some d.
Proof.
  destruct d as [p v]. unfold good_declaration, declaration; cbn [fst snd].
  intros [Hp [Hv [Ht _]]].
  destruct (trimmed_ends v Ht) as [_ He].
  assert (Hpart :
    forall w,
      (w = "font-size" \/ w = "font-style") ->
      forall lead,
        (lead = "" \/ lead = " ") ->
        parse_part (lead ++ w ++ ": " ++ v) = Some (w, v)).
  { intros w Hw lead Hlead. unfold parse_part.
    assert (E : Str.trim (lead ++ w ++ ": " ++ v) = (w ++ ":") ++ padded v).
    { unfold Str.trim.
      replace (Str.trimStart (lead ++ w ++ ": " ++ v))
        with ((w ++ ":") ++ String " " v)
        by (destruct Hlead as [-> | ->], Hw as [-> | ->]; reflexivity).
      rewrite trimEnd_solid by (destruct Hw as [-> | ->]; reflexivity).
      now rewrite trimEnd_space. }
    rewrite E.
    destruct Hw as [-> | ->]; cbn -[Str.trim safe_value padded];
      rewrite (trim_padded v Ht), Hv; reflexivity. }
  simpl in Hp. destruct Hp as [<- | [<- | []]].
  - split.
    + apply (Hpart "font-size" (or_introl eq_refl) "" (or_introl eq_refl)).
    + apply (Hpart "font-size" (or_introl eq_refl) " " (or_intror eq_refl)).
  - split.
    + apply (Hpart "font-style" (or_intror eq_refl) "" (or_introl eq_refl)).
    + apply (Hpart "font-style" (or_intror eq_refl) " " (or_intror eq_refl)).
Qed.

Lemma split_plain (sep : ascii) (x : string) :
  Str.mem sep x = false -> Str.split sep x = [x].
Proof.
  induction x as [|a x IH]; simpl; [reflexivity |]. intros H.
  apply orb_false_iff in H as [Ha Hx]. now rewrite Ha, (IH Hx).
Qed.

Lemma split_at_sep (sep : ascii) (x y : string) :
  Str.mem sep x = false ->
  Str.split sep (x ++ String sep y) = x :: Str.split sep y.
Proof.
  induction x as [|a x IH]; simpl; intros H.
  - now rewrite Ascii.eqb_refl.
  - apply orb_false_iff in H as [Ha Hx]. now rewrite Ha, (IH Hx).
Qed.

Lemma split_cons_other (sep a : ascii) (y : string) :
  Ascii.eqb a sep = false ->
  Str.split sep (String a y) =
  match Str.split sep y with
  | part :: parts => String a part :: parts
  | [] => [String a ""]
  end.
Proof. intros H. simpl. now rewrite H. Qed.

(** Splitting what [join] made gives the pieces back, each but the first
    with the space of the separator in front. *)
Lemma split_join (ds : list string) :
  Forall (fun x => Str.mem ";" x = false) ds ->
  forall x, Str.mem ";" x = false ->
    Str.split ";" (Str.join "; " (x :: ds)) = x :: List.map (String " ") ds.
Proof.
  induction 1 as [|y ds Hy Hds IH]; intros x Hx.
  - simpl. now apply split_plain.
  - change (Str.join "; " (x :: y :: ds))
      with (x ++ String ";" (String " " (Str.join "; " (y :: ds)))).
    rewrite split_at_sep by assumption.
    rewrite split_cons_other by reflexivity.
    now rewrite (IH y Hy).
Qed.

Lemma declaration_no_semicolon (d : string * string) :
  good_declaration d -> Str.mem ";" (declaration d) = false.
Proof.
  destruct d as [p v]. unfold good_declaration, declaration; cbn [fst snd].
  intros [Hp [_ [_ Hs]]]. rewrite !str_mem_app, Hs.
  simpl in Hp. destruct Hp as [<- | [<- | []]]; reflexivity.
Qed.

Lemma parse_parts_spaced (ds : list (string * string)) :
  Forall good_declaration ds ->
  parse_parts (List.map (String " ") (List.map declaration ds)) = ds.
Proof.
  induction 1 as [|d ds Hd Hds IH]; simpl; [reflexivity |].
  destruct (parse_part_declaration d Hd) as [_ ->]. now rewrite IH.
Qed.

(** What [sanitizeStyle] wrote it returns unchanged. *)
Lemma sanitizeStyle_of_good (ds : list (string * string)) :
  Forall good_declaration ds ->
  sanitizeStyle (Str.join "; " (List.map declaration ds)) =
  Str.join "; " (List.map declaration ds).
Proof.
  intros H. rewrite sanitizeStyle_parse.
  destruct ds as [|d ds]; [reflexivity |].
  inversion H as [|? ? Hd Hds]; subst.
  cbn [List.map]. rewrite split_join.
  - cbn [parse_parts]. destruct (parse_part_declaration d Hd) as [-> _].
    now rewrite parse_parts_spaced.
  - clear -Hds. induction Hds; simpl; constructor; auto.
    now apply declaration_no_semicolon.
  - now apply declaration_no_semicolon.
Qed.

Lemma starts_with_before (c : ascii) (sub a b : string) :
  Str.mem c sub = false ->
  Str.starts_with sub (a ++ String c b) = Str.starts_with sub a.
Proof.
  revert a; induction sub as [|x sub IH]; intros a H; [reflexivity |].
  simpl in H. apply orb_false_iff in H as [Hx Hsub].
  destruct a as [|y a]; simpl.
  - now rewrite Hx.
  - now rewrite IH.
Qed.

(** A marker does not straddle a character it does not hold. *)
Lemma includes_sep (c : ascii) (mk a b : string) :
  Str.mem c mk = false -> Str.is_empty mk = false ->
  Str.includes (a ++ String c b) mk = Str.includes a mk || Str.includes b mk.
Proof.
  intros Hc Hne. induction a as [|y a IH].
  - destruct mk as [|x mk]; [discriminate Hne |].
    simpl in Hc. apply orb_false_iff in Hc as [Hx _].
    simpl. now rewrite Hx.
  - change (Str.includes (String y a ++ String c b) mk)
      with (Str.starts_with mk (String y a ++ String c b) ||
            Str.includes (a ++ String c b) mk).
    change (Str.includes (String y a) mk)
      with (Str.starts_with mk (String y a) || Str.includes a mk).
    rewrite starts_with_before by assumption.
    now rewrite IH, orb_assoc.
Qed.

Lemma includes_after (c : ascii) (mk b : string) :
  Str.mem c mk = false -> Str.is_empty mk = false ->
  Str.includes (String c b) mk = Str.includes b mk.
Proof.
  intros Hc Hne.
  change (String c b) with ("" ++ String c b).
  rewrite includes_sep by assumption. now destruct mk.
Qed.

(** A marker that no property name holds and no kept value holds is not in
    the joined declarations. *)
Lemma join_lacks_marker (mk : string) (ds : list (string * string)) :
  Str.is_empty mk = false ->
  Str.mem ":" mk = false -> Str.mem " " mk = false ->
  Str.mem ";" mk = false ->
  (forall p, In p ALLOWED_STYLE_PROPERTIES -> Str.includes p mk = false) ->
  Forall (fun d => In (fst d) ALLOWED_STYLE_PROPERTIES /\
                   Str.includes (snd d) mk = false) ds ->
  Str.includes (Str.join "; " (List.map declaration ds)) mk = false.
Proof.
  intros Hne Hcolon Hspace Hsemi Hprops.
  assert (Hd : forall d,
             In (fst d) ALLOWED_STYLE_PROPERTIES /\
             Str.includes (snd d) mk = false ->
             Str.includes (declaration d) mk = false).
  { intros [p v] [Hp Hv]. unfold declaration; cbn [fst snd] in *.
    change (p ++ ": " ++ v) with (p ++ String ":" (String " " v)).
    rewrite includes_sep, includes_after, Hv, (Hprops p Hp) by assumption.
    reflexivity. }
  induction 1 as [|d ds Hgood Hds IH].
  - now destruct mk.
  - destruct ds as [|d' ds].
    + simpl. now apply Hd.
    + change (Str.join "; " (List.map declaration (d :: d' :: ds)))
        with (declaration d ++
              String ";" (String " "
                (Str.join "; " (List.map declaration (d' :: ds))))).
      rewrite includes_sep, includes_after, IH, (Hd d Hgood) by assumption.
      reflexivity.
Qed.

Lemma safe_value_spec (v : string) :
  safe_value v = true ->
  Str.includes v "expression" = false /\
  Str.includes v "javascript" = false /\
  Str.includes v "url(" = false.
Proof.
  unfold safe_value. intros H.
  apply andb_true_iff in H as [H H3]. apply andb_true_iff in H as [H1 H2].
  now rewrite !negb_true_iff in *.
Qed.

(** A character that the input lacks, and that the property names and the
    separators lack, is not in the result. *)
Lemma parse_parts_lack (c : ascii) (parts : list string) :
  Forall (fun part => Str.mem c part = false) parts ->
  Forall (fun d => Str.mem c (snd d) = false) (parse_parts parts).
Proof.
  induction 1 as [|part parts Hp Hparts IH]; simpl; [constructor |].
  destruct (parse_part part) as [d|] eqn:E; [|exact IH].
  constructor; [|exact IH].
  unfold parse_part in E.
  destruct (Str.is_empty (Str.trim part)); [discriminate |].
  destruct (Str.indexOf ":" (Str.trim part)) as [i|]; [|discriminate].
  destruct (_ && _); [|discriminate].
  injection E as <-. cbn [snd].
  apply mem_trim. rewrite str_mem_of_drop; [reflexivity |].
  now apply mem_trim.
Qed.

Lemma join_lacks_char (c : ascii) (ds : list (string * string)) :
  Str.mem c "; :" = false ->
  (forall p, In p ALLOWED_STYLE_PROPERTIES -> Str.mem c p = false) ->
  Forall (fun d => In (fst d) ALLOWED_STYLE_PROPERTIES) ds ->
  Forall (fun d => Str.mem c (snd d) = false) ds ->
  Str.mem c (Str.join "; " (List.map declaration ds)) = false.
Proof.
  intros Hsep Hprops Hp Hv.
  induction ds as [|d ds IH]; [reflexivity |].
  inversion Hp as [|? ? Hpd Hpds]; inversion Hv as [|? ? Hvd Hvds]; subst.
  assert (Hd : Str.mem c (declaration d) = false).
  { unfold declaration. rewrite !str_mem_app, Hvd, (Hprops _ Hpd).
    simpl in *. apply orb_false_iff in Hsep as [H1 Hsep].
    apply orb_false_iff in Hsep as [H2 Hsep].
    apply orb_false_iff in Hsep as [H3 _]. now rewrite H3, H2. }
  destruct ds as [|d' ds]; [exact Hd |].
  change (Str.join "; " (List.map declaration (d :: d' :: ds)))
    with (declaration d ++ "; " ++
          Str.join "; " (List.map declaration (d' :: ds))).
  rewrite !str_mem_app, Hd, (IH Hpds Hvds).
  simpl in *. apply orb_false_iff in Hsep as [H1 Hsep].
  apply orb_false_iff in Hsep as [H2 _]. now rewrite H1, H2.
Qed.

Lemma sanitizeStyle_lacks (c : ascii) (x : string) :
  Str.mem c "; :font-sizestyle" = false ->
  Str.mem c x = false -> Str.mem c (sanitizeStyle x) = false.
Proof.
  intros Hc Hx. rewrite sanitizeStyle_parse.
  pose proof (parse_parts_good _ (split_no_sep ";" x)) as Hgood.
  apply join_lacks_char.
  - simpl in *. repeat (apply orb_false_iff in Hc as [? Hc]).
    repeat (apply orb_false_iff; split); assumption.
  - intros p Hp. simpl in Hp, Hc |- *.
    repeat (apply orb_false_iff in Hc as [? Hc]).
    destruct Hp as [<- | [<- | []]]; simpl;
      repeat (apply orb_false_iff; split); assumption.
  - eapply Forall_impl; [|exact Hgood]. now intros d [Hp _].
  - now apply parse_parts_lack, mem_split.
Qed.

Lemma sanitizeStyle_idempotent_on (x : string) :
  sanitizeStyle (sanitizeStyle x) = sanitizeStyle x.
Proof.
  rewrite (sanitizeStyle_parse x).
  apply sanitizeStyle_of_good, parse_parts_good, split_no_sep.
Qed.

End Style.

(** X1. Whatever [sanitizeStyle] is given, its result is a list of
    declarations joined by a semicolon and a space, each of an allowed
    property, with a trimmed value that passed the value check. *)
Theorem sanitizeStyle_declarations (x : string) :
  exists ds,
    sanitizeStyle x = Str.join "; " (List.map declaration ds) /\
    Forall good_declaration ds.
Proof.
  exists (parse_parts (Str.split ";" x)). split.
  - apply sanitizeStyle_parse.
  - apply parse_parts_good, split_no_sep.
Qed.

(** X2. The result of [sanitizeStyle] never holds one of the three markers
    as the value check spells them. *)
Theorem sanitizeStyle_no_marker (x : string) :
  Str.includes (sanitizeStyle x) "expression" = false /\
  Str.includes (sanitizeStyle x) "javascript" = false /\
  Str.includes (sanitizeStyle x) "url(" = false.
Proof.
  rewrite sanitizeStyle_parse.
  pose proof (parse_parts_good _ (split_no_sep ";" x)) as Hgood.
  repeat split; apply join_lacks_marker; try reflexivity;
    try (intros p Hp; simpl in Hp;
         destruct Hp as [<- | [<- | []]]; reflexivity);
    (eapply Forall_impl; [|exact Hgood]);
    intros d [Hp [Hv _]]; apply safe_value_spec in Hv; tauto.
Qed.

(** X3. [sanitizeStyle] is idempotent. *)
Theorem sanitizeStyle_idempotent (x : string) :
  sanitizeStyle (sanitizeStyle x) = sanitizeStyle x.
Proof. exact (sanitizeStyle_idempotent_on x). Qed.

(* ================================================================= *)
(** ** The tag pass *)

Section Tags.

Lemma not_in_class_char (ic : bool) (items : list citem) (c b : ascii) :
  In (CChar c) items -> in_class ic items b = false -> Ascii.eqb b c = false.
Proof.
  intros Hin H. unfold in_class in H.
  destruct (Ascii.eqb b c) eqn:E; [|reflexivity].
  apply Ascii.eqb_eq in E; subst b.
  assert (Ht : existsb
                 (fun it =>
                    in_item it c ||
                    ic && (in_item it (toUpper c) || in_item it (toLower c)))
                 items = true).
  { apply existsb_exists. exists (CChar c). split; [exact Hin |].
    simpl. now rewrite Ascii.eqb_refl. }
  congruence.
Qed.

Lemma all_outside_class (ic : bool) (items : list citem) (c : ascii)
  (x : string) :
  In (CChar c) items ->
  all_chars (fun b => xorb true (in_class ic items b)) x = true ->
  Str.mem c x = false.
Proof.
  intros Hin. induction x as [|b x IH]; simpl; [reflexivity |].
  intros H. apply andb_true_iff in H as [Hb Hx].
  rewrite (IH Hx), orb_false_r.
  apply (not_in_class_char ic items c b Hin).
  now destruct (in_class ic items b).
Qed.

(** A pattern without groups moves on in the text and keeps the captures. *)
Lemma steps_plain (ic : bool) (r : regex) (st st' : mstate) :
  group_free r = true -> steps ic r st st' ->
  caps st' = caps st /\ exists x, rest st = x ++ rest st'.
Proof.
  intros G H. split; [now apply (steps_group_free ic r) |].
  now apply (steps_suffix ic r).
Qed.

(** The value the pattern of [sanitizeAttributes] captures stands between
    quotes in the attribute text and holds no quote. *)
Lemma style_attr_capture (a : string) (fd : found) :
  exec true style_attr_re a = Some fd ->
  exists before x after,
    a = before ++ x ++ after /\
    groups fd = [(1, x)] /\
    Str.mem dquote x = false /\ Str.mem "'" x = false.
Proof.
  unfold exec. intros H.
  apply search_sound in H as [p [x0 [s' [-> H]]]].
  apply match_at_sound in H as [st' [H [_ Hg]]].
  unfold style_attr_re in H. cbn [seqs] in H.
  apply steps_seq_inv in H as [s1 [H1 H]].
  apply steps_seq_inv in H as [s2 [H2 H]].
  apply steps_seq_inv in H as [s3 [H3 H]].
  apply steps_seq_inv in H as [s4 [H4 H]].
  apply steps_seq_inv in H as [s5 [H5 H]].
  apply steps_seq_inv in H as [s6 [H6 H7]].
  apply steps_plain in H1 as [C1 [y1 R1]]; [|reflexivity].
  apply steps_plain in H2 as [C2 [y2 R2]]; [|reflexivity].
  apply steps_plain in H3 as [C3 [y3 R3]]; [|reflexivity].
  apply steps_plain in H4 as [C4 [y4 R4]]; [|reflexivity].
  apply steps_plain in H5 as [C5 [y5 R5]]; [|reflexivity].
  apply steps_plain in H7 as [C7 [y7 R7]]; [|reflexivity].
  apply steps_group_star_class in H6 as [x [R6 [C6 Ha]]].
  simpl in R1, C1.
  exists (x0 ++ y1 ++ y2 ++ y3 ++ y4 ++ y5), x, (y7 ++ rest st').
  split; [|split; [|split]].
  - rewrite R1, R2, R3, R4, R5, R6, R7. now rewrite !str_app_assoc.
  - rewrite Hg, C7, C6, C5, C4, C3, C2, C1. reflexivity.
  - apply (all_outside_class true _ dquote x) in Ha; [exact Ha |].
    simpl; tauto.
  - apply (all_outside_class true _ "'"%char x) in Ha; [exact Ha |].
    simpl; tauto.
Qed.

(** The attribute text the tag pattern captures holds no closing angle
    bracket. *)
Lemma tag_capture (p : option ascii) (s : string) (fd : found) :
  match_at true tag_re p s = Some fd ->
  Str.mem ">" (group 2 fd) = false.
Proof.
  intros H. apply match_at_sound in H as [st' [H [_ Hg]]].
  unfold tag_re in H. cbn [seqs] in H.
  apply steps_seq_inv in H as [s1 [H1 H]].
  apply steps_seq_inv in H as [s2 [H2 H]].
  apply steps_seq_inv in H as [s3 [H3 H]].
  apply steps_seq_inv in H as [s4 [H4 H]].
  apply steps_seq_inv in H as [s5 [H5 H6]].
  apply steps_plain in H6 as [C6 _]; [|reflexivity].
  apply steps_group_star_class in H5 as [x [_ [C5 Ha]]].
  unfold group. rewrite Hg, C6, C5. cbn [get_cap Nat.eqb].
  apply (all_outside_class true _ ">"%char x) in Ha; [exact Ha |].
  simpl; tauto.
Qed.

Lemma sanitizeAttributes_cases (a : string) :
  sanitizeAttributes a = "" \/
  exists v,
    sanitizeAttributes a = style_attribute v /\
    Str.is_empty v = false /\ sanitizeStyle v = v /\
    Str.mem dquote v = false /\
    (Str.mem ">" a = false -> Str.mem ">" v = false).
Proof.
  unfold sanitizeAttributes.
  destruct (Str.is_empty a); [now left |].
  destruct (exec true style_attr_re a) as [fd|] eqn:E; [|now left].
  apply style_attr_capture in E as [before [x [after [Ha [Hg [Hq _]]]]]].
  assert (Hx : group 1 fd = x) by (unfold group; now rewrite Hg).
  rewrite Hx.
  destruct (Str.is_empty (sanitizeStyle x)) eqn:Ee; [now left |].
  right. exists (sanitizeStyle x). cbn [negb].
  repeat split; try assumption.
  - apply sanitizeStyle_idempotent_on.
  - now apply sanitizeStyle_lacks.
  - intros Hgt. apply sanitizeStyle_lacks; [reflexivity |].
    rewrite Ha, !str_mem_app in Hgt.
    apply orb_false_iff in Hgt as [_ Hgt].
    now apply orb_false_iff in Hgt as [Hgt _].
Qed.

(** What the callback of the tag pass returns for a match of the tag
    pattern. *)
Lemma rewrite_tag_canonical (p : option ascii) (s : string) (fd : found) :
  match_at true tag_re p s = Some fd -> canonical_tag (rewrite_tag fd).
Proof.
  intros H. apply tag_capture in H. unfold rewrite_tag, canonical_tag.
  destruct (has ALLOWED_TAGS (Str.toLowerCase (group 1 fd))) eqn:Et;
    cbn [negb]; [|now left].
  right. exists (Str.toLowerCase (group 1 fd)).
  split; [now apply has_in |].
  destruct (Str.starts_with "</" (matched fd)); [now left |].
  destruct (String.eqb_spec (Str.toLowerCase (group 1 fd)) "br") as [-> | _];
    [right; now left |].
  destruct (sanitizeAttributes_cases (group 2 fd))
    as [-> | [v [-> [Hne [Hfix [Hq Hgt]]]]]].
  - right; left. reflexivity.
  - right; right. exists v. split; [|reflexivity].
    unfold sealed_style. auto.
Qed.

Lemma match_at_chr_prev (ic : bool) (a : ascii) (r : regex)
  (p q : option ascii) (s : string) :
  match_at ic (Seq (Chr a) r) p s = match_at ic (Seq (Chr a) r) q s.
Proof. unfold match_at. cbn [m prev rest caps]. reflexivity. Qed.

Lemma tag_re_prev (p q : option ascii) (s : string) :
  match_at true tag_re p s = match_at true tag_re q s.
Proof. exact (match_at_chr_prev true "<" _ p q s). Qed.

Lemma all_chars_lacks (f : ascii -> bool) (c : ascii) (x : string) :
  all_chars f x = true -> f c = false -> Str.mem c x = false.
Proof.
  intros H Hc. induction x as [|b x IH]; [reflexivity |].
  cbn [all_chars Str.mem] in *. apply andb_true_iff in H as [Hb Hx].
  rewrite (IH Hx), orb_false_r.
  destruct (Ascii.eqb b c) eqn:E; [|reflexivity].
  apply Ascii.eqb_eq in E; subst b. congruence.
Qed.

Lemma steps_chr_inv (ic : bool) (c : ascii) (st st' : mstate) :
  caseless c = true -> steps ic (Chr c) st st' ->
  rest st = String c (rest st').
Proof.
  intros Hc H. inversion H; subst. cbn [rest].
  match goal with
  | He : char_eq _ _ ?b = true |- _ =>
      apply (char_eq_caseless ic c b Hc) in He; subst b
  end.
  assumption.
Qed.

Lemma steps_cls_inv (ic neg : bool) (items : list citem) (st st' : mstate) :
  steps ic (Cls neg items) st st' ->
  exists b, rest st = String b (rest st') /\
            xorb neg (in_class ic items b) = true.
Proof. intros H. inversion H; subst. cbn [rest]. eauto. Qed.

Lemma steps_opt_chr_inv (ic : bool) (c : ascii) (st st' : mstate) :
  caseless c = true -> steps ic (Opt (Chr c)) st st' ->
  rest st = rest st' \/ rest st = String c (rest st').
Proof.
  intros Hc H. unfold Opt in H. inversion H; subst.
  - right. now apply (steps_chr_inv ic c).
  - left. match goal with HR : steps _ Eps _ _ |- _ => inversion HR end.
    reflexivity.
Qed.

(** What the tag pattern matches is a tag marker at the front of the
    text. *)
Lemma tag_match_marker (p : option ascii) (s : string) (fd : found) :
  match_at true tag_re p s = Some fd ->
  tag_marker (matched fd) /\ exists s', s = matched fd ++ s'.
Proof.
  intros H. apply match_at_sound in H as [st' [H [Hm _]]].
  unfold tag_re in H. cbn [seqs] in H.
  apply steps_seq_inv in H as [s1 [H1 H]].
  apply steps_seq_inv in H as [s2 [H2 H]].
  apply steps_seq_inv in H as [s3 [H3 H]].
  apply steps_seq_inv in H as [s4 [H4 H]].
  apply steps_seq_inv in H as [s5 [H5 H6]].
  apply steps_chr_inv in H1; [|reflexivity]. cbn [rest] in H1.
  apply steps_opt_chr_inv in H2; [|reflexivity].
  apply steps_group_inv in H3 as [s3' [H3 [R3 _]]].
  apply steps_seq_inv in H3 as [s3a [H3a H3b]].
  apply steps_cls_inv in H3a as [b [R3a C3a]].
  apply steps_star_class in H3b as [_ [x3 [R3b C3b]]].
  unfold space_char in H4.
  apply steps_star_class in H4 as [_ [x4 [R4 C4]]].
  apply steps_group_star_class in H5 as [x5 [R5 [_ C5]]].
  apply steps_chr_inv in H6; [|reflexivity].
  apply (all_chars_lacks _ ">"%char) in C3b; [|reflexivity].
  apply (all_chars_lacks _ ">"%char) in C4; [|reflexivity].
  apply (all_chars_lacks _ ">"%char) in C5; [|reflexivity].
  assert (Hb : Ascii.eqb b ">" = false).
  { destruct (Ascii.eqb b ">") eqn:E; [|reflexivity].
    apply Ascii.eqb_eq in E; subst b. discriminate C3a. }
  assert (Hs : exists y2, Str.mem ">" y2 = false /\
                 s = ("<" ++ (y2 ++ String b x3 ++ x4 ++ x5) ++ ">")
                     ++ rest st').
  { destruct H2 as [H2 | H2]; [exists "" | exists "/"];
      (split; [reflexivity |]);
      rewrite H1, H2, R3a, R3b, <- R3, R4, R5, H6;
      cbn [append]; now rewrite !str_app_assoc. }
  destruct Hs as [y2 [Hy2 Hs]].
  assert (Em : matched fd = "<" ++ (y2 ++ String b x3 ++ x4 ++ x5) ++ ">")
    by (rewrite Hm, Hs; apply take_app_exact).
  split.
  - exists (y2 ++ String b x3 ++ x4 ++ x5). split; [exact Em |].
    rewrite !str_mem_app. cbn [Str.mem]. now rewrite Hy2, Hb, C3b, C4, C5.
  - exists (rest st'). now rewrite Em.
Qed.

Lemma tag_match_none_nil (p : option ascii) :
  match_at true tag_re p "" = None.
Proof. reflexivity. Qed.

(** After a match the scan goes on behind it. *)
Lemma replace_go_skip (ic : bool) (r : regex) (f : found -> string)
  (n : nat) :
  forall s p, n <= String.length s ->
    exists q, replace_go ic r f p n s = replace_go ic r f q 0 (Str.drop n s).
Proof.
  induction n as [|n IH]; intros s p H.
  - exists p. now destruct s.
  - destruct s as [|c s]; simpl in H; [lia |].
    rewrite replace_go_skip_cons. cbn [Str.drop]. apply IH. lia.
Qed.

Lemma second_go_prev (f : found -> string) (p q : option ascii) (s : string) :
  replace_go true tag_re f p 0 s = replace_go true tag_re f q 0 s.
Proof.
  destruct s as [|c s].
  - now rewrite !replace_go_nil, (tag_re_prev p q).
  - now rewrite !replace_go_cons, (tag_re_prev p q).
Qed.

Lemma tag_pass_source (s : string) (pieces : list (string * string)) :
  tag_pass s pieces -> s = concat (List.map fst pieces).
Proof.
  induction 1 as [| c s ps _ _ IH | fd s ps _ _ IH]; cbn [List.map concat fst].
  - reflexivity.
  - now rewrite <- IH.
  - now rewrite <- IH.
Qed.

(** The tag pass reads its text as [tag_pass] says, and every tag it writes
    is canonical. *)
Lemma second_go_pieces (n : nat) :
  forall s p, String.length s <= n ->
    exists pieces,
      tag_pass s pieces /\
      replace_go true tag_re rewrite_tag p 0 s =
      concat (List.map snd pieces) /\
      Forall (fun piece =>
                copied piece \/
                (tag_marker (fst piece) /\ canonical_tag (snd piece)))
             pieces.
Proof.
  induction n as [|n IH]; intros s p Hn.
  - destruct s; simpl in Hn; [|lia].
    exists []. repeat split; constructor.
  - destruct s as [|c s].
    { exists []. repeat split; constructor. }
    simpl in Hn. rewrite replace_go_cons.
    destruct (match_at true tag_re p (String c s)) as [fd|] eqn:E.
    + pose proof (rewrite_tag_canonical _ _ _ E) as Hcan.
      destruct (tag_match_marker _ _ _ E) as [Hmark [s' Hs]].
      destruct Hmark as [body [Hbody Hgt]].
      assert (Hlen : String.length (matched fd) =
                     S (String.length (body ++ ">")))
        by now rewrite Hbody.
      assert (Hs' : s = (body ++ ">") ++ s').
      { rewrite Hbody in Hs. cbn [append] in Hs.
        apply (f_equal (Str.drop 1)) in Hs. cbn [Str.drop] in Hs.
        destruct s; exact Hs. }
      rewrite Hlen.
      destruct (replace_go_skip true tag_re rewrite_tag
                  (String.length (body ++ ">")) s (Some c)) as [q Hq].
      { rewrite Hs', !str_length_app. lia. }
      rewrite Hq.
      replace (Str.drop (String.length (body ++ ">")) s) with s'
        by (rewrite Hs'; symmetry; apply str_drop_all_app).
      destruct (IH s' q) as [ps [Hps [Hout Hall]]].
      { rewrite Hs', !str_length_app in Hn. lia. }
      exists ((matched fd, rewrite_tag fd) :: ps). split; [|split].
      * rewrite Hs. apply tag_pass_tag; [|exact Hps].
        intros p'. now rewrite <- Hs, (tag_re_prev p' p).
      * cbn [List.map concat snd]. now rewrite Hout.
      * constructor; [|exact Hall]. right. cbn [fst snd].
        split; [now exists body | exact Hcan].
    + destruct (IH s (Some c)) as [ps [Hps [Hout Hall]]]; [lia |].
      exists ((String c "", String c "") :: ps). split; [|split].
      * apply tag_pass_copy; [|exact Hps].
        intros p'. now rewrite (tag_re_prev p' p).
      * cbn [List.map concat snd append]. now rewrite Hout.
      * constructor; [|exact Hall]. left. now exists c.
Qed.

End Tags.

(** X4. [sanitizeAttributes] returns nothing or one [style] attribute in
    double quotes.  Its value is not empty, is a result of [sanitizeStyle]
    that [sanitizeStyle] returns unchanged, holds no double quote, and holds
    no closing angle bracket when the attribute text holds none. *)
Theorem sanitizeAttributes_shape (a : string) :
  sanitizeAttributes a = "" \/
  exists v,
    sanitizeAttributes a = style_attribute v /\
    Str.is_empty v = false /\ sanitizeStyle v = v /\
    Str.mem dquote v = false /\
    (Str.mem ">" a = false -> Str.mem ">" v = false).
Proof. exact (sanitizeAttributes_cases a). Qed.

(** X5. The tag pass reads its input from left to right: a character at
    which the tag pattern does not match is copied, and a text the pattern
    matches, which is a tag marker, is replaced by what the callback returns
    for it.  So the input is the pieces read, the result is the pieces
    written, and every piece written for a tag marker is nothing, or a
    closing or an opening tag of an allowed name with, at most, one [style]
    attribute whose value [sanitizeStyle] returns unchanged and which holds
    neither a double quote nor a closing angle bracket. *)
Theorem second_pass_pieces (html : string) :
  exists pieces,
    tag_pass html pieces /\
    html = concat (List.map fst pieces) /\
    second_pass html = concat (List.map snd pieces) /\
    Forall (fun piece =>
              copied piece \/
              (tag_marker (fst piece) /\ canonical_tag (snd piece)))
           pieces.
Proof.
  destruct (second_go_pieces (String.length html) html None (le_n _))
    as [pieces [Hp [Hout Hall]]].
  exists pieces. split; [exact Hp |].
  split; [now apply tag_pass_source |]. split; assumption.
Qed.

(* ================================================================= *)
(** ** The validator *)

Section Validator.

Lemma matchAll_go_absent (ic : bool) (c : ascii) (r : regex) :
  needs c r = true ->
  forall s p, Str.mem c s = false -> matchAll_go ic r p 0 s = [].
Proof.
  intros Hn; induction s as [|b s IH]; intros p Hs; simpl.
  - now rewrite (match_at_needs ic c).
  - rewrite (match_at_needs ic c) by assumption.
    simpl in Hs; apply orb_false_iff in Hs. apply IH; tauto.
Qed.

Lemma test_absent (ic : bool) (c : ascii) (r : regex) (s : string) :
  needs c r = true -> Str.mem c s = false -> test ic r s = false.
Proof. intros Hn Hs. unfold test. now rewrite (search_absent ic c). Qed.

Lemma validateHTML_non_string (v : value) :
  is_string v = false -> validateHTML v = Ok (Validation true []).
Proof.
  intros H. unfold validateHTML. rewrite H. cbn [negb].
  now rewrite orb_true_r.
Qed.

End Validator.

(** X6. [validateHTML] accepts, with no issue, whatever is not a string, the
    empty string, and every text without an angle bracket, a colon and an
    equals sign. *)
Theorem validateHTML_accepts_plain (v : value) :
  is_string v = false \/ markup_free (text_of v) = true ->
  validateHTML v = Ok (Validation true []).
Proof.
  intros [H | H]; [now apply validateHTML_non_string |].
  destruct v as [| | t | b o]; try (now apply validateHTML_non_string).
  cbn [text_of] in H. apply markup_free_spec in H as [H1 [H2 H3]].
  destruct t as [|a t]; [reflexivity |].
  unfold validateHTML. cbn [truthy is_string Str.is_empty negb orb receiver bind].
  unfold matchAll.
  rewrite (matchAll_go_absent true "<") by (reflexivity || assumption).
  rewrite (test_absent true ":" (lit "javascript:"))
    by (reflexivity || assumption).
  rewrite (test_absent true "=" handler_re) by (reflexivity || assumption).
  rewrite (test_absent true "<" (lit "<script"))
    by (reflexivity || assumption).
  reflexivity.
Qed.

Lemma validateHTML_accepts_plain_witness :
  validateHTML (VString "Covers tire damage. Good for off road.") =
  Ok (Validation true []).
Proof.
  apply (validateHTML_accepts_plain
           (VString "Covers tire damage. Good for off road.")).
  right. reflexivity.
Defined.

(* ================================================================= *)
(** ** More on the compliance scanner and the disclaimer check *)

Section ScannerMore.

Lemma NoDup_map_filter {A B} (f : A -> B) (P : A -> bool) (l : list A) :
  NoDup (List.map f l) -> NoDup (List.map f (filter P l)).
Proof.
  induction l as [|x l IH]; simpl; intros H; [constructor |].
  inversion H as [|? ? Hx Hl]; subst.
  destruct (P x); simpl; [|now apply IH].
  constructor; [|now apply IH].
  intros Hin. apply Hx. apply in_map_iff in Hin as [y [Hy Hin]].
  apply filter_In in Hin as [Hin _]. apply in_map_iff. eauto.
Qed.

Lemma NoDup_dedup (l : list string) : NoDup (dedup l).
Proof.
  induction l as [|x l IH]; simpl; constructor.
  - intros Hin. apply filter_In in Hin as [_ Hx].
    now rewrite String.eqb_refl in Hx.
  - now apply NoDup_filter.
Qed.

Lemma length_filter_le {A} (P : A -> bool) (l : list A) :
  List.length (filter P l) <= List.length l.
Proof.
  induction l as [|x l IH]; simpl; [lia |].
  destruct (P x); simpl; lia.
Qed.

Lemma keyword_warnings_distinct :
  NoDup (List.map (fun rule => keyword_warning (keyword rule))
                  PROHIBITED_KEYWORDS).
Proof.
  simpl. repeat constructor; simpl; intuition discriminate.
Qed.

Lemma scan_warnings_distinct (combined : string) :
  NoDup (warnings (scan combined)) /\
  List.length (warnings (scan combined)) <= 14.
Proof.
  rewrite scan_warnings. split.
  - apply NoDup_app.
    + apply NoDup_map_filter, keyword_warnings_distinct.
    + apply NoDup_dedup.
    + intros w Hk Hm. unfold keyword_warnings in Hk.
      apply in_map_iff in Hk as [k [Ek Hk]].
      apply filter_In in Hk as [Hk _].
      apply in_dedup, in_map_iff in Hm as [r [Er Hr]].
      apply filter_In in Hr as [Hr _].
      apply (keyword_warning_not_message k r Hk Hr). congruence.
  - rewrite List.length_app.
    assert (Hk : List.length (keyword_warnings (stripTags combined)) <= 10).
    { unfold keyword_warnings. rewrite List.length_map.
      apply (length_filter_le _ PROHIBITED_KEYWORDS). }
    assert (Hm : List.length (manipulative_warnings (stripTags combined))
                 <= 4).
    { apply (NoDup_incl_length
               (l' := ["Multiple exclamation points may appear unprofessional";
                       "Unverified savings claims";
                       "Fear-based language detected";
                       "Pressure tactics detected"])).
      - apply NoDup_dedup.
      - intros w Hw. apply in_dedup, in_map_iff in Hw as [r [<- Hr]].
        apply filter_In in Hr as [Hr _]. simpl in Hr.
        repeat (destruct Hr as [<- | Hr]); simpl; tauto. }
    lia.
Qed.

Section CaseMap.

Variable f : ascii -> ascii.
Hypothesis f_lt : forall c, Ascii.eqb (f c) "<" = Ascii.eqb c "<".
Hypothesis f_gt : forall c, Ascii.eqb (f c) ">" = Ascii.eqb c ">".
Hypothesis f_space : f " " = " "%char.

Lemma indexOf_gt_map (s : string) :
  Str.indexOf ">" (Str.map f s) = Str.indexOf ">" s.
Proof.
  induction s as [|c s IH]; simpl; [reflexivity |].
  now rewrite f_gt, IH.
Qed.

Lemma drop_map (n : nat) (s : string) :
  Str.drop n (Str.map f s) = Str.map f (Str.drop n s).
Proof.
  revert s; induction n as [|n IH]; intros [|c s]; simpl; auto.
Qed.

(** Tag stripping commutes with a change of characters that keeps the angle
    brackets and the space. *)
Lemma stripTags_map :
  forall n s, String.length s <= n ->
    stripTags (Str.map f s) = Str.map f (stripTags s).
Proof.
  induction n as [|n IH]; intros s Hn.
  - destruct s; simpl in Hn; [reflexivity | lia].
  - destruct s as [|c s]; [reflexivity |]. simpl in Hn.
    cbn [Str.map].
    destruct (Ascii.eqb c "<") eqn:E.
    + assert (Hf : f c = "<"%char)
        by (apply Ascii.eqb_eq; now rewrite f_lt).
      apply Ascii.eqb_eq in E; subst c. rewrite Hf.
      destruct (Str.indexOf ">" s) as [i|] eqn:Ei.
      * rewrite (stripTags_closed s i Ei).
        rewrite (stripTags_closed (Str.map f s) i)
          by now rewrite indexOf_gt_map.
        cbn [Str.map]. rewrite f_space, drop_map. f_equal.
        apply IH. rewrite str_length_drop. lia.
      * rewrite (stripTags_unclosed s Ei).
        rewrite stripTags_unclosed by now rewrite indexOf_gt_map.
        cbn [Str.map]. now rewrite Hf.
    + rewrite !stripTags_other by (rewrite ?f_lt; exact E).
      cbn [Str.map]. f_equal. apply IH. lia.
Qed.

End CaseMap.

Lemma toLower_lt (c : ascii) :
  Ascii.eqb (toLower c) "<" = Ascii.eqb c "<".
Proof. destruct c as [[] [] [] [] [] [] [] []]; reflexivity. Qed.

Lemma toLower_gt (c : ascii) :
  Ascii.eqb (toLower c) ">" = Ascii.eqb c ">".
Proof. destruct c as [[] [] [] [] [] [] [] []]; reflexivity. Qed.

(** The disclaimer test reads only the lower-cased text. *)
Lemma has_indicator_lower (s : string) :
  has_indicator s =
  existsb (fun pattern => test_pattern pattern (stripTags (Str.toLowerCase s)))
          DISCLAIMER_INDICATORS.
Proof.
  unfold has_indicator, Str.toLowerCase.
  now rewrite (stripTags_map toLower toLower_lt toLower_gt eq_refl
                 (String.length s) s (le_n _)).
Qed.

End ScannerMore.

(** X7. The warnings of [checkCompliance] never hold the same sentence
    twice, and there are at most fourteen of them: one for each of the ten
    keywords and one for each of the four messages. *)
Theorem checkCompliance_warnings_distinct (a b : value) :
  is_text a = true -> is_text b = true ->
  exists c, checkCompliance a b = Ok c /\
    NoDup (warnings c) /\ List.length (warnings c) <= 14.
Proof.
  intros Ha Hb. rewrite (checkCompliance_text a b Ha Hb).
  eexists; split; [reflexivity | apply scan_warnings_distinct].
Qed.

Lemma checkCompliance_warnings_distinct_witness :
  exists c,
    checkCompliance (VString "It is devastating!") (VString "Never bankrupt.")
    = Ok c /\
    NoDup (warnings c) /\ List.length (warnings c) <= 14.
Proof.
  apply (checkCompliance_warnings_distinct
           (VString "It is devastating!") (VString "Never bankrupt."));
    reflexivity.
Defined.

(** X8. [hasDisclaimer] does not depend on the case of the letters: two
    texts with the same lower-case form get the same answer. *)
Theorem hasDisclaimer_ignores_case (s1 s2 : string) :
  Str.toLowerCase s1 = Str.toLowerCase s2 ->
  hasDisclaimer (VString s1) = hasDisclaimer (VString s2).
Proof.
  intros H. rewrite !hasDisclaimer_string, !has_indicator_lower, H.
  now destruct s1, s2.
Qed.

Lemma hasDisclaimer_ignores_case_witness :
  hasDisclaimer (VString "EXCLUSIONS APPLY") =
  hasDisclaimer (VString "Exclusions apply").
Proof.
  apply (hasDisclaimer_ignores_case "EXCLUSIONS APPLY" "Exclusions apply").
  reflexivity.
Defined.

(* ================================================================= *)
(** ** Publishing and the request handlers *)

Section Handlers.

Lemma sanitizeHTML_returns (v : value) : exists y, sanitizeHTML v = Ok y.
Proof.
  destruct v as [| | t | b o];
    try (exists ""; now apply sanitizeHTML_non_string).
  rewrite sanitizeHTML_string. eauto.
Qed.

(** After [ensureDisclaimer] a string is a string that has a disclaimer. *)
Lemma ensureDisclaimer_string (y : string) :
  exists l, ensureDisclaimer (VString y) = Ok (VString l) /\
    hasDisclaimer (VString l) = Ok true.
Proof.
  pose proof (hasDisclaimer_ensured (VString y) eq_refl) as H.
  rewrite (ensureDisclaimer_text (VString y) eq_refl) in *.
  cbn [bind] in H. eauto.
Qed.

Lemma checkCompliance_is_scan (a b : value) (c : compliance) :
  checkCompliance a b = Ok c -> exists t, c = scan t.
Proof.
  unfold checkCompliance.
  destruct (interpolate (or_empty a)) as [x|]; [|discriminate].
  destruct (interpolate (or_empty b)) as [y|]; [|discriminate].
  cbn [bind]. intros [= <-]. eauto.
Qed.

Lemma scan_hasIssues_iff (t : string) :
  hasIssues (scan t) = true <-> warnings (scan t) <> [].
Proof.
  rewrite scan_hasIssues. destruct (warnings (scan t)); simpl.
  - split; [discriminate | congruence].
  - split; [discriminate | reflexivity].
Qed.

Lemma in_dedup_of (l : list string) (x : string) : In x l -> In x (dedup l).
Proof.
  induction l as [|y l IH]; simpl; [tauto |].
  intros [-> | H]; [now left |].
  destruct (String.eqb_spec x y) as [-> | Hne]; [now left |].
  right. apply filter_In. split; [now apply IH |].
  apply negb_true_iff. now apply String.eqb_neq.
Qed.

Lemma dedup_nil (l : list string) : dedup l = [] <-> l = [].
Proof. destruct l; simpl; split; congruence. Qed.

(** Every warning of a scan is the sentence of a keyword rule or the
    message of a manipulative-pattern rule. *)
Lemma scan_warning_kinds (t w : string) :
  In w (warnings (scan t)) ->
  In w (List.map (fun rule => keyword_warning (keyword rule))
                 PROHIBITED_KEYWORDS) \/
  In w (List.map message MANIPULATIVE_PATTERNS).
Proof.
  rewrite scan_warnings. intros H. apply in_app_or in H as [H | H].
  - left. unfold keyword_warnings in H.
    apply in_map_iff in H as [k [<- Hk]]. apply filter_In in Hk as [Hk _].
    now apply (in_map (fun rule => keyword_warning (keyword rule))).
  - right. apply in_dedup, in_map_iff in H as [r [<- Hr]].
    apply filter_In in Hr as [Hr _]. now apply (in_map message).
Qed.

Lemma missing_disclaimer_not_scanned (t : string) :
  ~ In missing_disclaimer (warnings (scan t)).
Proof.
  intros H. apply scan_warning_kinds in H as [H | H]; simpl in H;
    intuition discriminate.
Qed.

(** The closed form of [validateForPublishing] on strings, [null] and
    [undefined]. *)
Lemma validateForPublishing_text (s l : value) :
  is_text s = true -> is_text l = true ->
  validateForPublishing s l =
  Ok (PublishingResult
        (negb (test false html_tag_re (text_of s)))
        (push_if (test false html_tag_re (text_of s)) not_plain_text [])
        (push_if (negb (Str.is_empty (text_of l)) &&
                  negb (has_indicator (text_of l)))
           missing_disclaimer
           (push_if (3 <? List.length (sentences (text_of s)))
              too_many_sentences []) ++
         warnings (scan (text_of s ++ " " ++ text_of l)))%list).
Proof.
  intros Hs Hl. unfold validateForPublishing.
  rewrite (checkCompliance_text s l Hs Hl).
  assert (Hlong :
    forall w,
      (if truthy l
       then present <- hasDisclaimer l ;;
            Ok (push_if (negb present) missing_disclaimer w)
       else Ok w) =
      Ok (push_if (negb (Str.is_empty (text_of l)) &&
                   negb (has_indicator (text_of l)))
            missing_disclaimer w)).
  { intros w. destruct l as [| | y | ? ?]; try discriminate Hl;
      try reflexivity.
    cbn [truthy text_of]. rewrite hasDisclaimer_string.
    destruct (Str.is_empty y); reflexivity. }
  destruct s as [| | x | ? ?]; try discriminate Hs;
    try (cbn [truthy bind fst snd text_of]; rewrite Hlong; reflexivity).
  cbn [truthy text_of].
  destruct x as [|c x];
    [cbn [Str.is_empty negb bind fst snd]; rewrite Hlong; reflexivity |].
  cbn [Str.is_empty negb receiver bind fst snd]. rewrite Hlong.
  cbn [bind]. f_equal. f_equal.
  now destruct (test false html_tag_re (String c x)).
Qed.

End Handlers.

(** X9. The long description in a reply of the enhancement handler has a
    disclaimer: whatever the language model returned, [hasDisclaimer] holds
    of what is sent. *)
Theorem enhance_reply_has_disclaimer (short long : value)
  (ai : value -> value -> result (value * value))
  (sd ld : value) (w : list string) (h : bool) :
  enhance short long ai = EnhanceResponse sd ld w h ->
  hasDisclaimer ld = Ok true.
Proof.
  unfold enhance.
  destruct (negb (truthy short) && negb (truthy long)); [discriminate |].
  destruct (ai short long) as [e|]; [|discriminate]. cbn [bind].
  destruct (sanitizeHTML_returns (snd e)) as [y ->]. cbn [bind].
  destruct (ensureDisclaimer_string y) as [l [-> Hl]]. cbn [bind].
  destruct (checkCompliance short long); [|discriminate]. cbn [bind].
  destruct (checkCompliance (fst e) (VString l)); [|discriminate].
  cbn [bind]. intros [= <- <- <- <-]. exact Hl.
Qed.

Lemma enhance_reply_has_disclaimer_witness :
  hasDisclaimer
    (VString ("<p>Covers tires.</p>" ++ disclaimer_block)) = Ok true.
Proof.
  refine (enhance_reply_has_disclaimer
            (VString "Covers tires.") VNull
            (fun _ _ => Ok (VString "Covers tires.",
                            VString "<p>Covers tires.</p>"))
            (VString "Covers tires.") _ [] false _).
  vm_compute. reflexivity.
Defined.

(** X10. In a reply of the enhancement handler the warnings are the
    warnings about the request followed by the new warnings about the
    result, each sentence once; none of the warnings about the request is
    lost; and the flag is set exactly when there is a warning. *)
Theorem enhance_merges_warnings (short long : value)
  (ai : value -> value -> result (value * value))
  (sd ld : value) (w : list string) (h : bool) :
  enhance short long ai = EnhanceResponse sd ld w h ->
  NoDup w /\
  (h = true <-> w <> []) /\
  exists inputCompliance outputCompliance,
    checkCompliance short long = Ok inputCompliance /\
    checkCompliance sd ld = Ok outputCompliance /\
    w = dedup (warnings inputCompliance ++ warnings outputCompliance)%list /\
    incl (warnings inputCompliance) w /\
    incl (warnings outputCompliance) w.
Proof.
  unfold enhance.
  destruct (negb (truthy short) && negb (truthy long)); [discriminate |].
  destruct (ai short long) as [e|]; [|discriminate]. cbn [bind].
  destruct (sanitizeHTML_returns (snd e)) as [y ->]. cbn [bind].
  destruct (ensureDisclaimer_string y) as [l [-> Hl]]. cbn [bind].
  destruct (checkCompliance short long) as [ci|] eqn:Ei; [|discriminate].
  cbn [bind].
  destruct (checkCompliance (fst e) (VString l)) as [co|] eqn:Eo;
    [|discriminate].
  cbn [bind]. intros [= <- <- <- <-].
  apply checkCompliance_is_scan in Ei as Hi. destruct Hi as [ti ->].
  apply checkCompliance_is_scan in Eo as Ho. destruct Ho as [to ->].
  unfold merge_warnings. split; [apply NoDup_dedup |]. split.
  - rewrite orb_true_iff, !scan_hasIssues_iff, dedup_nil. split.
    + intros [H | H] Hnil; apply List.app_eq_nil in Hnil as [H1 H2];
        contradiction.
    + intros H. destruct (warnings (scan ti)) as [|x xs];
        [right; exact H | left; discriminate].
  - exists (scan ti), (scan to). repeat split; try assumption.
    + intros x Hx. apply in_dedup_of, in_or_app. now left.
    + intros x Hx. apply in_dedup_of, in_or_app. now right.
Qed.

Lemma enhance_merges_warnings_witness :
  NoDup ["Contains " ++ String dquote "best" ++ String dquote
         " - this language may require legal review"].
Proof.
  refine (proj1 (enhance_merges_warnings
                   (VString "best plan") VNull
                   (fun _ _ => Ok (VString "A plan.", VString "<p>Best.</p>"))
                   (VString "A plan.") _ _ true _)).
  vm_compute. reflexivity.
Defined.

(** X11. The enhancement handler answers 400 exactly when both descriptions
    are missing or empty, and it answers 200 whenever the request holds
    strings, [null] or [undefined] and the language model returns such
    values. *)
Theorem enhance_status (short long : value)
  (ai : value -> value -> result (value * value)) :
  (truthy short = false /\ truthy long = false <->
   enhance short long ai =
   ErrorResponse 400
     "At least one description (short or long) must be provided"
     "EMPTY_INPUT") /\
  (forall e,
     truthy short = true \/ truthy long = true ->
     is_text short = true -> is_text long = true ->
     ai short long = Ok e -> is_text (fst e) = true ->
     exists ld w h, enhance short long ai = EnhanceResponse (fst e) ld w h).
Proof.
  split.
  - unfold enhance. split.
    + intros [-> ->]. reflexivity.
    + destruct (truthy short), (truthy long); cbn [negb andb]; auto;
        destruct (ai short long) as [e|]; cbn [bind]; try discriminate;
        destruct (sanitizeHTML_returns (snd e)) as [y ->]; cbn [bind];
        destruct (ensureDisclaimer_string y) as [l [-> Hl]]; cbn [bind];
        destruct (checkCompliance short long); cbn [bind];
          try discriminate;
        destruct (checkCompliance (fst e) (VString l)); discriminate.
  - intros e Ht Hs Hl He Hf. unfold enhance.
    assert (G : negb (truthy short) && negb (truthy long) = false)
      by (destruct Ht as [-> | ->]; cbn [negb];
          [reflexivity | apply andb_false_r]).
    rewrite G, He. cbn [bind].
    destruct (sanitizeHTML_returns (snd e)) as [y ->]. cbn [bind].
    destruct (ensureDisclaimer_string y) as [l [-> _]]. cbn [bind].
    rewrite (checkCompliance_text short long Hs Hl). cbn [bind].
    rewrite (checkCompliance_text (fst e) (VString l) Hf eq_refl).
    cbn [bind]. eauto.
Qed.

Lemma enhance_status_witness :
  exists ld w h,
    enhance (VString "Covers tires.") VNull
      (fun _ _ => Ok (VString "Covers tires.", VString "<p>Covers.</p>")) =
    EnhanceResponse (VString "Covers tires.") ld w h.
Proof.
  apply (proj2 (enhance_status (VString "Covers tires.") VNull
                  (fun _ _ => Ok (VString "Covers tires.",
                                  VString "<p>Covers.</p>")))
               (VString "Covers tires.", VString "<p>Covers.</p>"));
    try reflexivity.
  left. reflexivity.
Defined.

(** X12. After [ensureDisclaimer] the publishing check never asks for a
    disclaimer. *)
Theorem publishing_after_ensureDisclaimer (s l : value) :
  is_text s = true -> is_text l = true ->
  exists l' r,
    ensureDisclaimer l = Ok l' /\
    validateForPublishing s l' = Ok r /\
    ~ In missing_disclaimer (pwarnings r).
Proof.
  intros Hs Hl.
  pose proof (hasDisclaimer_ensured l Hl) as H.
  rewrite (ensureDisclaimer_text l Hl) in *. cbn [bind] in H.
  set (t := if Str.is_empty (text_of l) then disclaimerHTML
            else if has_indicator (text_of l) then text_of l
            else text_of l ++ disclaimer_block) in *.
  exists (VString t). eexists. split; [reflexivity |].
  rewrite (validateForPublishing_text s (VString t) Hs eq_refl).
  split; [reflexivity |]. cbn [pwarnings text_of].
  rewrite hasDisclaimer_string in H.
  destruct (Str.is_empty t); [discriminate H |].
  injection H as ->. cbn [negb andb push_if].
  intros Hin. apply in_app_or in Hin as [Hin | Hin].
  - unfold push_if in Hin. destruct (3 <? _); simpl in Hin;
      intuition discriminate.
  - now apply missing_disclaimer_not_scanned in Hin.
Qed.

Lemma publishing_after_ensureDisclaimer_witness :
  exists l' r,
    ensureDisclaimer (VString "<p>Coverage info.</p>") = Ok l' /\
    validateForPublishing (VString "Covers tires.") l' = Ok r /\
    ~ In missing_disclaimer (pwarnings r).
Proof.
  apply (publishing_after_ensureDisclaimer
           (VString "Covers tires.") (VString "<p>Coverage info.</p>"));
    reflexivity.
Defined.

(** X13. Only markup in the short description makes the content invalid: a
    short description without an opening or without a closing angle bracket
    is valid whatever the long description and the warnings are, and the
    warnings of the publishing check end with those of [checkCompliance],
    after at most two of its own. *)
Theorem publishing_valid_without_markup (s l : value) :
  is_text s = true -> is_text l = true ->
  exists r c,
    validateForPublishing s l = Ok r /\
    checkCompliance s l = Ok c /\
    (pvalid r = true <-> perrors r = []) /\
    (Str.mem "<" (text_of s) = false \/ Str.mem ">" (text_of s) = false ->
     pvalid r = true) /\
    exists own, pwarnings r = (own ++ warnings c)%list /\
                List.length own <= 2.
Proof.
  intros Hs Hl.
  rewrite (validateForPublishing_text s l Hs Hl).
  rewrite (checkCompliance_text s l Hs Hl).
  eexists; eexists. split; [reflexivity |]. split; [reflexivity |].
  cbn [pvalid perrors pwarnings]. split; [|split].
  - destruct (test false html_tag_re (text_of s)); simpl;
      split; congruence.
  - intros [H | H].
    + now rewrite (test_absent false "<").
    + now rewrite (test_absent false ">").
  - eexists; split; [reflexivity |].
    unfold push_if. destruct (_ && _), (3 <? _); simpl; lia.
Qed.

Lemma publishing_valid_without_markup_witness :
  exists r c,
    validateForPublishing (VString "Act now!") VNull = Ok r /\
    checkCompliance (VString "Act now!") VNull = Ok c /\
    (pvalid r = true <-> perrors r = []) /\
    (Str.mem "<" (text_of (VString "Act now!")) = false \/
     Str.mem ">" (text_of (VString "Act now!")) = false ->
     pvalid r = true) /\
    exists own, pwarnings r = (own ++ warnings c)%list /\
                List.length own <= 2.
Proof.
  apply (publishing_valid_without_markup (VString "Act now!") VNull);
    reflexivity.
Defined.

(* ================================================================= *)
(** ** Sentences *)

Section Sentences.

Local Arguments match_at : simpl never.

Lemma in_ends (c : ascii) :
  in_class false [CChar "."; CChar "!"; CChar "?"] c = is_terminator c.
Proof.
  unfold in_class, is_terminator. cbn [existsb in_item andb].
  rewrite !orb_false_r, (Ascii.eqb_sym "." c), (Ascii.eqb_sym "!" c),
    (Ascii.eqb_sym "?" c).
  now rewrite orb_assoc.
Qed.

(** The greedy run of terminators stops at the first other character. *)
Lemma ends_loop (s : string) :
  forall fuel p cs, String.length s < fuel ->
    exists p',
      star_loop true (m false ends) Some fuel (MState p s cs) =
      Some (MState p' (skip_terminators s) cs).
Proof.
  unfold ends.
  induction s as [|c s IH]; intros [|fuel] p cs Hf; simpl in Hf; try lia.
  - exists p. reflexivity.
  - cbn [star_loop m rest caps xorb skip_terminators].
    rewrite in_ends. destruct (is_terminator c); cbn [orelse].
    + assert (L : (String.length s <? String.length (String c s)) = true)
        by (apply Nat.ltb_lt; simpl; lia).
      cbn [rest]. rewrite L.
      destruct (IH fuel (Some c) cs) as [p' E]; [lia |]. exists p'.
      exact (f_equal
               (fun x => orelse x (Some (MState p (String c s) cs))) E).
    + eauto.
Qed.

Lemma length_skip_terminators (s : string) :
  String.length (skip_terminators s) <= String.length s.
Proof.
  induction s as [|c s IH]; simpl; [lia |].
  destruct (is_terminator c); simpl; lia.
Qed.

Lemma drop_to_skip (s : string) :
  Str.drop (String.length s - String.length (skip_terminators s)) s =
  skip_terminators s.
Proof.
  induction s as [|c s IH]; [reflexivity |].
  simpl skip_terminators. destruct (is_terminator c).
  - pose proof (length_skip_terminators s).
    replace (String.length (String c s) -
             String.length (skip_terminators s))
      with (S (String.length s - String.length (skip_terminators s)))
      by (cbn [String.length]; lia).
    exact IH.
  - now rewrite Nat.sub_diag.
Qed.

Lemma ends_step (p : option ascii) (c : ascii) (s : string)
  (cs : list (nat * string)) (k : mstate -> option mstate) :
  m false ends k (MState p (String c s) cs) =
  if is_terminator c then k (MState (Some c) s cs) else None.
Proof.
  unfold ends. cbn [m rest caps]. rewrite in_ends.
  destruct (is_terminator c); reflexivity.
Qed.

Lemma sentence_end_m (p : option ascii) (c : ascii) (s : string) :
  exists p',
    m false sentence_end_re Some (MState p (String c s) []) =
    if is_terminator c
    then Some (MState p' (skip_terminators s) []) else None.
Proof.
  destruct (ends_loop s (S (String.length s)) (Some c) []) as [p' E];
    [lia |].
  exists p'.
  change (m false sentence_end_re Some (MState p (String c s) []))
    with (m false ends
            (fun st => star_loop true (m false ends) Some
                         (S (String.length (rest st))) st)
            (MState p (String c s) [])).
  rewrite ends_step. destruct (is_terminator c); [exact E | reflexivity].
Qed.

(** Where the sentence pattern matches, and how much. *)
Lemma sentence_end_at (p : option ascii) (s : string) :
  match_at false sentence_end_re p s =
  match s with
  | String c s' =>
      if is_terminator c then
        Some (Found
                (Str.take (S (String.length s' -
                              String.length (skip_terminators s'))) s) [])
      else None
  | "" => None
  end.
Proof.
  unfold match_at. destruct s as [|c s']; [reflexivity |].
  destruct (sentence_end_m p c s') as [p' ->].
  destruct (is_terminator c); [|reflexivity].
  cbn [rest caps]. pose proof (length_skip_terminators s').
  do 2 f_equal. f_equal. cbn [String.length]. lia.
Qed.

Lemma split_go_prev (piece s : string) (n : nat) (p p' : option ascii) :
  split_go false sentence_end_re piece p n s =
  split_go false sentence_end_re piece p' n s.
Proof.
  destruct s as [|c s]; [reflexivity |].
  destruct n as [|n]; [|reflexivity].
  cbn [split_go]. now rewrite !sentence_end_at.
Qed.

Lemma split_go_skip (n : nat) :
  forall piece s p, n <= String.length s ->
    split_go false sentence_end_re piece p n s =
    split_go false sentence_end_re piece None 0 (Str.drop n s).
Proof.
  induction n as [|n IH]; intros piece s p H.
  - replace (Str.drop 0 s) with s by now destruct s.
    apply split_go_prev.
  - destruct s as [|c s]; simpl in H; [lia |].
    cbn [split_go Str.drop]. apply IH; lia.
Qed.

(** The two equations of the splitting into sentences. *)
Lemma split_go_body (c : ascii) (piece s : string) (p : option ascii) :
  is_terminator c = false ->
  split_go false sentence_end_re piece p 0 (String c s) =
  split_go false sentence_end_re (piece ++ String c "") None 0 s.
Proof.
  intros H. cbn [split_go]. rewrite sentence_end_at, H.
  apply split_go_prev.
Qed.

Lemma split_go_end (c : ascii) (piece s : string) (p : option ascii) :
  is_terminator c = true ->
  split_go false sentence_end_re piece p 0 (String c s) =
  piece :: split_go false sentence_end_re "" None 0 (skip_terminators s).
Proof.
  intros H. cbn [split_go]. rewrite sentence_end_at, H. cbn [matched].
  pose proof (length_skip_terminators s).
  rewrite str_length_take by (simpl; lia).
  f_equal. rewrite split_go_skip by lia. now rewrite drop_to_skip.
Qed.

Lemma split_go_bodies (b : string) :
  all_chars (fun c => negb (is_terminator c)) b = true ->
  forall piece s,
    split_go false sentence_end_re piece None 0 (b ++ s) =
    split_go false sentence_end_re (piece ++ b) None 0 s.
Proof.
  induction b as [|c b IH]; cbn [append all_chars]; intros H piece s.
  - now rewrite str_app_empty_r.
  - apply andb_true_iff in H as [Hc Hb]. apply negb_true_iff in Hc.
    rewrite split_go_body, (IH Hb) by assumption.
    now rewrite str_app_assoc.
Qed.

Lemma skip_terminators_run (t s : string) :
  all_chars is_terminator t = true ->
  skip_terminators (t ++ s) = skip_terminators s.
Proof.
  induction t as [|c t IH]; simpl; [reflexivity |]. intros H.
  apply andb_true_iff in H as [-> Ht]. now apply IH.
Qed.

Lemma skip_terminators_body (b s : string) :
  all_chars (fun c => negb (is_terminator c)) b = true ->
  Str.is_empty b = false ->
  skip_terminators (b ++ s) = b ++ s.
Proof.
  destruct b as [|c b]; [discriminate |]. simpl. intros H _.
  apply andb_true_iff in H as [Hc _]. apply negb_true_iff in Hc.
  now rewrite Hc.
Qed.

(** After a run of terminators, the non-blank pieces are the non-blank
    bodies. *)
Lemma pieces_after_end (l : list (string * string)) :
  Forall well_punctuated l ->
  filter nonblank
    (split_go false sentence_end_re "" None 0 (skip_terminators (written l)))
  = filter nonblank (List.map fst l).
Proof.
  induction 1 as [|[b t] l [Hb [Ht Hne]] Hl IH]; [reflexivity |].
  cbn [fst snd] in *. unfold written in *. cbn [List.map concat fst snd].
  rewrite str_app_assoc.
  destruct t as [|c t]; [discriminate Hne |].
  simpl in Ht. apply andb_true_iff in Ht as [Hc Ht].
  destruct (Str.is_empty b) eqn:Eb.
  - destruct b; [|discriminate Eb]. cbn [append skip_terminators].
    rewrite Hc, skip_terminators_run by assumption.
    rewrite IH. reflexivity.
  - rewrite skip_terminators_body by assumption.
    rewrite split_go_bodies by assumption. cbn [append].
    rewrite split_go_end by assumption.
    rewrite skip_terminators_run by assumption.
    cbn [filter List.map fst]. now rewrite IH.
Qed.

(** The sentences of a text written as sentences are its non-blank
    bodies. *)
Lemma sentences_written (l : list (string * string)) :
  Forall well_punctuated l ->
  sentences (written l) = filter nonblank (List.map fst l).
Proof.
  intros H. unfold sentences. fold nonblank.
  destruct l as [|[b t] l]; [reflexivity |].
  inversion H as [|? ? [Hb [Ht Hne]] Hl]; subst. cbn [fst snd] in *.
  assert (Hw : written ((b, t) :: l) = b ++ t ++ written l)
    by (unfold written; cbn [List.map concat fst snd];
        now rewrite str_app_assoc).
  destruct t as [|c t]; [discriminate Hne |].
  assert (Hs : split_re false sentence_end_re (written ((b, String c t) :: l))
               = split_go false sentence_end_re "" None 0
                   (written ((b, String c t) :: l))).
  { rewrite Hw. destruct b; reflexivity. }
  rewrite Hs.
  destruct (Str.is_empty b) eqn:Eb.
  - destruct b; [|discriminate Eb]. rewrite Hw. cbn [append].
    simpl in Ht. apply andb_true_iff in Ht as [Hc Ht].
    rewrite split_go_end by assumption.
    rewrite skip_terminators_run by assumption.
    cbn [filter List.map fst]. now rewrite (pieces_after_end l Hl).
  - rewrite <- (pieces_after_end _ H).
    now rewrite Hw, skip_terminators_body.
Qed.

End Sentences.

(** X14. For a short description written as sentences, each a body without
    a terminator followed by one or more full stops, exclamation or question
    marks, the publishing check counts the bodies that are not blank, and it
    warns about the number of sentences exactly when they are more than
    three. *)
Theorem publishing_counts_sentences (l : list (string * string))
  (long : value) :
  Forall well_punctuated l -> is_text long = true ->
  sentences (written l) = filter nonblank (List.map fst l) /\
  exists r,
    validateForPublishing (VString (written l)) long = Ok r /\
    (In too_many_sentences (pwarnings r) <->
     3 < List.length (filter nonblank (List.map fst l))).
Proof.
  intros Hl Hlong. split; [now apply sentences_written |].
  rewrite (validateForPublishing_text (VString (written l)) long
             eq_refl Hlong).
  eexists; split; [reflexivity |]. cbn [pwarnings text_of].
  rewrite (sentences_written l Hl).
  set (b := negb (Str.is_empty (text_of long)) &&
            negb (has_indicator (text_of long))).
  destruct (3 <? List.length (filter nonblank (List.map fst l))) eqn:E.
  - apply Nat.ltb_lt in E. split; [intros _; exact E |]. intros _.
    apply in_or_app. left. unfold push_if.
    destruct b; simpl; tauto.
  - apply Nat.ltb_ge in E. split; [|lia]. intros Hin. exfalso.
    apply in_app_or in Hin as [Hin | Hin].
    + unfold push_if in Hin. destruct b; simpl in Hin;
        intuition discriminate.
    + apply scan_warning_kinds in Hin as [Hin | Hin]; simpl in Hin;
        intuition discriminate.
Qed.

Lemma publishing_counts_sentences_witness :
  sentences "Covers tires. Covers wheels!! Fair price? Yes." =
  ["Covers tires"; " Covers wheels"; " Fair price"; " Yes"].
Proof.
  apply (publishing_counts_sentences
           [("Covers tires", "."); (" Covers wheels", "!!");
            (" Fair price", "?"); (" Yes", ".")] VNull);
    [repeat constructor | reflexivity].
Defined.

(* ================================================================= *)
(** ** The confidence score *)

Section Confidence.

Import PrimFloat.
#[local] Open Scope float_scope.

Lemma calculateConfidence_signals (rawText : string) (a : analysis) :
  calculateConfidence rawText a = score_of (signals_of rawText a).
Proof. exact (eq_refl (calculateConfidence rawText a)). Qed.

Lemma every_spec (P : bool -> bool) :
  every P = true -> forall b, P b = true.
Proof.
  unfold every. intros H b. apply andb_true_iff in H as [H1 H2].
  now destruct b.
Qed.

Lemma every_more_spec (P : bool -> bool -> bool) :
  every_more P = true ->
  forall b c, (b = true -> c = true) -> P b c = true.
Proof.
  unfold every_more. intros H b c Hbc.
  apply andb_true_iff in H as [H H3]. apply andb_true_iff in H as [H1 H2].
  destruct b, c; try assumption. discriminate (Hbc eq_refl).
Qed.

Lemma every_signals_spec (f : signals -> bool) :
  every_signals f = true -> forall t, f t = true.
Proof.
  intros H [b1 b2 b3 b4 b5 b6 b7 b8 b9 b10 b11 b12].
  unfold every_signals in H.
  pose proof (every_spec _ H b1) as H1. cbv beta in H1.
  pose proof (every_spec _ H1 b2) as H2. cbv beta in H2.
  pose proof (every_spec _ H2 b3) as H3. cbv beta in H3.
  pose proof (every_spec _ H3 b4) as H4. cbv beta in H4.
  pose proof (every_spec _ H4 b5) as H5. cbv beta in H5.
  pose proof (every_spec _ H5 b6) as H6. cbv beta in H6.
  pose proof (every_spec _ H6 b7) as H7. cbv beta in H7.
  pose proof (every_spec _ H7 b8) as H8. cbv beta in H8.
  pose proof (every_spec _ H8 b9) as H9. cbv beta in H9.
  pose proof (every_spec _ H9 b10) as H10. cbv beta in H10.
  pose proof (every_spec _ H10 b11) as H11. cbv beta in H11.
  exact (every_spec _ H11 b12).
Qed.

Lemma every_more_signals_spec (g : signals -> signals -> bool)
  (b1 b2 b10 b11 b12 b3 c3 b4 c4 b5 c5 b6 c6 b7 c7 b8 c8 b9 c9 : bool) :
  every_more_signals g = true ->
  (b3 = true -> c3 = true) -> (b4 = true -> c4 = true) ->
  (b5 = true -> c5 = true) -> (b6 = true -> c6 = true) ->
  (b7 = true -> c7 = true) -> (b8 = true -> c8 = true) ->
  (b9 = true -> c9 = true) ->
  g (Signals b1 b2 b3 b4 b5 b6 b7 b8 b9 b10 b11 b12)
    (Signals b1 b2 c3 c4 c5 c6 c7 c8 c9 b10 b11 b12) = true.
Proof.
  intros H I3 I4 I5 I6 I7 I8 I9. unfold every_more_signals in H.
  pose proof (every_spec _ H b1) as H1. cbv beta in H1.
  pose proof (every_spec _ H1 b2) as H2. cbv beta in H2.
  pose proof (every_spec _ H2 b10) as H3. cbv beta in H3.
  pose proof (every_spec _ H3 b11) as H4. cbv beta in H4.
  pose proof (every_spec _ H4 b12) as H5. cbv beta in H5.
  pose proof (every_more_spec _ H5 b3 c3 I3) as H6. cbv beta in H6.
  pose proof (every_more_spec _ H6 b4 c4 I4) as H7. cbv beta in H7.
  pose proof (every_more_spec _ H7 b5 c5 I5) as H8. cbv beta in H8.
  pose proof (every_more_spec _ H8 b6 c6 I6) as H9. cbv beta in H9.
  pose proof (every_more_spec _ H9 b7 c7 I7) as H10. cbv beta in H10.
  pose proof (every_more_spec _ H10 b8 c8 I8) as H11. cbv beta in H11.
  exact (every_more_spec _ H11 b9 c9 I9).
Qed.

Lemma range_checked :
  every_signals (fun t => in_range (score_of t)) = true.
Proof. vm_compute. reflexivity. Qed.

Lemma raised_checked : every_more_signals (raised_by score_of) = true.
Proof. vm_compute. reflexivity. Qed.

Lemma in_range_spec (x : float) :
  in_range x = true -> (0.25 <=? x) = true /\ (x <=? 1) = true.
Proof. unfold in_range. intros H. now apply andb_true_iff in H. Qed.

Lemma raised_by_spec (sc : signals -> float) (t t' : signals) :
  raised_by sc t t' = true ->
  (sc t <=? sc t') = true /\
  (same_findings t t' = true \/ (sc t <? sc t') = true \/
   (1 <=? sc t') = true).
Proof.
  unfold raised_by. intros H. apply andb_true_iff in H as [H1 H2].
  split; [exact H1 |].
  apply orb_true_iff in H2 as [H2 | H2]; [|now right; right].
  apply orb_true_iff in H2 as [H2 | H2]; [now left | now right; left].
Qed.

Lemma signals_raised (rawText : string) (a a' : analysis) :
  finds_more a a' ->
  raised_by score_of (signals_of rawText a) (signals_of rawText a') = true.
Proof.
  intros [Hn [Ht [Hc [Hb [Hl Hd]]]]]. unfold signals_of.
  apply (every_more_signals_spec (raised_by score_of)); try assumption.
  - exact raised_checked.
  - intros H. apply Nat.leb_le in H. apply Nat.leb_le. lia.
  - intros H. apply Nat.leb_le in H. apply Nat.leb_le. lia.
Qed.

Lemma same_findings_spec (rawText : string) (a a' : analysis) :
  same_findings (signals_of rawText a) (signals_of rawText a') = true ->
  findings a = findings a'.
Proof.
  unfold same_findings, signals_of, findings.
  cbn [named typed covered well_covered with_benefits with_limitations
       with_disclaimers].
  intros H.
  apply andb_true_iff in H as [H H7]. apply andb_true_iff in H as [H H6].
  apply andb_true_iff in H as [H H5]. apply andb_true_iff in H as [H H4].
  apply andb_true_iff in H as [H H3]. apply andb_true_iff in H as [H1 H2].
  apply Bool.eqb_prop in H1, H2, H3, H4, H5, H6, H7.
  now rewrite H1, H2, H3, H4, H5, H6, H7.
Qed.

Lemma calculateConfidence_in_range (rawText : string) (a : analysis) :
  in_range (calculateConfidence rawText a) = true.
Proof.
  rewrite calculateConfidence_signals.
  exact (every_signals_spec (fun t => in_range (score_of t)) range_checked
           (signals_of rawText a)).
Qed.

(** X15. The confidence score of every text and every analysis lies between
    0.25 and 1: the lower bound 0 of the final clamp is never reached. *)
Theorem calculateConfidence_range (rawText : string) (a : analysis) :
  (0.25 <=? calculateConfidence rawText a) = true /\
  (calculateConfidence rawText a <=? 1) = true.
Proof. apply in_range_spec, calculateConfidence_in_range. Qed.

(** X16. For the same text, an analysis that found at least as much (a
    product name, a product type, as many coverage items, benefits,
    limitations, disclaimers) never gets a lower score. *)
Theorem calculateConfidence_monotone (rawText : string) (a a' : analysis) :
  finds_more a a' ->
  (calculateConfidence rawText a <=? calculateConfidence rawText a') = true.
Proof.
  intros H. apply signals_raised with (rawText := rawText) in H.
  apply raised_by_spec in H as [H _].
  rewrite !calculateConfidence_signals. exact H.
Qed.

Lemma calculateConfidence_monotone_witness :
  (calculateConfidence "Sample text."
     (Sections [] (Some []) (Some []) (Some []) VUndefined VUndefined)
   <=?
   calculateConfidence "Sample text."
     (Sections [] (Some ["Peace of mind"%string]) (Some []) (Some [])
               VUndefined (VString "GAP Coverage"))) = true.
Proof.
  apply (calculateConfidence_monotone "Sample text."
           (Sections [] (Some []) (Some []) (Some []) VUndefined VUndefined)
           (Sections [] (Some ["Peace of mind"%string]) (Some []) (Some [])
                     VUndefined (VString "GAP Coverage"))).
  unfold finds_more.
  cbn [productName productType coverage benefits limitations disclaimers
       truthy found_some List.length].
  repeat split; (discriminate || lia || auto).
Defined.

(** X17. For the same text, when the second analysis found at least as much
    and one of the seven tests on the analysis has another outcome, the
    score is higher, unless it is 1 already. *)
Theorem calculateConfidence_raises (rawText : string) (a a' : analysis) :
  finds_more a a' -> findings a <> findings a' ->
  (calculateConfidence rawText a <? calculateConfidence rawText a') = true \/
  (1 <=? calculateConfidence rawText a') = true.
Proof.
  intros H Hne. apply signals_raised with (rawText := rawText) in H.
  apply raised_by_spec in H as [_ [H | H]].
  - exfalso. apply Hne. now apply same_findings_spec with (rawText := rawText).
  - rewrite !calculateConfidence_signals. exact H.
Qed.

Lemma calculateConfidence_raises_witness :
  (calculateConfidence "Some coverage text here."
     (Sections [] (Some []) (Some []) (Some []) VUndefined VUndefined)
   <?
   calculateConfidence "Some coverage text here."
     (Sections [] (Some []) (Some []) (Some []) VUndefined
               (VString "GAP Coverage"))) = true \/
  (1 <=?
   calculateConfidence "Some coverage text here."
     (Sections [] (Some []) (Some []) (Some []) VUndefined
               (VString "GAP Coverage"))) = true.
Proof.
  apply (calculateConfidence_raises "Some coverage text here."
           (Sections [] (Some []) (Some []) (Some []) VUndefined VUndefined)
           (Sections [] (Some []) (Some []) (Some []) VUndefined
                     (VString "GAP Coverage"))).
  - unfold finds_more.
    cbn [productName productType coverage benefits limitations disclaimers
         truthy found_some List.length].
    repeat split; (discriminate || lia || auto).
  - unfold findings.
    cbn [productName productType coverage benefits limitations disclaimers
         truthy found_some List.length Str.is_empty negb].
    discriminate.
Defined.

End Confidence.

(* ================================================================= *)
(** ** The extraction of a PDF and its handler *)

Section Extraction.

Import PrimFloat.
#[local] Open Scope float_scope.

Context {buffer : Type}.
Variable pdfParse : buffer -> result (value * value).
Variable analyzeText : string -> result analysis.
Variable generateDescriptionsWithAI :
  string -> analysis -> result (value * value).

(** What an extraction that succeeded was made of. *)
Lemma extractFromPDF_extracted (pdf : buffer) (sd ld : value) (c : float)
  (secs : analysis) (n : nat) (pages : value) :
  extractFromPDF pdfParse analyzeText generateDescriptionsWithAI pdf =
  Extracted sd ld c secs n pages ->
  exists text,
    pdfParse pdf = Ok (VString text, pages) /\
    (50 <= String.length (Str.trim text))%nat /\
    analyzeText text = Ok secs /\
    generateDescriptionsWithAI text secs = Ok (sd, ld) /\
    c = calculateConfidence text secs /\ n = String.length text.
Proof.
  unfold extractFromPDF.
  destruct (pdfParse pdf) as [[text pgs]|]; [|discriminate]. cbn [bind fst snd].
  destruct (truthy text); cbn [negb]; [|discriminate].
  destruct text as [| | t | b o]; cbn [receiver bind]; try discriminate.
  destruct (String.length (Str.trim t) <? 50)%nat eqn:E; [discriminate |].
  apply Nat.ltb_ge in E.
  destruct (analyzeText t) as [an|] eqn:Ea; [|discriminate].
  cbn [bind]. remember (calculateConfidence t an) as score eqn:Hscore.
  destruct (generateDescriptionsWithAI t an) as [[gs gl]|] eqn:Eg;
    [|discriminate].
  cbn [bind fst snd]. intros H. injection H as <- <- <- <- <- <-.
  exists t. repeat split; assumption.
Qed.

(** X18. A PDF that the parser rejects, or whose text has fewer than fifty
    characters once trimmed, is answered 400 with the code
    EXTRACTION_FAILED, and never 500. *)
Theorem extractPdf_rejects (pdf : buffer) :
  pdfParse pdf = TypeError \/
  (exists text pages,
     pdfParse pdf = Ok (text, pages) /\ is_text text = true /\
     (String.length (Str.trim (text_of text)) < 50)%nat) ->
  exists message,
    extractPdf (Some pdf)
      (extractFromPDF pdfParse analyzeText generateDescriptionsWithAI) =
    ErrorResponse 400 message "EXTRACTION_FAILED" /\
    (message = no_text \/ message = failed_to_process).
Proof.
  unfold extractPdf, extractFromPDF.
  intros [-> | [text [pages [-> [Ht Hlen]]]]]; cbn [bind fst snd].
  - exists failed_to_process. split; [reflexivity | now right].
  - exists no_text. split; [|now left].
    destruct text as [| | t | b o]; try discriminate Ht;
      cbn [truthy negb]; try reflexivity.
    cbn [text_of] in Hlen. apply Nat.ltb_lt in Hlen.
    destruct (Str.is_empty t); cbn [negb receiver bind]; [reflexivity |].
    now rewrite Hlen.
Qed.

(** X19. In a reply 200 of the extraction handler the long description has a
    disclaimer, the warnings hold no sentence twice, the flag of issues is
    set exactly when there is a warning, the score lies between 0.25 and 1
    and is the one of the parsed text and its sections, and the reply is
    flagged as of low confidence exactly when the score is below 0.8. *)
Theorem extractPdf_reply (pdf : buffer) (sd ld : value) (c : float)
  (low : bool) (w : list string) (h : bool) (secs : analysis) :
  extractPdf (Some pdf)
    (extractFromPDF pdfParse analyzeText generateDescriptionsWithAI) =
  ExtractResponse sd ld c low w h secs ->
  hasDisclaimer ld = Ok true /\
  NoDup w /\ (h = true <-> w <> []) /\
  low = low_confidence c /\ (0.25 <=? c) = true /\ (c <=? 1) = true /\
  exists text pages,
    pdfParse pdf = Ok (VString text, pages) /\
    (50 <= String.length (Str.trim text))%nat /\
    analyzeText text = Ok secs /\
    c = calculateConfidence text secs.
Proof.
  unfold extractPdf.
  destruct (extractFromPDF pdfParse analyzeText generateDescriptionsWithAI
              pdf) as [e | sd0 ld0 c0 secs0 n pages] eqn:E;
    [discriminate |].
  apply extractFromPDF_extracted in E
    as [text [Hp [Hlen [Ha [Hg [Hc Hn]]]]]].
  destruct (sanitizeHTML_returns ld0) as [y ->]. cbn [bind].
  destruct (ensureDisclaimer_string y) as [l [-> Hl]]. cbn [bind].
  destruct (checkCompliance sd0 (VString l)) as [co|] eqn:Eo;
    [|discriminate].
  cbn [bind]. intros [= <- <- <- <- <- <- <-].
  apply checkCompliance_is_scan in Eo as [t ->].
  split; [exact Hl |]. split; [apply scan_warnings_distinct |].
  split; [apply scan_hasIssues_iff |]. split; [reflexivity |].
  rewrite Hc.
  destruct (in_range_spec _ (calculateConfidence_in_range text secs0))
    as [Hlow Hhigh].
  split; [exact Hlow |]. split; [exact Hhigh |].
  exists text, pages. repeat split; assumption.
Qed.

End Extraction.

Lemma extractPdf_rejects_witness :
  exists message,
    extractPdf (Some tt)
      (extractFromPDF
         (fun _ : unit => Ok (VString "  Scanned page  ", VUndefined))
         (fun _ => TypeError) (fun _ _ => TypeError)) =
    ErrorResponse 400 message "EXTRACTION_FAILED" /\
    (message = no_text \/ message = failed_to_process).
Proof.
  apply (@extractPdf_rejects unit
           (fun _ : unit => Ok (VString "  Scanned page  ", VUndefined))
           (fun _ => TypeError) (fun _ _ => TypeError) tt).
  right. exists (VString "  Scanned page  "), VUndefined.
  repeat split. vm_compute. lia.
Defined.

Lemma extractPdf_reply_witness :
  hasDisclaimer
    (VString ("<p>Covers tires and wheels.</p>" ++ disclaimer_block)) =
  Ok true.
Proof.
  refine (proj1
    (@extractPdf_reply unit
       (fun _ : unit =>
          Ok (VString
                "Tire and Wheel Protection covers damage caused by road hazards.",
              VUndefined))
       (fun _ =>
          Ok (Sections [] (Some []) (Some []) (Some []) VNull
                (VString "Tire & Wheel Protection")))
       (fun _ _ =>
          Ok (VString "Covers tires.",
              VString "<p>Covers tires and wheels.</p>"))
       tt (VString "Covers tires.") _
       (calculateConfidence
          "Tire and Wheel Protection covers damage caused by road hazards."
          (Sections [] (Some []) (Some []) (Some []) VNull
             (VString "Tire & Wheel Protection")))
       true [] false
       (Sections [] (Some []) (Some []) (Some []) VNull
          (VString "Tire & Wheel Protection"))
       _)).
  vm_compute. reflexivity.
Defined.
